(** * log-converter: the cast-to-markdown route

    A shallow embedding of the route handler that turns asciinema
    recordings into markdown: [POST], [stripAnsiCodes],
    [isCommandLine], [extractCommand], [parseTerminalOutput] and
    [convertCastToMarkdown], the TypeScript module held in
    [src/deploy.sh] from line 505 on (line numbers below are those of
    that file), together with the parts of the ECMAScript runtime the
    module calls: strings, regular expressions, [JSON.parse], property
    access and string conversion.

    Strings are sequences of UTF-16 code units, as in the language;
    regular expressions are syntax trees run by a backtracking matcher
    with the language's greedy, leftmost semantics; a number is a
    double, held by the rational that is its exact value, with the two
    infinities and [NaN] beside it. *)

From Stdlib Require Import String Ascii QArith Qround Qabs.
From stdpp Require Import gmap list sorting.

Local Open Scope N_scope.

(** ** Strings *)

Module JsString.

(** A code unit; every literal of the route lies below [0x10000]. *)
Definition char := N.
Definition jsstring := list char.

Fixpoint bytes_of (s : string) : list N :=
  match s with
  | EmptyString => []
  | String a r => N_of_ascii a :: bytes_of r
  end.

(** UTF-8 decoding of a literal written in this file. *)
Fixpoint utf8_decode (need : nat) (acc : N) (bs : list N) : list N :=
  match bs with
  | [] => []
  | b :: r =>
    match need with
    | O =>
      if b <? 0x80 then b :: utf8_decode 0 0 r
      else if b <? 0xE0 then utf8_decode 1 (b - 0xC0) r
      else if b <? 0xF0 then utf8_decode 2 (b - 0xE0) r
      else utf8_decode 3 (b - 0xF0) r
    | S n =>
      let acc' := acc * 64 + (b - 0x80) in
      match n with
      | O => acc' :: utf8_decode 0 0 r
      | S _ => utf8_decode n acc' r
      end
    end
  end.

Definition utf16_units (cp : N) : list char :=
  if cp <? 0x10000 then [cp]
  else [0xD800 + (cp - 0x10000) / 0x400; 0xDC00 + (cp - 0x10000) mod 0x400].

Definition hex_val (c : char) : N :=
  if (48 <=? c) && (c <=? 57) then c - 48
  else if (97 <=? c) && (c <=? 102) then c - 87
  else if (65 <=? c) && (c <=? 70) then c - 55
  else 0.

(** The escapes of a string literal of the source: [\n], [\r], [\t],
    [\\], [\xHH] and [\uHHHH]. *)
Fixpoint unescape (s : list char) : list char :=
  match s with
  | [] => []
  | c :: t =>
    if c =? 92 then
      match t with
      | [] => [c]
      | e :: t1 =>
        if e =? 110 then 10 :: unescape t1
        else if e =? 114 then 13 :: unescape t1
        else if e =? 116 then 9 :: unescape t1
        else if e =? 120 then
          match t1 with
          | h1 :: h2 :: t2 => (16 * hex_val h1 + hex_val h2) :: unescape t2
          | _ => e :: unescape t1
          end
        else if e =? 117 then
          match t1 with
          | h1 :: h2 :: h3 :: h4 :: t2 =>
            (4096 * hex_val h1 + 256 * hex_val h2 + 16 * hex_val h3 + hex_val h4)
              :: unescape t2
          | _ => e :: unescape t1
          end
        else e :: unescape t1
      end
    else c :: unescape t
  end.

(** [js "..."] is the string a source literal with that text denotes. *)
Definition js (s : string) : jsstring :=
  unescape (flat_map utf16_units (utf8_decode 0 0 (bytes_of s))).

(** The code points of a literal, for the classes of a [u]-flag pattern. *)
Definition codepoints (s : string) : list N := utf8_decode 0 0 (bytes_of s).

(** The first code unit of a literal, for one-character classes. *)
Definition chr (s : string) : char := List.hd 0 (js s).

(** WhiteSpace and LineTerminator code points: what [trim] strips and
    what [\s] matches. *)
Definition is_space (c : char) : bool :=
  ((9 <=? c) && (c <=? 13)) || (c =? 32) || (c =? 0xA0) || (c =? 0x1680)
  || ((0x2000 <=? c) && (c <=? 0x200A)) || (c =? 0x2028) || (c =? 0x2029)
  || (c =? 0x202F) || (c =? 0x205F) || (c =? 0x3000) || (c =? 0xFEFF).

Fixpoint trimStart (s : jsstring) : jsstring :=
  match s with
  | [] => []
  | c :: t => if is_space c then trimStart t else s
  end.

Definition trimEnd (s : jsstring) : jsstring := rev (trimStart (rev s)).

Definition trim (s : jsstring) : jsstring := trimEnd (trimStart s).

(** Truthiness of a string: non-empty. *)
Definition nonempty (s : jsstring) : bool :=
  match s with [] => false | _ :: _ => true end.

Definition str_eqb (a b : jsstring) : bool := bool_decide (a = b).

Fixpoint startsWith (s p : jsstring) : bool :=
  match p, s with
  | [], _ => true
  | _ :: _, [] => false
  | x :: p', y :: s' => (x =? y) && startsWith s' p'
  end.

Fixpoint includes (s p : jsstring) : bool :=
  startsWith s p || match s with [] => false | _ :: t => includes t p end.

Definition endsWith (s p : jsstring) : bool := startsWith (rev s) (rev p).

(** [s.split(sep)] for a one-character separator. *)
Fixpoint split_on (sep : char) (s : jsstring) : list jsstring :=
  match s with
  | [] => [[]]
  | c :: t =>
    if c =? sep then [] :: split_on sep t
    else match split_on sep t with
         | [] => [[c]]
         | h :: r => (c :: h) :: r
         end
  end.

(** [a.join(sep)]. *)
Fixpoint join (sep : jsstring) (l : list jsstring) : jsstring :=
  match l with
  | [] => []
  | [x] => x
  | x :: r => x ++ sep ++ join sep r
  end.

(** Decimal digits of a natural number, as [String(n)] prints them. *)
Fixpoint digits_fuel (fuel : nat) (n : N) (acc : jsstring) : jsstring :=
  match fuel with
  | O => acc
  | S f =>
    let acc' := (48 + n mod 10) :: acc in
    if n <? 10 then acc' else digits_fuel f (n / 10) acc'
  end.

Definition N_to_string (n : N) : jsstring :=
  digits_fuel (S (N.to_nat (N.log2 n))) n [].

Definition Z_to_string (z : Z) : jsstring :=
  match z with
  | Zneg p => 45 :: N_to_string (Npos p)
  | _ => N_to_string (Z.to_N z)
  end.

End JsString.
Import JsString.
Arguments js _%_string.
Arguments chr _%_string.
Arguments codepoints _%_string.

(** ** Regular expressions *)

Module Regex.

(** The fragment of the pattern language the route uses.  [Chr] consumes
    one code unit; [CodePoint] consumes one code point (a surrogate pair
    counts as one), as a class does under the [u] flag; [Bol] and [Eol]
    are [^] and [$] without the [m] flag. *)
Inductive regex :=
| Eps
| Chr (p : char -> bool)
| CodePoint (p : N -> bool)
| Seq (a b : regex)
| Alt (a b : regex)
| Star (a : regex)
| Bol
| Eol
| Group (i : nat) (a : regex).

(** Where a match attempt stands: [pos] code units consumed from the
    start of the subject, [rest] still ahead, the groups closed so far. *)
Record mstate := MState {
  pos : nat;
  rest : jsstring;
  caps : list (nat * (nat * nat))
}.

Definition advance (n : nat) (st : mstate) : mstate :=
  MState (pos st + n) (drop n (rest st)) (caps st).

Definition is_high (c : char) : bool := (0xD800 <=? c) && (c <=? 0xDBFF).
Definition is_low (c : char) : bool := (0xDC00 <=? c) && (c <=? 0xDFFF).

(** The iterations of a star: [step] runs the body once and [n] bounds
    the iterations still possible, each of them consuming at least one
    code unit; the star takes as many as it can and gives them back one
    by one when what follows fails. *)
Fixpoint star_loop (step : mstate -> (mstate -> option mstate) -> option mstate)
  (k : mstate -> option mstate) (n : nat) (st : mstate) : option mstate :=
  match n with
  | O => k st
  | S n' =>
    match step st (fun st' =>
            if (pos st <? pos st')%nat then star_loop step k n' st' else None) with
    | Some m => Some m
    | None => k st
    end
  end.

(** Backtracking matcher in continuation-passing style: alternatives
    are tried left to right, quantifiers are greedy. *)
Fixpoint rmatch (r : regex) (st : mstate) (k : mstate -> option mstate)
  : option mstate :=
  match r with
  | Eps => k st
  | Chr p =>
    match rest st with
    | c :: _ => if p c then k (advance 1 st) else None
    | [] => None
    end
  | CodePoint p =>
    match rest st with
    | c :: d :: _ =>
      if is_high c && is_low d
      then if p (0x10000 + (c - 0xD800) * 0x400 + (d - 0xDC00))
           then k (advance 2 st) else None
      else if p c then k (advance 1 st) else None
    | [c] => if p c then k (advance 1 st) else None
    | [] => None
    end
  | Seq a b => rmatch a st (fun st' => rmatch b st' k)
  | Alt a b =>
    match rmatch a st k with
    | Some m => Some m
    | None => rmatch b st k
    end
  | Star a => star_loop (rmatch a) k (length (rest st)) st
  | Bol => if (pos st =? 0)%nat then k st else None
  | Eol => match rest st with [] => k st | _ :: _ => None end
  | Group i a =>
    rmatch a st (fun st' =>
      k (MState (pos st') (rest st') ((i, (pos st, pos st')) :: caps st')))
  end.

(** Derived quantifiers. *)
Definition Plus (a : regex) : regex := Seq a (Star a).
Definition Opt (a : regex) : regex := Alt a Eps.

Fixpoint Rep (n : nat) (a : regex) : regex :=
  match n with O => Eps | S n' => Seq a (Rep n' a) end.

(** [a{n,}] *)
Definition RepMin (n : nat) (a : regex) : regex := Seq (Rep n a) (Star a).

(** [a{0,n}], greedy *)
Fixpoint RepUpTo (n : nat) (a : regex) : regex :=
  match n with O => Eps | S n' => Opt (Seq a (RepUpTo n' a)) end.

(** [a{n,m}] *)
Definition RepRange (n m : nat) (a : regex) : regex :=
  Seq (Rep n a) (RepUpTo (m - n) a).

Fixpoint Seqs (l : list regex) : regex :=
  match l with [] => Eps | [a] => a | a :: r => Seq a (Seqs r) end.

Fixpoint Alts (l : list regex) : regex :=
  match l with [] => Eps | [a] => a | a :: r => Alt a (Alts r) end.

(** Character classes. *)
Definition only (c : char) : char -> bool := N.eqb c.
Definition range (a b : char) : char -> bool := fun c => (a <=? c) && (c <=? b).
Definition oneof (l : jsstring) : char -> bool := fun c => existsb (N.eqb c) l.
Definition cor (p q : char -> bool) : char -> bool := fun c => p c || q c.
Definition cnot (p : char -> bool) : char -> bool := fun c => negb (p c).

Definition digit : char -> bool := range 48 57.
Definition upper : char -> bool := range 65 90.
Definition lower : char -> bool := range 97 122.
Definition letter : char -> bool := cor upper lower.
(** [.] excludes the line terminators. *)
Definition dot : char -> bool :=
  cnot (oneof [10; 13; 0x2028; 0x2029]).

(** A literal run of characters. *)
Definition lit (s : jsstring) : regex := Seqs (map (fun c => Chr (only c)) s).

(** The same under the [i] flag: ASCII letters match in either case. *)
Definition fold_case (c : char) : char := if lower c then c - 32 else c.
Definition lit_ci (s : jsstring) : regex :=
  Seqs (map (fun c => Chr (fun d => fold_case d =? fold_case c)) s).

(** One attempt at index [i], where [s] is the subject from [i] on. *)
Definition match_at (r : regex) (i : nat) (s : jsstring) : option mstate :=
  rmatch r (MState i s []) Some.

(** [re.exec(s)]: the leftmost index with a match. *)
Fixpoint search_from (r : regex) (i : nat) (s : jsstring)
  : option (nat * mstate) :=
  match match_at r i s with
  | Some m => Some (i, m)
  | None =>
    match s with
    | [] => None
    | _ :: t => search_from r (S i) t
    end
  end.

Definition exec (r : regex) (s : jsstring) : option (nat * mstate) :=
  search_from r 0 s.

(** [re.test(s)] *)
Definition test (r : regex) (s : jsstring) : bool :=
  match exec r s with Some _ => true | None => false end.

(** [m[i]] of a successful [exec]: the text of group [i]. *)
Definition capture (s : jsstring) (m : mstate) (i : nat) : option jsstring :=
  match List.find (fun c => (fst c =? i)%nat) (caps m) with
  | Some (_, (b, e)) => Some (take (e - b) (drop b s))
  | None => None
  end.

(** [s.replace(re, repl)] without the [g] flag. *)
Definition replace_first (r : regex) (repl s : jsstring) : jsstring :=
  match exec r s with
  | Some (i, m) => take i s ++ repl ++ drop (pos m) s
  | None => s
  end.

(** [s.replace(re, repl)] with the [g] flag.  [skip] counts the code
    units of the current match still to be dropped. *)
Fixpoint replace_all_from (r : regex) (repl : jsstring) (i skip : nat)
  (s : jsstring) : jsstring :=
  match skip with
  | S k =>
    match s with
    | [] => []
    | _ :: t => replace_all_from r repl (S i) k t
    end
  | O =>
    match match_at r i s with
    | Some m =>
      repl ++
      match s with
      | [] => []
      | c :: t =>
        match (pos m - i)%nat with
        | O => c :: replace_all_from r repl (S i) 0 t
        | S k => replace_all_from r repl (S i) k t
        end
      end
    | None =>
      match s with
      | [] => []
      | c :: t => c :: replace_all_from r repl (S i) 0 t
      end
    end
  end.

Definition replace_all (r : regex) (repl s : jsstring) : jsstring :=
  replace_all_from r repl 0 0 s.

(** [s.split(re)]: [cur] is the piece open since the last separator. *)
Fixpoint split_from (r : regex) (q skip : nat) (cur s : jsstring)
  : list jsstring :=
  match s with
  | [] => [cur]
  | c :: t =>
    match skip with
    | S k => split_from r (S q) k [] t
    | O =>
      match match_at r q s with
      | None => split_from r (S q) 0 (cur ++ [c]) t
      | Some m =>
        match (pos m - q)%nat with
        | O =>
          match cur with
          | [] => split_from r (S q) 0 [c] t
          | _ :: _ => cur :: split_from r (S q) 0 [c] t
          end
        | S k => cur :: split_from r (S q) k [] t
        end
      end
    end
  end.

Definition split (r : regex) (s : jsstring) : list jsstring :=
  match s with
  | [] => match match_at r 0 [] with Some _ => [] | None => [[]] end
  | _ :: _ => split_from r 0 0 [] s
  end.

End Regex.
Import Regex.

(** ** JSON values and [JSON.parse] *)

Module Json.

(** A number is the double its literal rounds to: [JNum q] holds the
    exact value of a finite double, [JInf] stands for a literal beyond
    the range, which [JSON.parse] reads as an infinity.  The two zeros
    are not told apart: the route prints a number, floors it, tests it
    for truth or multiplies it, and none of these does. *)
#[local] Unset Elimination Schemes.
Inductive json :=
| JNull
| JBool (b : bool)
| JNum (q : Q)
| JInf (negative : bool)
| JStr (s : jsstring)
| JArr (l : list json)
| JObj (m : list (jsstring * json)).
#[local] Set Elimination Schemes.

(** A value of the language as the route meets it: a parsed JSON value
    or [undefined]. *)
Definition jsval := option json.
Definition undefined : jsval := None.

Inductive token :=
| TLBrace | TRBrace | TLBracket | TRBracket | TColon | TComma
| TStr (s : jsstring)
| TScalar (v : json).

Inductive lstate :=
| LStart
| LStr (acc : jsstring)
| LEsc (acc : jsstring)
| LUni (acc : jsstring) (ds : list char)
| LNum (cs : list char)
| LLit (expect : list char) (v : json).

Fixpoint take_while (p : char -> bool) (s : jsstring) : jsstring :=
  match s with
  | c :: t => if p c then c :: take_while p t else []
  | [] => []
  end.

Fixpoint drop_while (p : char -> bool) (s : jsstring) : jsstring :=
  match s with
  | c :: t => if p c then drop_while p t else s
  | [] => []
  end.

Definition digits_val (ds : list char) : N :=
  fold_left (fun acc d => 10 * acc + (d - 48)) ds 0.

Definition scale10 (mant : N) (e : Z) : Q :=
  if (0 <=? e)%Z then inject_Z (Z.of_N mant * 10 ^ e)
  else Qmake (Z.of_N mant) (Z.to_pos (10 ^ (- e))).

(** [2^e] for any integer [e]. *)
Definition pow2 (e : Z) : Q :=
  if (0 <=? e)%Z then inject_Z (2 ^ e) else Qmake 1 (Z.to_pos (2 ^ (- e))).

(** The [e] with [2^e <= a < 2^(e+1)], for a positive [a]. *)
Definition log2_floor (a : Q) : Z :=
  let e := (Z.log2 (Qnum a) - Z.log2 (Zpos (Qden a)))%Z in
  if Qle_bool (pow2 e) a then e else (e - 1)%Z.

(** The nearest integer, the even one of two that are equally near. *)
Definition round_half_even (q : Q) : Z :=
  let f := Qfloor q in
  match Qcompare (q - inject_Z f) (1 # 2) with
  | Lt => f
  | Gt => (f + 1)%Z
  | Eq => if Z.even f then f else (f + 1)%Z
  end.

(** The double nearest to a rational, ties to the even significand:
    53 bits of significand, exponents from [-1022] with gradual
    underflow below; [None] when the rounded value leaves the range. *)
Definition round_double (q : Q) : option Q :=
  if Qeq_bool q 0 then Some 0%Q
  else
    let a := Qabs q in
    let e := Z.max (log2_floor a) (-1022) in
    let ulp := pow2 (e - 52) in
    let v := Qred (inject_Z (round_half_even (a / ulp)) * ulp) in
    if Qle_bool (pow2 1024) v then None
    else Some (if (Qnum q <? 0)%Z then Qred (- v) else v).

(** The value a numeric literal denotes, as a JSON value: the nearest
    double, as the engines compute it (past twenty significant digits
    the language would also allow a neighbour). *)
Definition number_value (q : Q) : json :=
  match round_double q with
  | Some v => JNum v
  | None => JInf (Qnum q <? 0)%Z
  end.

(** The number grammar: an optional minus, an integer part without a
    leading zero, an optional fraction, an optional exponent; the
    result is the rational the literal denotes. *)
Definition parse_number (cs : list char) : option Q :=
  let neg := match cs with c :: _ => c =? 45 | [] => false end in
  let s0 := if neg then drop 1 cs else cs in
  let ip := take_while digit s0 in
  let s1 := drop_while digit s0 in
  match ip with
  | [] => None
  | d :: more =>
    if (d =? 48) && nonempty more then None
    else
      let frac :=
        match s1 with
        | c :: t =>
          if c =? 46 then
            match take_while digit t with
            | [] => None
            | fp => Some (fp, drop_while digit t)
            end
          else Some ([], s1)
        | [] => Some ([], s1)
        end in
      match frac with
      | None => None
      | Some (fp, s2) =>
        let expo :=
          match s2 with
          | c :: t =>
            if (c =? 101) || (c =? 69) then
              let eneg := match t with x :: _ => x =? 45 | [] => false end in
              let signed := match t with x :: _ => (x =? 45) || (x =? 43) | [] => false end in
              let t' := if signed then drop 1 t else t in
              match take_while digit t' with
              | [] => None
              | ed =>
                let e := Z.of_N (digits_val ed) in
                Some (if eneg then (- e)%Z else e, drop_while digit t')
              end
            else Some (0%Z, s2)
          | [] => Some (0%Z, s2)
          end in
        match expo with
        | Some (e, []) =>
          let q := scale10 (digits_val (ip ++ fp)) (e - Z.of_nat (length fp)) in
          Some (if neg then Qopp q else q)
        | _ => None
        end
      end
  end.

Definition is_hex (c : char) : bool :=
  digit c || range 97 102 c || range 65 70 c.

Definition hex4 (ds : list char) : char :=
  fold_left (fun acc d => 16 * acc + hex_val d) ds 0.

Definition lex_start (c : char) : option (list token * lstate) :=
  if (c =? 32) || (c =? 9) || (c =? 10) || (c =? 13) then Some ([], LStart)
  else if c =? 123 then Some ([TLBrace], LStart)
  else if c =? 125 then Some ([TRBrace], LStart)
  else if c =? 91 then Some ([TLBracket], LStart)
  else if c =? 93 then Some ([TRBracket], LStart)
  else if c =? 58 then Some ([TColon], LStart)
  else if c =? 44 then Some ([TComma], LStart)
  else if c =? 34 then Some ([], LStr [])
  else if (c =? 45) || digit c then Some ([], LNum [c])
  else if c =? 116 then Some ([], LLit (js "rue") (JBool true))
  else if c =? 102 then Some ([], LLit (js "alse") (JBool false))
  else if c =? 110 then Some ([], LLit (js "ull") JNull)
  else None.

Definition lex_step (st : lstate) (c : char) : option (list token * lstate) :=
  match st with
  | LStart => lex_start c
  | LStr acc =>
    if c =? 34 then Some ([TStr acc], LStart)
    else if c =? 92 then Some ([], LEsc acc)
    else if c <? 32 then None
    else Some ([], LStr (acc ++ [c]))
  | LEsc acc =>
    if (c =? 34) || (c =? 92) || (c =? 47) then Some ([], LStr (acc ++ [c]))
    else if c =? 98 then Some ([], LStr (acc ++ [8]))
    else if c =? 102 then Some ([], LStr (acc ++ [12]))
    else if c =? 110 then Some ([], LStr (acc ++ [10]))
    else if c =? 114 then Some ([], LStr (acc ++ [13]))
    else if c =? 116 then Some ([], LStr (acc ++ [9]))
    else if c =? 117 then Some ([], LUni acc [])
    else None
  | LUni acc ds =>
    if is_hex c then
      if (length ds =? 3)%nat then Some ([], LStr (acc ++ [hex4 (ds ++ [c])]))
      else Some ([], LUni acc (ds ++ [c]))
    else None
  | LNum cs =>
    if digit c || oneof (js "+-.eE") c then Some ([], LNum (cs ++ [c]))
    else
      match parse_number cs, lex_start c with
      | Some q, Some (toks, st') => Some (TScalar (number_value q) :: toks, st')
      | _, _ => None
      end
  | LLit expect v =>
    match expect with
    | [] => None
    | x :: more =>
      if c =? x then
        match more with
        | [] => Some ([TScalar v], LStart)
        | _ :: _ => Some ([], LLit more v)
        end
      else None
    end
  end.

Fixpoint lex (st : lstate) (s : jsstring) : option (list token) :=
  match s with
  | [] =>
    match st with
    | LStart => Some []
    | LNum cs =>
      match parse_number cs with
      | Some q => Some [TScalar (number_value q)]
      | None => None
      end
    | _ => None
    end
  | c :: t =>
    match lex_step st c with
    | Some (toks, st') =>
      match lex st' t with
      | Some more => Some (toks ++ more)
      | None => None
      end
    | None => None
    end
  end.

(** Defining a member: a repeated key keeps its place and takes the
    later value. *)
Fixpoint obj_set (k : jsstring) (v : json) (m : list (jsstring * json))
  : list (jsstring * json) :=
  match m with
  | [] => [(k, v)]
  | (k', v') :: r =>
    if str_eqb k k' then (k', v) :: r else (k', v') :: obj_set k v r
  end.

(** An open container: the elements read so far, newest first, or the
    members and the key waiting for its value. *)
Inductive frame :=
| FArr (elems : list json)
| FObj (members : list (jsstring * json)) (key : option jsstring).

Inductive pmode :=
| MValue | MValueOrClose | MKeyOrClose | MKey | MColon | MAfter
| MDone (v : json).

Definition pstate := (list frame * pmode)%type.

Definition push_value (v : json) (stack : list frame) : option pstate :=
  match stack with
  | [] => Some ([], MDone v)
  | FArr es :: up => Some (FArr (v :: es) :: up, MAfter)
  | FObj ms (Some k) :: up => Some (FObj (obj_set k v ms) None :: up, MAfter)
  | FObj _ None :: _ => None
  end.

Definition close_top (arr : bool) (stack : list frame) : option pstate :=
  match stack with
  | FArr es :: up => if arr then push_value (JArr (rev es)) up else None
  | FObj ms None :: up => if arr then None else push_value (JObj ms) up
  | _ => None
  end.

Definition set_key (k : jsstring) (stack : list frame) : option pstate :=
  match stack with
  | FObj ms None :: up => Some (FObj ms (Some k) :: up, MColon)
  | _ => None
  end.

Definition start_value (t : token) (stack : list frame) : option pstate :=
  match t with
  | TStr s => push_value (JStr s) stack
  | TScalar v => push_value v stack
  | TLBracket => Some (FArr [] :: stack, MValueOrClose)
  | TLBrace => Some (FObj [] None :: stack, MKeyOrClose)
  | _ => None
  end.

Definition pstep (st : pstate) (t : token) : option pstate :=
  let '(stack, mode) := st in
  match mode, t with
  | MValue, _ => start_value t stack
  | MValueOrClose, TRBracket => close_top true stack
  | MValueOrClose, _ => start_value t stack
  | MKeyOrClose, TRBrace => close_top false stack
  | MKeyOrClose, TStr k => set_key k stack
  | MKey, TStr k => set_key k stack
  | MColon, TColon => Some (stack, MValue)
  | MAfter, TComma =>
    match stack with
    | FArr _ :: _ => Some (stack, MValue)
    | FObj _ _ :: _ => Some (stack, MKey)
    | [] => None
    end
  | MAfter, TRBracket => close_top true stack
  | MAfter, TRBrace => close_top false stack
  | _, _ => None
  end.

Fixpoint parse_tokens (st : pstate) (ts : list token) : option json :=
  match ts with
  | [] => match st with ([], MDone v) => Some v | _ => None end
  | t :: r =>
    match pstep st t with
    | Some st' => parse_tokens st' r
    | None => None
    end
  end.

(** [JSON.parse(text)]; [None] stands for the [SyntaxError]. *)
Definition JSON_parse (text : jsstring) : option json :=
  match lex LStart text with
  | Some ts => parse_tokens ([], MValue) ts
  | None => None
  end.

End Json.
Import Json.

(** ** The escape and noise stripper *)

(** [/\x1B\][^\x07\x1B]*(?:\x07|\x1B\\)/g] *)
Definition re_osc : regex :=
  Seqs [Chr (only 27); Chr (only (chr "]")); Star (Chr (cnot (oneof [7; 27])));
        Alt (Chr (only 7)) (Seq (Chr (only 27)) (Chr (only 92)))].

(** [/\][0-9]{1,4};[^\x07]*\x07/g] *)
Definition re_osc_bare : regex :=
  Seqs [Chr (only (chr "]")); RepRange 1 4 (Chr digit); Chr (only (chr ";"));
        Star (Chr (cnot (only 7))); Chr (only 7)].

(** [/\x1B\[[0-9;?]*[A-Za-z]/g] *)
Definition re_csi : regex :=
  Seqs [Chr (only 27); Chr (only (chr "[")); Star (Chr (cor digit (oneof (js ";?"))));
        Chr letter].

(** [/\[[\?><!][0-9;]*[A-Za-z]/g] *)
Definition re_csi_bare : regex :=
  Seqs [Chr (only (chr "[")); Chr (oneof (js "?><!"));
        Star (Chr (cor digit (only (chr ";")))); Chr letter].

(** [/\x1B[=>]/g] *)
Definition re_esc_keypad : regex :=
  Seq (Chr (only 27)) (Chr (oneof (js "=>"))).

(** [/\x1B[\[\]()#;?]*[0-9;]*[A-Za-z@]/g] *)
Definition re_esc_other : regex :=
  Seqs [Chr (only 27); Star (Chr (oneof (js "[]()#;?")));
        Star (Chr (cor digit (only (chr ";")))); Chr (cor letter (only (chr "@")))].

(** [/\x1B\]1337;[^\x07]*\x07/g] *)
Definition re_iterm_1337 : regex :=
  Seqs [Chr (only 27); lit (js "]1337;"); Star (Chr (cnot (only 7))); Chr (only 7)].

(** [/\x1B\]133;[^\x07]*\x07/g] *)
Definition re_iterm_133 : regex :=
  Seqs [Chr (only 27); lit (js "]133;"); Star (Chr (cnot (only 7))); Chr (only 7)].

(** [/\]133;[A-Z];?[0-9]*/g] *)
Definition re_133_bare : regex :=
  Seqs [lit (js "]133;"); Chr upper; Opt (Chr (only (chr ";"))); Star (Chr digit)].

(** [/\]1337;[^\n]*/g] *)
Definition re_1337_bare : regex :=
  Seq (lit (js "]1337;")) (Star (Chr (cnot (only 10)))).

(** [/\[[\?>][0-9;]+[hlm]/g] *)
Definition re_mode : regex :=
  Seqs [Chr (only (chr "[")); Chr (oneof (js "?>"));
        Plus (Chr (cor digit (only (chr ";")))); Chr (oneof (js "hlm"))].

(** [/\[<[0-9;]+[A-Za-z]/g] *)
Definition re_lt : regex :=
  Seqs [lit (js "[<"); Plus (Chr (cor digit (only (chr ";")))); Chr letter].

(** [/[⠀-⣿]/g], and the same range written with its two end
    glyphs in the second pattern. *)
Definition braille : char -> bool := range 0x2800 0x28FF.
Definition braille_glyphs : char -> bool := range (chr "⠀") (chr "⣿").

(** [/[\x00-\x08\x0B-\x0C\x0E-\x1F\x7F]/g] *)
Definition control : char -> bool :=
  cor (range 0 8) (cor (range 11 12) (cor (range 14 31) (only 127))).

(** [/^%\s+➜\s+\S+\s+(.+)$/] *)
Definition re_promptWithCommand : regex :=
  Seqs [Bol; Chr (only (chr "%")); Plus (Chr is_space); Chr (only (chr "➜"));
        Plus (Chr is_space); Plus (Chr (cnot is_space)); Plus (Chr is_space);
        Group 1 (Plus (Chr dot)); Eol].

(** [/^%\s+➜\s+\S+\s*$/] *)
Definition re_justPrompt : regex :=
  Seqs [Bol; Chr (only (chr "%")); Plus (Chr is_space); Chr (only (chr "➜"));
        Plus (Chr is_space); Plus (Chr (cnot is_space)); Star (Chr is_space); Eol].

(** [/\s{2,}/] *)
Definition re_spaces2 : regex := RepMin 2 (Chr is_space).

(** [/^[>\[<\]]+$/] *)
Definition re_remnant : regex :=
  Seqs [Bol; Plus (Chr (oneof (js ">[<]"))); Eol].

(** [/^%\s*$/] *)
Definition re_percent : regex :=
  Seqs [Bol; Chr (only (chr "%")); Star (Chr is_space); Eol].

(** [/^\d+ms\s+\d+[smh]\s+ago/] *)
Definition re_ago : regex :=
  Seqs [Bol; Plus (Chr digit); lit (js "ms"); Plus (Chr is_space);
        Plus (Chr digit); Chr (oneof (js "smh")); Plus (Chr is_space);
        lit (js "ago")].

(** [/ago[a-z]+[A-Z]/] *)
Definition re_ago_glued : regex :=
  Seqs [lit (js "ago"); Plus (Chr lower); Chr upper].

(** [/^(Preparing|Writing|Starting|Installing|Joining)/] *)
Definition progressPattern : regex :=
  Seq Bol (Group 1 (Alts [lit (js "Preparing"); lit (js "Writing");
                          lit (js "Starting"); lit (js "Installing");
                          lit (js "Joining")])).

(** [/^[➜→✗]\s+\S+\s+\//] *)
Definition re_prompt_path : regex :=
  Seqs [Bol; Chr (oneof (js "➜→✗")); Plus (Chr is_space);
        Plus (Chr (cnot is_space)); Plus (Chr is_space); Chr (only (chr "/"))].

(** [/\n{3,}/g] *)
Definition re_blank_run : regex := RepMin 3 (Chr (only 10)).

(** Line 710: runs of three or more newlines shrink to two. *)
Definition squeeze_blank_lines (clean : jsstring) : jsstring :=
  replace_all re_blank_run (js "\n\n") clean.

(** Lines 577 to 598: the escape sequences. *)
Definition strip_sequences (text : jsstring) : jsstring :=
  let clean := text in
  let clean := replace_all re_osc [] clean in
  let clean := replace_all re_osc_bare [] clean in
  let clean := replace_all re_csi [] clean in
  let clean := replace_all re_csi_bare [] clean in
  let clean := replace_all re_esc_keypad [] clean in
  let clean := replace_all re_esc_other [] clean in
  let clean := replace_all re_iterm_1337 [] clean in
  let clean := replace_all re_iterm_133 [] clean in
  let clean := replace_all re_133_bare [] clean in
  let clean := replace_all re_1337_bare [] clean in
  let clean := replace_all re_mode [] clean in
  let clean := replace_all re_lt [] clean in
  clean.

(** Lines 602 to 611: spinner glyphs, control characters, carriage
    returns. *)
Definition strip_glyphs_controls (clean : jsstring) : jsstring :=
  let clean := replace_all (Chr braille) [] clean in
  let clean := replace_all (Chr braille_glyphs) [] clean in
  let clean := replace_all (Chr control) [] clean in
  let clean := replace_all (Chr (only 13)) [] clean in
  clean.

(** One round of the first loop: what the line adds to [collapsed]. *)
Definition collapse_line (collapsed : list jsstring) (line : jsstring)
  : list jsstring :=
  match exec re_promptWithCommand line with
  | Some (_, m) =>
    let line := trim (default [] (capture line m 1)) in
    if nonempty line then collapsed ++ [line] else collapsed
  | None =>
    if test re_justPrompt line then collapsed
    else
      let parts := split re_spaces2 line in
      let uniqueParts := remove_dups (filter (fun p => nonempty p = true) (map trim parts)) in
      if (3 <? length parts)%nat
         && ((length uniqueParts =? 1)%nat || (length uniqueParts =? 2)%nat)
      then
        let lastPart := trim (List.last parts []) in
        if nonempty lastPart then collapsed ++ [lastPart] else collapsed
      else collapsed ++ [line]
  end.

Definition collapse (lines : list jsstring) : list jsstring :=
  fold_left collapse_line lines [].

(** The forward scan of the progress rule over [collapsed[index+1..]]. *)
Fixpoint completed_follows (later : list jsstring) : bool :=
  match later with
  | [] => false
  | next :: more =>
    let nextTrimmed := trim next in
    if includes nextTrimmed (js "✓") && test progressPattern nextTrimmed then true
    else if nonempty nextTrimmed && negb (test progressPattern nextTrimmed) then false
    else completed_follows more
  end.

(** The callback of [collapsed.filter]. *)
Definition keep_line (collapsed : list jsstring) (index : nat) (line : jsstring)
  : bool :=
  let trimmed := trim line in
  if negb (nonempty trimmed) then true
  else if test re_remnant trimmed then false
  else if test re_percent trimmed then false
  else if includes trimmed (js "Atuin v") || includes trimmed (js "<esc>: exit") then false
  else if includes trimmed (js "Search│Inspect") || includes trimmed (js "history count:") then false
  else if includes trimmed (js "[GLOBAL]") then false
  else if test re_ago trimmed then false
  else if test re_ago_glued trimmed then false
  else if test progressPattern trimmed && negb (includes trimmed (js "✓"))
          && completed_follows (drop (S index) collapsed) then false
  else if (0 <? index)%nat
          && str_eqb (trim (default [] (collapsed !! (index - 1)%nat))) trimmed
          && (10 <? length trimmed)%nat then false
  else if test re_prompt_path trimmed then false
  else true.

(** [a.filter((x, index) => f index x)] *)
Fixpoint filter_from {A} (f : nat -> A -> bool) (i : nat) (l : list A) : list A :=
  match l with
  | [] => []
  | x :: r => if f i x then x :: filter_from f (S i) r else filter_from f (S i) r
  end.

Definition stripAnsiCodes (text : jsstring) : jsstring :=
  let clean := strip_glyphs_controls (strip_sequences text) in
  let lines := split_on 10 clean in
  let collapsed := collapse lines in
  let filtered := filter_from (keep_line collapsed) 0 collapsed in
  let clean := join (js "\n") filtered in
  squeeze_blank_lines clean.

(** ** The command and output classifier *)

(** [/^[🔮ℹ️✓🟥⚠️]/u] *)
Definition re_marker : regex :=
  Seq Bol (CodePoint (fun c => existsb (N.eqb c) (codepoints "🔮ℹ️✓🟥⚠️"))).

(** [/^(Creating|Set|You can|Have a|Total|Kubernetes|CoreDNS|To further|I\d{4})/i] *)
Definition re_opener : regex :=
  Seq Bol (Group 1 (Alts [lit_ci (js "Creating"); lit_ci (js "Set");
                          lit_ci (js "You can"); lit_ci (js "Have a");
                          lit_ci (js "Total"); lit_ci (js "Kubernetes");
                          lit_ci (js "CoreDNS"); lit_ci (js "To further");
                          Seq (lit_ci (js "I")) (Rep 4 (Chr digit))])).

(** [/^[A-Z][a-z]+.*:/] *)
Definition re_capital_colon : regex :=
  Seqs [Bol; Chr upper; Plus (Chr lower); Star (Chr dot); Chr (only (chr ":"))].

(** [/^[\$#]\s/] *)
Definition re_shell_prompt : regex :=
  Seqs [Bol; Chr (oneof (js "$#")); Chr is_space].

Definition word_start : char -> bool := cor letter (only (chr "_")).
Definition word_char : char -> bool := cor letter (cor digit (oneof (js "_-"))).

(** [/^[a-zA-Z_][a-zA-Z0-9_-]*@[a-zA-Z0-9_-]+[:#~]/] *)
Definition re_user_host : regex :=
  Seqs [Bol; Chr word_start; Star (Chr word_char); Chr (only (chr "@"));
        Plus (Chr word_char); Chr (oneof (js ":#~"))].

(** [/^[➜→✗]\s+[a-zA-Z0-9_-]+\s+/] *)
Definition re_zsh_prompt : regex :=
  Seqs [Bol; Chr (oneof (js "➜→✗")); Plus (Chr is_space); Plus (Chr word_char);
        Plus (Chr is_space)].

(** [/\s+/] *)
Definition re_spaces : regex := Plus (Chr is_space).

(** [/^[A-Z]/] *)
Definition re_upper_start : regex := Seq Bol (Chr upper).

(** [/^[\.\/~]/] *)
Definition re_path_start : regex := Seq Bol (Chr (oneof (js "./~"))).

Definition commonCommands : list jsstring :=
  [js "ls"; js "cd"; js "pwd"; js "mkdir"; js "rm"; js "cp"; js "mv"; js "cat";
   js "echo"; js "grep"; js "find";
   js "kubectl"; js "docker"; js "git"; js "npm"; js "yarn"; js "curl"; js "wget";
   js "make"; js "go";
   js "python"; js "node"; js "java"; js "cargo"; js "brew"; js "apt"; js "yum";
   js "systemctl";
   js "kind"; js "helm"; js "cilium"; js "terraform"; js "ansible"; js "ssh";
   js "scp"; js "rsync";
   js "vi"; js "vim"; js "nano"; js "emacs"; js "less"; js "more"; js "head";
   js "tail"; js "awk"; js "sed"].

(** The rules below the capitalized-word-then-colon rule, lines 733 to
    761. *)
Definition later_rules (trimmed : jsstring) : bool :=
  if test re_shell_prompt trimmed then true
  else if test re_user_host trimmed then true
  else if test re_zsh_prompt trimmed then true
  else
    let potentialCommand := default [] (head (split re_spaces trimmed)) in
    if existsb (str_eqb potentialCommand) commonCommands
       && negb (test re_upper_start trimmed)
       && (negb (includes trimmed (js ":")) || includes trimmed (js "--"))
    then true
    else if test re_path_start trimmed then true
    else false.

Definition isCommandLine (line : jsstring) : bool :=
  let trimmed := trim line in
  if negb (nonempty trimmed) then false
  else if test re_marker trimmed then false
  else if test re_opener trimmed then false
  else if startsWith trimmed (js "==>") || startsWith trimmed (js "---") then false
  else if test re_capital_colon trimmed
          && negb (includes trimmed (js "$")) && negb (includes trimmed (js "#"))
  then
    if includes trimmed (js "cilium image") then false
    else later_rules trimmed
  else later_rules trimmed.

(** [/^[➜→✗]\s+[^\s]+\s+/] *)
Definition re_strip_zsh : regex :=
  Seqs [Bol; Chr (oneof (js "➜→✗")); Plus (Chr is_space);
        Plus (Chr (cnot is_space)); Plus (Chr is_space)].

(** [/^[a-zA-Z_][a-zA-Z0-9_-]*@[a-zA-Z0-9_-]+:[^\$#]*[\$#]\s*/] *)
Definition re_strip_user_host : regex :=
  Seqs [Bol; Chr word_start; Star (Chr word_char); Chr (only (chr "@"));
        Plus (Chr word_char); Chr (only (chr ":"));
        Star (Chr (cnot (oneof (js "$#")))); Chr (oneof (js "$#"));
        Star (Chr is_space)].

(** [/^[\$#]\s*/] *)
Definition re_strip_prompt : regex :=
  Seqs [Bol; Chr (oneof (js "$#")); Star (Chr is_space)].

(** [/^m\s+/] *)
Definition re_strip_m : regex :=
  Seqs [Bol; Chr (only (chr "m")); Plus (Chr is_space)].

Definition extractCommand (line : jsstring) : jsstring :=
  let cmd := trim line in
  let cmd := replace_first re_strip_zsh [] cmd in
  let cmd := replace_first re_strip_user_host [] cmd in
  let cmd := replace_first re_strip_prompt [] cmd in
  let cmd := replace_first re_strip_m [] cmd in
  cmd.

Inductive block_type := command | output.

Record block := Block { type : block_type; content : jsstring }.

(** The state of the segmenting loop: the blocks pushed so far and
    [currentBlock]. *)
Record segmenter := Segmenter {
  blocks : list block;
  currentBlock : option block
}.

Definition push_current (st : segmenter) : list block :=
  match currentBlock st with
  | Some b => blocks st ++ [b]
  | None => blocks st
  end.

(** One round of the loop of [parseTerminalOutput]. *)
Definition segment_line (st : segmenter) (line : jsstring) : segmenter :=
  if negb (nonempty (trim line)) then
    match currentBlock st with
    | Some (Block output c) =>
      Segmenter (blocks st) (Some (Block output (c ++ js "\n")))
    | _ => st
    end
  else if isCommandLine line then
    let blocks' := push_current st in
    let command_text := extractCommand line in
    if nonempty command_text
    then Segmenter blocks' (Some (Block command (js "$ " ++ command_text ++ js "\n")))
    else Segmenter blocks' None
  else
    match currentBlock st with
    | Some (Block command _) =>
      Segmenter (push_current st) (Some (Block output (line ++ js "\n")))
    | Some (Block output c) =>
      Segmenter (blocks st) (Some (Block output (c ++ line ++ js "\n")))
    | None =>
      Segmenter (blocks st) (Some (Block output (line ++ js "\n")))
    end.

Definition parseTerminalOutput (out : jsstring) : list block :=
  let lines := split_on 10 out in
  push_current (fold_left segment_line lines (Segmenter [] None)).

(** ** Values at run time *)

Module CastEvent.
(** [{ time: event[0], type: event[1], data: event[2] }]: the fields
    hold whatever the decoded line has at those places. *)
Record t := Make { time : jsval; type : jsval; data : jsval }.
End CastEvent.
Abbreviation CastEvent := CastEvent.t.

(** [v[i]] on a value other than [null]. *)
Definition get_index (v : json) (i : nat) : jsval :=
  match v with
  | JArr l => l !! i
  | JStr s => (fun c => JStr [c]) <$> (s !! i)
  | JObj m => snd <$> List.find (fun kv => str_eqb (fst kv) (N_to_string (N.of_nat i))) m
  | _ => undefined
  end.

(** [v.name] on a value other than [null], for the names the route
    reads ([title], [version], [width], [height], [timestamp], [env]),
    none of which an array, string, number or boolean has. *)
Definition get_prop (v : json) (name : jsstring) : jsval :=
  match v with
  | JObj m => snd <$> List.find (fun kv => str_eqb (fst kv) name) m
  | _ => undefined
  end.

Definition truthy (v : jsval) : bool :=
  match v with
  | None => false
  | Some JNull => false
  | Some (JBool b) => b
  | Some (JNum q) => negb (Qeq_bool q 0)
  | Some (JInf _) => true
  | Some (JStr s) => nonempty s
  | Some (JArr _) => true
  | Some (JObj _) => true
  end.

(** A key that is an array index: a canonical decimal below [2^32 - 1]. *)
Definition array_index (k : jsstring) : option N :=
  match k with
  | [] => None
  | d :: more =>
    if forallb digit k && negb ((d =? 48) && nonempty more)
       && (length k <=? 10)%nat && (digits_val k <? 4294967295)
    then Some (digits_val k) else None
  end.

Definition index_leb (a b : N * json) : bool := fst a <=? fst b.

(** [Object.entries(v)] for a truthy [v]: index keys in ascending
    order, then the other keys in the order they were defined. *)
Definition Object_entries (v : json) : list (jsstring * json) :=
  match v with
  | JObj m =>
    let indexed := omap (fun kv => (fun i => (i, snd kv)) <$> array_index (fst kv)) m in
    let named := filter (fun kv => array_index (fst kv) = None) m in
    map (fun iv => (N_to_string (fst iv), snd iv))
        (merge_sort (fun a b => Is_true (index_leb a b)) indexed)
    ++ named
  | JArr l => imap (fun i x => (N_to_string (N.of_nat i), x)) l
  | JStr s => imap (fun i c => (N_to_string (N.of_nat i), JStr [c])) s
  | _ => []
  end.

(** A number at run time: [NaN], an infinity, or a finite double by
    its exact value. *)
Inductive number := NaN | Infinity (negative : bool) | Finite (q : Q).

(** The double nearest to a rational, or the infinity on its side. *)
Definition number_of (q : Q) : number :=
  match round_double q with
  | Some v => Finite v
  | None => Infinity (Qnum q <? 0)%Z
  end.

(** The exponent of a decimal literal in a string: nothing, or [e]
    with an optional sign and digits up to the end. *)
Definition exponent_part (s : jsstring) : option Z :=
  match s with
  | [] => Some 0%Z
  | c :: t =>
    if (c =? 101) || (c =? 69) then
      let negative := match t with x :: _ => x =? 45 | [] => false end in
      let signed :=
        match t with x :: _ => (x =? 45) || (x =? 43) | [] => false end in
      let ds := if signed then drop 1 t else t in
      if nonempty ds && forallb digit ds then
        let e := Z.of_N (digits_val ds) in
        Some (if negative then (- e)%Z else e)
      else None
    else None
  end.

(** An unsigned decimal literal in a string: digits, an optional point
    and digits, an optional exponent, with a digit on one side of the
    point at least. *)
Definition unsigned_decimal (s : jsstring) : option Q :=
  let ip := take_while digit s in
  let s1 := drop_while digit s in
  let '(fp, s2) :=
    match s1 with
    | c :: t =>
      if c =? 46 then (take_while digit t, drop_while digit t) else ([], s1)
    | [] => ([], [])
    end in
  if nonempty ip || nonempty fp then
    (fun e => scale10 (digits_val (ip ++ fp)) (e - Z.of_nat (length fp)))
      <$> exponent_part s2
  else None.

Definition radix_of (c : char) : option N :=
  if (c =? 120) || (c =? 88) then Some 16
  else if (c =? 111) || (c =? 79) then Some 8
  else if (c =? 98) || (c =? 66) then Some 2
  else None.

Definition digit_in (radix : N) (c : char) : option N :=
  let d := if digit c then c - 48
           else if range 97 102 c then c - 87
           else if range 65 70 c then c - 55
           else radix in
  if d <? radix then Some d else None.

(** The digits behind [0x], [0o] or [0b]: one at least. *)
Definition radix_val (radix : N) (ds : jsstring) : option N :=
  if nonempty ds then
    fold_left (fun acc c =>
                 match acc, digit_in radix c with
                 | Some a, Some d => Some (radix * a + d)
                 | _, _ => None
                 end) ds (Some 0)
  else None.

(** [Number(s)] on a string: the white space around is dropped and an
    empty text is zero; then comes [Infinity] with an optional sign, a
    decimal literal with an optional sign, or an unsigned literal in
    base 16, 8 or 2; any other text is [NaN]. *)
Definition StringToNumber (s : jsstring) : number :=
  let t := trim s in
  let negative := match t with c :: _ => c =? 45 | [] => false end in
  let signed :=
    match t with c :: _ => (c =? 45) || (c =? 43) | [] => false end in
  let u := if signed then drop 1 t else t in
  if negb (nonempty t) then Finite 0
  else if str_eqb u (js "Infinity") then Infinity negative
  else
    let based :=
      match t with
      | c :: x :: ds => if c =? 48 then (fun r => radix_val r ds) <$> radix_of x else None
      | _ => None
      end in
    match based with
    | Some (Some n) => number_of (inject_Z (Z.of_N n))
    | Some None => NaN
    | None =>
      match unsigned_decimal u with
      | Some q => number_of (if negative then - q else q)
      | None => NaN
      end
    end.

(** What [Math.floor] returns, and so a key of [eventsBySecond]: an
    integer, an infinity or [NaN]. *)
Inductive second := Sec (z : Z) | SecInfinity (negative : bool) | SecNaN.

#[global] Instance second_eq_dec : EqDecision second.
Proof. solve_decision. Defined.

Definition floor (x : number) : second :=
  match x with
  | NaN => SecNaN
  | Infinity negative => SecInfinity negative
  | Finite q => Sec (Qfloor q)
  end.

(** The sign of [a - b] as the sort reads it, a [NaN] counting as
    zero: [Eq] for zero, [Lt] for a negative difference. *)
Definition second_compare (a b : second) : comparison :=
  match a, b with
  | SecNaN, _ | _, SecNaN => Eq
  | Sec x, Sec y => (x ?= y)%Z
  | SecInfinity na, SecInfinity nb =>
    if Bool.eqb na nb then Eq else if na then Lt else Gt
  | SecInfinity na, Sec _ => if na then Lt else Gt
  | Sec _, SecInfinity nb => if nb then Gt else Lt
  end.

Definition second_leb (a b : second) : bool :=
  match second_compare a b with Gt => false | _ => true end.

Definition is_NaN (s : second) : bool :=
  match s with SecNaN => true | _ => false end.

(** A key that is an array index, which an object lists first. *)
Definition is_index (s : second) : bool :=
  match s with
  | Sec z => (0 <=? z)%Z && (z <? 4294967295)%Z
  | _ => false
  end.

(** What the runtime decides and the route only uses: the decimal
    form of a number that is not a safe integer, the locale's rendering
    of a date (given the time value in milliseconds), and the order
    [sort] leaves an array in when the comparison is not consistent,
    which the language leaves to the implementation; the elements stay
    the same. *)
Class Runtime := {
  Number_toString_other : Q -> jsstring;
  Date_toLocaleString : number -> jsstring;
  sort_inconsistent : list second -> list second;
  sort_inconsistent_perm : forall l, sort_inconsistent l ≡ₚ l
}.

Section Conversion.

Context {runtime : Runtime}.

Definition Number_toString (q : Q) : jsstring :=
  let z := Qfloor q in
  if Qeq_bool q (inject_Z z) && (Z.abs z <=? 2 ^ 53)%Z
  then Z_to_string z else Number_toString_other q.

(** An object read from JSON holds no function.  Converting it to a
    primitive finds [toString] and [valueOf] on the prototype, unless
    the object has a member of that name, which is then not callable
    and is passed over; the inherited [valueOf] returns the object
    itself, so the outcome rests on [toString] alone: the inherited one
    gives the fixed text, a member of that name leaves nothing to call
    and the conversion throws a [TypeError], [None] here. *)
Definition has_member (name : jsstring) (m : list (jsstring * json)) : bool :=
  existsb (fun kv => str_eqb (fst kv) name) m.

(** [String(v)], which is also what a template literal and [+=] on a
    string make of [v]; an array joins its elements, an empty text
    standing for [null]. *)
Fixpoint json_to_string (v : json) : option jsstring :=
  match v with
  | JNull => Some (js "null")
  | JBool true => Some (js "true")
  | JBool false => Some (js "false")
  | JNum q => Some (Number_toString q)
  | JInf negative => Some (if negative then js "-Infinity" else js "Infinity")
  | JStr s => Some s
  | JArr l =>
    join (js ",") <$>
      (fix elements (l : list json) : option (list jsstring) :=
         match l with
         | [] => Some []
         | x :: more =>
           match match x with JNull => Some [] | _ => json_to_string x end,
                 elements more with
           | Some s, Some ss => Some (s :: ss)
           | _, _ => None
           end
         end) l
  | JObj m =>
    if has_member (js "toString") m then None else Some (js "[object Object]")
  end.

Definition ToString (v : jsval) : option jsstring :=
  match v with
  | None => Some (js "undefined")
  | Some x => json_to_string x
  end.

(** [Number(v)]; [None] when the conversion throws. *)
Definition ToNumber (v : jsval) : option number :=
  match v with
  | None => Some NaN
  | Some JNull => Some (Finite 0)
  | Some (JBool b) => Some (Finite (if b then 1 else 0))
  | Some (JNum q) => Some (Finite q)
  | Some (JInf negative) => Some (Infinity negative)
  | Some (JStr s) => Some (StringToNumber s)
  | Some (JArr l) => StringToNumber <$> json_to_string (JArr l)
  | Some (JObj m) => if has_member (js "toString") m then None else Some NaN
  end.

Definition Math_floor (v : jsval) : option second := floor <$> ToNumber v.

(** [x * 1000] *)
Definition times_1000 (x : number) : number :=
  match x with
  | Finite q =>
    match round_double (q * 1000) with
    | Some v => Finite v
    | None => Infinity (Qnum q <? 0)%Z
    end
  | _ => x
  end.

(** [time.toFixed(1)] on a timeline key. *)
Definition toFixed1 (t : second) : jsstring :=
  match t with
  | SecNaN => js "NaN"
  | SecInfinity negative => if negative then js "-Infinity" else js "Infinity"
  | Sec z =>
    if (Z.abs z <? 10 ^ 21)%Z then Z_to_string z ++ js ".0"
    else Number_toString (inject_Z z)
  end.

(** ** The conversion *)

(** One round of the event loop, lines 856 to 867. *)
Definition parse_event_line (events : list CastEvent) (line : jsstring)
  : list CastEvent :=
  if nonempty (trim line) then
    match JSON_parse line with
    | Some JNull => events
    | Some event =>
      events ++ [CastEvent.Make (get_index event 0) (get_index event 1)
                                (get_index event 2)]
    | None => events
    end
  else events.

Definition parse_events (lines : list jsstring) : list CastEvent :=
  fold_left parse_event_line (tail lines) [].

Definition is_output (event : CastEvent) : bool :=
  match CastEvent.type event with
  | Some (JStr s) => str_eqb s (js "o")
  | _ => false
  end.

(** Lines 890 to 895; [None] once a conversion of [event.data] has
    thrown. *)
Definition aggregate (events : list CastEvent) : option jsstring :=
  fold_left (fun terminalOutput event =>
               if is_output event then
                 match terminalOutput, ToString (CastEvent.data event) with
                 | Some out, Some text => Some (out ++ text)
                 | _, _ => None
                 end
               else terminalOutput) events (Some []).

(** The object [eventsBySecond]: its keys in the order they were
    created, each with its count. *)
Definition obj_get (k : second) (o : list (second * nat)) : option nat :=
  snd <$> List.find (fun kv => bool_decide (fst kv = k)) o.

Fixpoint obj_put (k : second) (v : nat) (o : list (second * nat))
  : list (second * nat) :=
  match o with
  | [] => [(k, v)]
  | (k', v') :: r =>
    if decide (k = k') then (k', v) :: r else (k', v') :: obj_put k v r
  end.

(** Lines 925 to 929; [None] once [Math.floor] has thrown. *)
Definition count_event (eventsBySecond : option (list (second * nat)))
  (event : CastEvent) : option (list (second * nat)) :=
  match eventsBySecond, Math_floor (CastEvent.time event) with
  | Some o, Some second =>
    Some (obj_put second (default 0 (obj_get second o) + 1)%nat o)
  | _, _ => None
  end.

Definition eventsBySecond (events : list CastEvent)
  : option (list (second * nat)) :=
  fold_left count_event events (Some []).

(** [Object.keys(o)]: the index keys in ascending order, then the
    other keys in the order they were created. *)
Definition Object_keys (o : list (second * nat)) : list second :=
  merge_sort (fun a b => Is_true (second_leb a b))
             (List.filter is_index (map fst o))
  ++ List.filter (fun k => negb (is_index k)) (map fst o).

(** [Object.keys(eventsBySecond).map(Number).sort((a, b) => a - b)].
    Without [NaN] among the keys the difference is a consistent
    comparison and the result is the keys in ascending order; with it
    the order is the implementation's. *)
Definition timeSlots (o : list (second * nat)) : list second :=
  let keys := Object_keys o in
  if existsb is_NaN keys then sort_inconsistent keys
  else merge_sort (fun a b => Is_true (second_leb a b)) keys.

(** The rows of the table: the key and [eventsBySecond[time]]. *)
Definition timeline (events : list CastEvent) : option (list (second * nat)) :=
  match eventsBySecond events with
  | Some o =>
    Some (map (fun time => (time, default 0%nat (obj_get time o))) (timeSlots o))
  | None => None
  end.

Definition render_row (row : second * nat) : jsstring :=
  js "| " ++ toFixed1 (fst row) ++ js " | " ++ N_to_string (N.of_nat (snd row))
  ++ js " |\n".

Definition render_block (b : block) : jsstring :=
  match type b with
  | command => js "```bash\n" ++ trim (content b) ++ js "\n" ++ js "```\n\n"
  | output => js "```\n" ++ trim (content b) ++ js "\n" ++ js "```\n\n"
  end.

Definition diag_empty : jsstring := js "```\nEmpty cast file\n```".
Definition diag_header : jsstring :=
  js "```\nInvalid cast file format: Could not parse header\n```".
Definition diag_error : jsstring :=
  js "```\nError converting cast file to markdown\n```".

(** Lines 871 to 942, for a header other than [null]; [None] when a
    conversion throws, which sends the route to its outer [catch]. *)
Definition build_markdown (header : json) (events : list CastEvent)
  (fileName : jsstring) : option jsstring :=
  let title := get_prop header (js "title") in
  title ← ToString (if truthy title then title else Some (JStr fileName));
  let markdown := js "# Terminal Recording: " ++ title ++ js "\n\n" in
  let markdown := markdown ++ js "## Recording Information\n\n" in
  let markdown := markdown ++ js "- **File**: " ++ fileName ++ js "\n" in
  version ← ToString (get_prop header (js "version"));
  let markdown := markdown ++ js "- **Version**: " ++ version ++ js "\n" in
  width ← ToString (get_prop header (js "width"));
  height ← ToString (get_prop header (js "height"));
  let markdown :=
    markdown ++ js "- **Dimensions**: " ++ width ++ js " × " ++ height ++ js "\n" in
  let timestamp := get_prop header (js "timestamp") in
  markdown ←
    (if truthy timestamp then
       seconds ← ToNumber timestamp;
       Some (markdown ++ js "- **Recorded**: "
             ++ Date_toLocaleString (times_1000 seconds) ++ js "\n")
     else Some markdown);
  let env := get_prop header (js "env") in
  markdown ←
    (if truthy env then
       fold_left (fun markdown kv =>
                    markdown ← markdown;
                    value ← ToString (Some (snd kv));
                    Some (markdown ++ js "  - " ++ fst kv ++ js ": "
                          ++ value ++ js "\n"))
                 (Object_entries (default JNull env))
                 (Some (markdown ++ js "- **Environment**:\n"))
     else Some markdown);
  terminalOutput ← aggregate events;
  let cleanOutput := stripAnsiCodes terminalOutput in
  let blocks := parseTerminalOutput cleanOutput in
  let markdown := markdown ++ js "\n## Terminal Session\n\n" in
  let markdown := fold_left (fun markdown b => markdown ++ render_block b) blocks markdown in
  let markdown := markdown ++ js "## Timeline\n\n" in
  let markdown :=
    markdown ++ js "Total events: " ++ N_to_string (N.of_nat (length events))
    ++ js "\n\n" in
  rows ← timeline events;
  let markdown := markdown ++ js "| Time (s) | Events |\n" in
  let markdown := markdown ++ js "|----------|--------|\n" in
  let markdown :=
    fold_left (fun markdown row => markdown ++ render_row row) rows markdown in
  let markdown := markdown ++ js "\n---\n\n" in
  let markdown := markdown ++ js "*Generated from asciinema cast file*\n" in
  Some markdown.

Definition convertCastToMarkdown (castContent fileName : jsstring) : jsstring :=
  let lines := split_on 10 (trim castContent) in
  match lines with
  | [] => diag_empty
  | line0 :: _ =>
    match JSON_parse line0 with
    | None => diag_header
    | Some header =>
      let events := parse_events lines in
      match header with
      | JNull => diag_error
      | _ => default diag_error (build_markdown header events fileName)
      end
    end
  end.

(** ** The batch endpoint *)

Inductive fs_entry := File (content : jsstring) | Directory.

(** The [logging] directory as the handler sees it: whether it exists,
    and what [path.join(loggingDir, file)] leads to. *)
Record filesystem := FileSystem {
  logging_exists : bool;
  logging : jsstring -> option fs_entry
}.

Record markdown_entry := Entry { fileName : jsstring; markdown : jsstring }.

Inductive response :=
| Json (markdowns : list markdown_entry) (count : option nat)
       (message : option jsstring)
| ServerError.

(** One round of the loop over [castFiles]; [None] once [readFileSync]
    has thrown. *)
Definition convert_file (fs : filesystem) (markdownData : option (list markdown_entry))
  (file : jsstring) : option (list markdown_entry) :=
  match markdownData with
  | None => None
  | Some acc =>
    match logging fs file with
    | None => Some acc
    | Some Directory => None
    | Some (File content) =>
      Some (acc ++ [Entry file (convertCastToMarkdown content file)])
    end
  end.

(** The handler on a request whose body is an object with an array of
    strings for [files] ([Some files]) or without [files] ([None]);
    [POST_request] below is the handler on any body, and is this
    function on these. *)
Definition POST (fs : filesystem) (files : option (list jsstring)) : response :=
  if negb (logging_exists fs) then
    Json [] None (Some (js "No logging directory found"))
  else
    match files with
    | None | Some [] => Json [] None (Some (js "No files selected"))
    | Some files =>
      let castFiles := filter (fun file => endsWith file (js ".cast") = true) files in
      match fold_left (convert_file fs) castFiles (Some []) with
      | Some markdownData => Json markdownData (Some (length markdownData)) None
      | None => ServerError
      end
    end.

(** [files.length === 0] for a truthy [files]. *)
Definition length_is_zero (files : jsval) : bool :=
  match files with
  | Some (JArr l) => (length l =? 0)%nat
  | Some (JStr s) => (length s =? 0)%nat
  | Some (JObj m) =>
    match get_prop (JObj m) (js "length") with
    | Some (JNum q) => Qeq_bool q 0
    | _ => false
    end
  | _ => false
  end.

Definition string_of (v : json) : option jsstring :=
  match v with JStr s => Some s | _ => None end.

(** [files.filter((file) => file.endsWith('.cast'))]: only an array
    has a [filter] to call and only a string an [endsWith]; [None] for
    the [TypeError] otherwise. *)
Definition cast_names (files : jsval) : option (list jsstring) :=
  match files with
  | Some (JArr l) =>
    filter (fun file => endsWith file (js ".cast") = true) <$> mapM string_of l
  | _ => None
  end.

(** The handler on any request.  [body] is what [request.json()]
    yields, [None] when the body is not JSON and the promise is
    rejected; taking [files] out of [null] throws.  On a body whose
    [files] is absent or is an array of strings this is [POST]. *)
Definition POST_request (fs : filesystem) (body : option json) : response :=
  match body with
  | None | Some JNull => ServerError
  | Some body =>
    let files := get_prop body (js "files") in
    if negb (logging_exists fs) then
      Json [] None (Some (js "No logging directory found"))
    else if negb (truthy files) || length_is_zero files then
      Json [] None (Some (js "No files selected"))
    else
      match cast_names files with
      | None => ServerError
      | Some castFiles =>
        match fold_left (convert_file fs) castFiles (Some []) with
        | Some markdownData => Json markdownData (Some (length markdownData)) None
        | None => ServerError
        end
      end
  end.

(** The entry a listed name leads to, if any. *)
Definition entry_of (fs : filesystem) (file : jsstring) : option markdown_entry :=
  match logging fs file with
  | Some (File content) => Some (Entry file (convertCastToMarkdown content file))
  | _ => None
  end.

(** The key an event is counted under, and how many events of a
    sequence fall under a key. *)
Definition second_of (event : CastEvent) : option second :=
  Math_floor (CastEvent.time event).

Definition count_second (s : second) (events : list CastEvent) : nat :=
  length (filter (fun e => second_of e = Some s) events).

End Conversion.

(** ** Reference definitions for the statements *)

(** What one line of the recording contributes: nothing when it is
    blank, is not JSON or is the JSON [null]; otherwise the event made
    of the elements 0, 1 and 2 of the decoded value. *)
Definition decode_line (line : jsstring) : option CastEvent :=
  if nonempty (trim line) then
    match JSON_parse line with
    | None => None
    | Some JNull => None
    | Some event =>
      Some (CastEvent.Make (get_index event 0) (get_index event 1)
                           (get_index event 2))
    end
  else None.

(** What an output block holds for the lines it took in: each line
    with its newline, a blank line leaving the newline alone. *)
Definition output_text (lines : list jsstring) : jsstring :=
  flat_map (fun l => (if nonempty (trim l) then l else []) ++ js "\n") lines.

(** A block and the source lines it was made from: a command block
    comes from one command line with a non-empty command; an output
    block from a non-blank line followed by any number of lines, none
    of them a command. *)
Definition explains (b : block) (g : list jsstring) : Prop :=
  match type b with
  | command =>
    exists line,
      g = [line] /\ isCommandLine line = true
      /\ nonempty (extractCommand line) = true
      /\ content b = js "$ " ++ extractCommand line ++ js "\n"
  | output =>
    exists line more,
      g = line :: more /\ nonempty (trim line) = true
      /\ Forall (fun l => isCommandLine l = false) g
      /\ content b = output_text g
  end.

(** The invariant of the segmenting loop over the lines read so far:
    the pushed blocks and the open block are explained by consecutive
    groups of those lines, taken in order. *)
Definition seg_inv (st : segmenter) (processed : list jsstring) : Prop :=
  exists groups open_group,
    sublist (concat groups ++ open_group) processed
    /\ Forall2 explains (blocks st) groups
    /\ match currentBlock st with
       | Some b => explains b open_group
       | None => open_group = []
       end.

(** A character that the passes of lines 602 to 611 leave in place. *)
Definition kept (c : char) : bool :=
  negb (braille c) && negb (braille_glyphs c) && negb (control c)
  && negb (c =? 13).

(** The newlines a string starts with, and the strings without three
    newlines in a row. *)
Fixpoint nl_run (s : jsstring) : nat :=
  match s with
  | c :: t => if c =? 10 then S (nl_run t) else O
  | [] => O
  end.

Fixpoint no_blank_run (s : jsstring) : bool :=
  match s with
  | [] => true
  | _ :: t => (nl_run s <? 3)%nat && no_blank_run t
  end.

(** A sort for the closed examples at the end, the one an engine in
    wide use applies to a short array: the first run is found, turned
    round if it descends, and the elements after it are put in place
    one by one, each at the point a search by halving gives. *)
Definition is_Lt (c : comparison) : bool :=
  match c with Lt => true | _ => false end.

Fixpoint insertion_point (n : nat) (a : list second) (pivot : second)
  (left right : nat) : nat :=
  match n with
  | O => left
  | S n =>
    if (left <? right)%nat then
      let mid := (left + (right - left) / 2)%nat in
      if is_Lt (second_compare pivot (default SecNaN (a !! mid)))
      then insertion_point n a pivot left mid
      else insertion_point n a pivot (S mid) right
    else left
  end.

Fixpoint binary_insertion (sorted rest : list second) : list second :=
  match rest with
  | [] => sorted
  | pivot :: rest =>
    let i := insertion_point (length sorted) sorted pivot 0 (length sorted) in
    binary_insertion (take i sorted ++ pivot :: drop i sorted) rest
  end.

Fixpoint run_length (descending : bool) (previous : second) (l : list second)
  : nat :=
  match l with
  | [] => O
  | current :: more =>
    if Bool.eqb (is_Lt (second_compare current previous)) descending
    then S (run_length descending current more) else O
  end.

Definition example_sort (l : list second) : list second :=
  match l with
  | x0 :: x1 :: more =>
    let descending := is_Lt (second_compare x1 x0) in
    let n := (2 + run_length descending x1 more)%nat in
    binary_insertion (if descending then rev (take n l) else take n l) (drop n l)
  | _ => l
  end.

(** A runtime and a directory for the closed examples at the end; the
    examples do not reach the first two conversions. *)
Definition example_runtime : Runtime.
Proof.
  refine {| Number_toString_other := fun _ => js "";
            Date_toLocaleString := fun _ => js "";
            sort_inconsistent := example_sort;
            sort_inconsistent_perm := _ |}.
  assert (Hins : forall todo sorted, binary_insertion sorted todo ≡ₚ sorted ++ todo).
  { intros todo. induction todo as [|pivot todo IH]; intros sorted; simpl.
    - now rewrite app_nil_r.
    - rewrite IH, <- app_assoc. simpl.
      set (i := insertion_point _ _ _ _ _).
      rewrite <- (take_drop i sorted) at 3. rewrite <- app_assoc.
      apply Permutation_app_head. apply Permutation_middle. }
  intros [|x0 [|x1 more]]; try reflexivity. unfold example_sort.
  set (n := (2 + run_length _ x1 more)%nat). rewrite Hins.
  destruct (is_Lt _); [rewrite <- Permutation_rev|]; now rewrite take_drop.
Defined.

Definition example_fs : filesystem :=
  FileSystem true (fun file =>
    if str_eqb file (js "a.cast") then Some (File (js ""))
    else if str_eqb file (js "notes.txt") then Some (File (js "x"))
    else None).

Definition example_recording : jsstring :=
  js "{\x22version\x22:2,\x22width\x22:80,\x22height\x22:24}\n[0.1,\x22o\x22,\x22$ ls\\r\\n\x22]\n[0.5,\x22o\x22,\x22file.txt\\r\\n\x22]\n[2.5,\x22i\x22,\x22q\x22]".

(** The first line of the trimmed recording. *)
Definition header_line (castContent : jsstring) : jsstring :=
  default [] (head (split_on 10 (trim castContent))).

(** ** The casts endpoint *)

(** The handler of [src/unnamed/part_003]: the same walk over the
    listed [.cast] names as the markdown endpoint, returning the raw
    content. *)
Module CastData.
Record t := Make { fileName : jsstring; content : jsstring }.
End CastData.
Abbreviation CastData := CastData.t.

Inductive cast_response :=
| CastJson (casts : list CastData) (count : option nat)
           (message : option jsstring)
| CastServerError.

Definition read_cast (fs : filesystem) (castData : option (list CastData))
  (file : jsstring) : option (list CastData) :=
  match castData with
  | None => None
  | Some acc =>
    match logging fs file with
    | None => Some acc
    | Some Directory => None
    | Some (File content) => Some (acc ++ [CastData.Make file content])
    end
  end.

Definition POST_cast (fs : filesystem) (files : option (list jsstring))
  : cast_response :=
  if negb (logging_exists fs) then
    CastJson [] None (Some (js "No logging directory found"))
  else
    match files with
    | None | Some [] => CastJson [] None (Some (js "No files selected"))
    | Some files =>
      let castFiles := filter (fun file => endsWith file (js ".cast") = true) files in
      match fold_left (read_cast fs) castFiles (Some []) with
      | Some castData => CastJson castData (Some (length castData)) None
      | None => CastServerError
      end
    end.

(** ** The page *)

(** The handlers of the [Home] component in [src/QUICK-START.md]
    that build the selection (lines 409 to 415) and send it to the
    markdown endpoint (lines 494 to 535). *)

(** [setSelectedFiles(prev => prev.includes(fileName) ? prev.filter(f
    => f !== fileName) : [...prev, fileName])] *)
Definition handleFileSelect (prev : list jsstring) (fileName : jsstring)
  : list jsstring :=
  if existsb (str_eqb fileName) prev
  then List.filter (fun f => negb (str_eqb f fileName)) prev
  else prev ++ [fileName].

Inductive view := view_files | view_logs | view_casts | view_markdown.

(** The state hooks the conversion handler reads and writes. *)
Record page := Page {
  selectedFiles : list jsstring;
  markdowns : list markdown_entry;
  loading : bool;
  error : option jsstring;
  viewMode : view
}.

(** What [fetch] comes to: the request reaches the handler, whose
    answer comes back as sent, or the promise is rejected with an error
    that carries a message. *)
Inductive transport := Delivered | Rejected (message : jsstring).

Section Page.

Context {runtime : Runtime}.

(** [handleConvertToMarkdown], the state once the handler has
    finished. *)
Definition handleConvertToMarkdown (fs : filesystem) (net : transport)
  (st : page) : page :=
  if (length (selectedFiles st) =? 0)%nat then
    Page (selectedFiles st) (markdowns st) (loading st)
         (Some (js "Please select at least one cast file")) (viewMode st)
  else
    let castFiles :=
      List.filter (fun f => endsWith f (js ".cast")) (selectedFiles st) in
    if (length castFiles =? 0)%nat then
      Page (selectedFiles st) (markdowns st) (loading st)
           (Some (js "Please select at least one .cast file to convert"))
           (viewMode st)
    else
      match net with
      | Rejected message =>
        Page (selectedFiles st) (markdowns st) false (Some message) (viewMode st)
      | Delivered =>
        match POST fs (Some castFiles) with
        | ServerError =>
          Page (selectedFiles st) (markdowns st) false
               (Some (js "Failed to convert cast files to markdown"))
               (viewMode st)
        | Json data_markdowns _ _ =>
          Page (selectedFiles st) data_markdowns false None view_markdown
        end
      end.

End Page.

(** ** Reference definitions for the further properties *)

(** The lines that become command blocks, and the lines that go into
    output blocks as text. *)
Definition is_command_source (line : jsstring) : bool :=
  isCommandLine line && nonempty (extractCommand line).

Definition is_output_source (line : jsstring) : bool :=
  nonempty (trim line) && negb (isCommandLine line).

Definition is_type (t : block_type) (b : block) : bool :=
  match type b, t with
  | command, command | output, output => true
  | _, _ => false
  end.

(** The non-blank lines of a block. *)
Definition block_lines (b : block) : list jsstring :=
  List.filter (fun l => nonempty (trim l)) (split_on 10 (content b)).

(** The open output block always ends in a newline. *)
Definition open_output_closed (st : segmenter) : Prop :=
  match currentBlock st with
  | Some (Block output c) => exists c' : jsstring, c = c' ++ js "\n"
  | _ => True
  end.

(** The order of the comparison among the keys that are numbers. *)
Definition numeric_le (a b : second) : Prop :=
  Is_true (second_leb a b) /\ a <> SecNaN /\ b <> SecNaN.

(** A value that holds, at any depth, an object with a member named
    [toString]: the values whose conversion to a string or a number
    can throw. *)
Fixpoint has_toString (v : json) : bool :=
  match v with
  | JArr l => existsb has_toString l
  | JObj m =>
    has_member (js "toString") m || existsb (fun kv => has_toString (snd kv)) m
  | _ => false
  end.

(** A value, or [undefined], whose conversions cannot throw. *)
Definition plain (v : jsval) : bool :=
  match v with
  | Some x => negb (has_toString x)
  | None => true
  end.

(** The body of a request that lists names. *)
Definition request_body (files : list jsstring) : json :=
  JObj [(js "files", JArr (JStr <$> files))].

(** The total size of a list of lines, each counted with its newline. *)
Definition lines_size (lines : list jsstring) : nat :=
  fold_right (fun l n => S (length l + n)) O lines.

(** A directory that holds a directory under a [.cast] name. *)
Definition example_fs_dir : filesystem :=
  FileSystem true (fun file =>
    if str_eqb file (js "a.cast") then Some (File (js ""))
    else if str_eqb file (js "dir.cast") then Some Directory
    else None).

(** * Properties *)

(** ** Strings and lists *)

Lemma split_on_nonempty sep s : split_on sep s <> [].
Proof.
  destruct s as [|c t]; simpl; [discriminate|].
  destruct (c =? sep); [discriminate|].
  destruct (split_on sep t); discriminate.
Qed.

Lemma split_on_no_sep sep s : Forall (fun line => sep ∉ line) (split_on sep s).
Proof.
  induction s as [|c t IH]; simpl.
  - repeat constructor. apply not_elem_of_nil.
  - destruct (N.eqb_spec c sep) as [->|Hne].
    + constructor; [apply not_elem_of_nil | exact IH].
    + destruct (split_on sep t) as [|h r].
      * repeat constructor. intros Hin. apply list_elem_of_singleton in Hin.
        congruence.
      * inversion IH as [|? ? Hh Hr]; subst. constructor; [|exact Hr].
        intros Hin. apply elem_of_cons in Hin as [Heq | Hin]; [congruence | tauto].
Qed.

Lemma split_on_single sep s :
  sep ∉ s -> split_on sep (s ++ [sep]) = [s; []].
Proof.
  induction s as [|c t IH]; simpl; intros Hs.
  - rewrite N.eqb_refl. reflexivity.
  - destruct (N.eqb_spec c sep) as [->|Hne].
    + exfalso. apply Hs. left.
    + rewrite IH; [reflexivity|]. intros Hin. apply Hs. now right.
Qed.

(** ** Trimming *)

Lemma trimStart_nil s : trimStart s = [] <-> Forall (fun c => is_space c = true) s.
Proof.
  induction s as [|c t IH]; simpl.
  - split; [constructor | reflexivity].
  - destruct (is_space c) eqn:Hc.
    + rewrite IH. split; [now constructor | now inversion 1].
    + split; [discriminate | inversion 1; congruence].
Qed.

Lemma trimStart_head s c t : trimStart s = c :: t -> is_space c = false.
Proof.
  induction s as [|d u IH]; simpl; [discriminate|].
  destruct (is_space d) eqn:Hd; [exact IH | congruence].
Qed.

Lemma trimStart_Forall (P : char -> Prop) s : Forall P s -> Forall P (trimStart s).
Proof.
  induction 1 as [|c t Hc Ht IH]; simpl; [constructor|].
  destruct (is_space c); [exact IH | now constructor].
Qed.

Lemma trim_Forall (P : char -> Prop) s : Forall P s -> Forall P (trim s).
Proof.
  intros Hs. unfold trim, trimEnd.
  apply Forall_rev, trimStart_Forall, Forall_rev, trimStart_Forall, Hs.
Qed.

Lemma trim_nil s : trim s = [] <-> Forall (fun c => is_space c = true) s.
Proof.
  unfold trim, trimEnd. split.
  - intros Hr. apply (f_equal (@rev char)) in Hr. rewrite rev_involutive in Hr.
    simpl in Hr. apply trimStart_nil in Hr.
    apply Forall_rev in Hr. rewrite rev_involutive in Hr.
    destruct (trimStart s) as [|c t] eqn:Hts; [now apply trimStart_nil|].
    apply trimStart_head in Hts. inversion Hr; congruence.
  - intros Hs. apply trimStart_nil in Hs. rewrite Hs. reflexivity.
Qed.

Lemma space_or_not s :
  Forall (fun c => is_space c = true) s \/ Exists (fun c => is_space c = false) s.
Proof.
  induction s as [|c t [IH|IH]].
  - left. constructor.
  - destruct (is_space c) eqn:Hc; [left | right]; now constructor.
  - right. now apply Exists_cons_tl.
Qed.

(** A string is blank exactly when it has no character outside the
    white space. *)
Lemma nonempty_trim s :
  nonempty (trim s) = true <-> Exists (fun c => is_space c = false) s.
Proof.
  split.
  - intros Hne. destruct (space_or_not s) as [Hall|Hex]; [|exact Hex].
    apply trim_nil in Hall. rewrite Hall in Hne. discriminate.
  - intros Hex. apply Exists_exists in Hex as (c & Hin & Hc).
    destruct (trim s) eqn:Ht; [|reflexivity].
    apply trim_nil in Ht. rewrite Forall_forall in Ht. specialize (Ht c Hin).
    congruence.
Qed.

(** ** The segmenter *)

Lemma replace_first_Forall (P : char -> Prop) r s :
  Forall P s -> Forall P (replace_first r [] s).
Proof.
  intros Hs. unfold replace_first. destruct (exec r s) as [[i m]|]; [|exact Hs].
  simpl. apply Forall_app. split; [now apply Forall_take | now apply Forall_drop].
Qed.

Lemma extractCommand_Forall (P : char -> Prop) line :
  Forall P line -> Forall P (extractCommand line).
Proof.
  intros Hl. unfold extractCommand.
  now repeat apply replace_first_Forall; apply trim_Forall.
Qed.

Lemma isCommandLine_blank line :
  nonempty (trim line) = false -> isCommandLine line = false.
Proof. intros Hb. unfold isCommandLine. now rewrite Hb. Qed.

Lemma output_text_snoc g line :
  output_text (g ++ [line])
  = output_text g ++ (if nonempty (trim line) then line else []) ++ js "\n".
Proof.
  unfold output_text. rewrite flat_map_app. simpl. now rewrite app_nil_r.
Qed.

Lemma seg_inv_skip st processed line :
  seg_inv st processed -> seg_inv st (processed ++ [line]).
Proof.
  intros (gs & g & Hsub & Hbl & Hcur). exists gs, g.
  split; [now apply sublist_inserts_r | auto].
Qed.

Lemma seg_inv_push st processed :
  seg_inv st processed ->
  exists groups,
    sublist (concat groups) processed
    /\ Forall2 explains (push_current st) groups.
Proof.
  intros (gs & g & Hsub & Hbl & Hcur). unfold push_current.
  destruct (currentBlock st) as [b|].
  - exists (gs ++ [g]). rewrite concat_app. simpl. rewrite app_nil_r.
    split; [exact Hsub|]. apply Forall2_app; [exact Hbl | now repeat constructor].
  - subst g. rewrite app_nil_r in Hsub. now exists gs.
Qed.

Lemma seg_inv_step st processed line :
  seg_inv st processed -> seg_inv (segment_line st line) (processed ++ [line]).
Proof.
  intros Hinv. unfold segment_line.
  destruct (nonempty (trim line)) eqn:Hblank; simpl.
  - destruct (isCommandLine line) eqn:Hcmd.
    + destruct (seg_inv_push _ _ Hinv) as (groups & Hsub & Hbl).
      destruct (nonempty (extractCommand line)) eqn:Hne.
      * exists groups, [line]. simpl.
        split; [now apply sublist_app|]. split; [exact Hbl|].
        exists line. auto.
      * exists groups, []. simpl. rewrite app_nil_r.
        split; [now apply sublist_inserts_r | auto].
    + destruct (currentBlock st) as [[[] c]|] eqn:Hcb.
      * destruct (seg_inv_push _ _ Hinv) as (groups & Hsub & Hbl).
        exists groups, [line]. simpl.
        split; [now apply sublist_app|]. split; [exact Hbl|].
        exists line, []. unfold output_text. simpl.
        rewrite Hblank, app_nil_r. repeat split; auto.
      * destruct Hinv as (gs & g & Hsub & Hbl & Hcur). rewrite Hcb in Hcur.
        destruct Hcur as (l0 & more & -> & Hl0 & Hall & Hc). cbn [content] in Hc.
        exists gs, ((l0 :: more) ++ [line]). cbn [currentBlock blocks].
        split; [rewrite app_assoc; now apply sublist_app|]. split; [exact Hbl|].
        exists l0, (more ++ [line]). split; [reflexivity|]. split; [exact Hl0|].
        split; [apply Forall_app; split; [exact Hall | now repeat constructor]|].
        cbn [content]. change (l0 :: more ++ [line]) with ((l0 :: more) ++ [line]).
        rewrite output_text_snoc, Hblank, <- Hc. reflexivity.
      * destruct Hinv as (gs & g & Hsub & Hbl & Hcur). rewrite Hcb in Hcur.
        subst g. rewrite app_nil_r in Hsub. exists gs, [line]. simpl.
        split; [now apply sublist_app|].
        split; [exact Hbl|].
        exists line, []. unfold output_text. simpl.
        rewrite Hblank, app_nil_r. repeat split; auto.
  - destruct (currentBlock st) as [[[] c]|] eqn:Hcb;
      try (now apply seg_inv_skip).
    destruct Hinv as (gs & g & Hsub & Hbl & Hcur). rewrite Hcb in Hcur.
    destruct Hcur as (l0 & more & -> & Hl0 & Hall & Hc). cbn [content] in Hc.
    exists gs, ((l0 :: more) ++ [line]). cbn [currentBlock blocks].
    split; [rewrite app_assoc; now apply sublist_app|]. split; [exact Hbl|].
    exists l0, (more ++ [line]). split; [reflexivity|]. split; [exact Hl0|].
    split.
    + apply Forall_app. split; [exact Hall|]. repeat constructor.
      now apply isCommandLine_blank.
    + cbn [content]. change (l0 :: more ++ [line]) with ((l0 :: more) ++ [line]).
        rewrite output_text_snoc, Hblank, <- Hc. reflexivity.
Qed.

Lemma seg_inv_fold lines st processed :
  seg_inv st processed ->
  seg_inv (fold_left segment_line lines st) (processed ++ lines).
Proof.
  revert st processed. induction lines as [|l ls IH]; intros st processed Hinv.
  - now rewrite app_nil_r.
  - simpl. replace (processed ++ l :: ls) with ((processed ++ [l]) ++ ls)
      by now rewrite <- app_assoc.
    apply IH, seg_inv_step, Hinv.
Qed.

(** Every emitted block is explained by a group of source lines, and
    the groups follow one another in the order of the input. *)
Lemma parseTerminalOutput_explained out :
  exists groups,
    sublist (concat groups) (split_on 10 out)
    /\ Forall2 explains (parseTerminalOutput out) groups.
Proof.
  unfold parseTerminalOutput. apply seg_inv_push.
  apply (seg_inv_fold _ _ []). exists [], []. simpl.
  split; [constructor | split; [constructor | reflexivity]].
Qed.

Lemma Forall2_with_r {A B} (R : A -> B -> Prop) (Q : B -> Prop) l k :
  Forall2 R l k -> Forall Q k -> Forall2 (fun x y => R x y /\ Q y) l k.
Proof.
  induction 1 as [|x y l k Hxy Hlk IH]; intros Hk; [constructor|].
  inversion Hk; subst. constructor; auto.
Qed.

(** The groups of lines behind the blocks hold no newline. *)
Lemma parseTerminalOutput_groups out :
  exists groups,
    sublist (concat groups) (split_on 10 out)
    /\ Forall2 (fun b g => explains b g /\ Forall (fun line => 10 ∉ line) g)
               (parseTerminalOutput out) groups.
Proof.
  destruct (parseTerminalOutput_explained out) as (groups & Hsub & Hex).
  exists groups. split; [exact Hsub|]. apply Forall2_with_r; [exact Hex|].
  apply Forall_concat, Forall_forall. intros line Hin.
  pose proof (split_on_no_sep 10 out) as Hno. rewrite Forall_forall in Hno.
  apply Hno. eapply elem_of_sublist; eauto.
Qed.

Lemma command_single_line line :
  10 ∉ line ->
  split_on 10 (js "$ " ++ extractCommand line ++ js "\n")
  = [js "$ " ++ extractCommand line; []].
Proof.
  intros Hno. rewrite app_assoc. apply split_on_single.
  intros Hin. apply elem_of_app in Hin as [Hin|Hin].
  - vm_compute in Hin. repeat (apply elem_of_cons in Hin as [Hin|Hin]; [discriminate|]).
    inversion Hin.
  - assert (Hall : Forall (fun c => c <> 10) (extractCommand line)).
    { apply extractCommand_Forall, Forall_forall. intros c Hc ->. auto. }
    rewrite Forall_forall in Hall. now apply (Hall 10).
Qed.

(** C6.  The blocks are explained, one by one and in order, by groups
    of source lines that follow one another in the input: a command
    block by exactly one line, a command line, its content being the
    single line made of the prompt sign and the extracted command; an
    output block by one or more lines, none of them a command. *)
Theorem command_blocks_hold_one_line (out : jsstring) :
  exists groups : list (list jsstring),
    sublist (concat groups) (split_on 10 out)
    /\ Forall2 (fun b g =>
         match type b with
         | command =>
           exists line,
             g = [line] /\ isCommandLine line = true
             /\ content b = js "$ " ++ extractCommand line ++ js "\n"
             /\ split_on 10 (content b) = [js "$ " ++ extractCommand line; []]
         | output =>
           g <> [] /\ Forall (fun l => isCommandLine l = false) g
           /\ content b = output_text g
         end) (parseTerminalOutput out) groups.
Proof.
  destruct (parseTerminalOutput_groups out) as (groups & Hsub & Hex).
  exists groups. split; [exact Hsub|].
  eapply Forall2_impl; [exact Hex|]. clear. intros [[] c] g [Hb Hno]; simpl.
  - destruct Hb as (line & -> & Hcmd & _ & Hc). exists line.
    simpl in Hc. subst c. repeat split; auto.
    apply command_single_line. now inversion Hno.
  - destruct Hb as (line & more & -> & _ & Hall & Hc). repeat split; auto.
Qed.

(** C10.  No block is empty: a command block is the prompt sign, a
    non-empty extracted command and a newline; an output block starts
    with a line that is not blank; and what a fenced code block shows,
    the trimmed content, is never empty. *)
Theorem blocks_not_empty (out : jsstring) :
  Forall (fun b =>
    nonempty (trim (content b)) = true
    /\ match type b with
       | command =>
         exists line,
           isCommandLine line = true
           /\ nonempty (extractCommand line) = true
           /\ content b = js "$ " ++ extractCommand line ++ js "\n"
       | output =>
         exists line more,
           nonempty (trim line) = true /\ (10 ∉ line)
           /\ content b = line ++ js "\n" ++ more
       end) (parseTerminalOutput out).
Proof.
  destruct (parseTerminalOutput_groups out) as (groups & _ & Hex).
  eapply Forall2_Forall_l; [exact Hex|]. apply Forall_forall.
  clear. intros g _ [[] c] [Hb Hno]; simpl.
  - destruct Hb as (line & -> & Hcmd & Hne & Hc). simpl in Hc. subst c.
    split; [|exists line; auto].
    apply nonempty_trim. apply Exists_cons_hd. reflexivity.
  - destruct Hb as (line & more & -> & Hl & _ & Hc). simpl in Hc. subst c.
    unfold output_text. simpl. rewrite Hl, <- app_assoc.
    split.
    + apply nonempty_trim, Exists_app. left. now apply nonempty_trim.
    + exists line, (output_text more). repeat split; auto. now inversion Hno.
Qed.

(** ** The stripper *)

(** Replacing a one-character class by nothing filters the string. *)
Lemma replace_all_chr_from p i s :
  replace_all_from (Chr p) [] i 0 s = List.filter (fun c => negb (p c)) s.
Proof.
  revert i. induction s as [|c t IH]; intros i; [reflexivity|].
  simpl. unfold match_at. simpl. destruct (p c); simpl.
  - replace (i + 1 - i)%nat with 1%nat by lia. apply IH.
  - f_equal. apply IH.
Qed.

Lemma replace_all_chr p s :
  replace_all (Chr p) [] s = List.filter (fun c => negb (p c)) s.
Proof. apply replace_all_chr_from. Qed.

Lemma filter_all_true {A} (f : A -> bool) l :
  Forall (fun x => f x = true) l -> List.filter f l = l.
Proof.
  induction 1 as [|x l Hx Hl IH]; simpl; [reflexivity|]. now rewrite Hx, IH.
Qed.

Lemma strip_glyphs_controls_kept s :
  Forall (fun c => kept c = true) (strip_glyphs_controls s).
Proof.
  unfold strip_glyphs_controls. rewrite !replace_all_chr.
  apply Forall_forall. intros c Hc. apply list_elem_of_In in Hc.
  repeat (apply filter_In in Hc as [Hc ?]).
  unfold kept. unfold only in *. rewrite (N.eqb_sym c 13).
  repeat (apply andb_true_iff; split); assumption.
Qed.

Lemma strip_glyphs_controls_id s :
  Forall (fun c => kept c = true) s -> strip_glyphs_controls s = s.
Proof.
  intros Hs. unfold strip_glyphs_controls. rewrite !replace_all_chr.
  assert (H4 : forall p, (forall c, kept c = true -> negb (p c) = true) ->
                         List.filter (fun c => negb (p c)) s = s).
  { intros p Hp. apply filter_all_true. eapply Forall_impl; [exact Hs|]. exact Hp. }
  unfold kept in H4.
  rewrite (H4 braille), (H4 braille_glyphs), (H4 control), (H4 (only 13));
    try reflexivity; intros c Hc;
    repeat (apply andb_true_iff in Hc as [Hc ?]); try assumption.
  unfold only. now rewrite N.eqb_sym.
Qed.

Section Characters.

(** A property of characters that the newline has. *)
Variable P : char -> Prop.
Hypothesis P_newline : P 10.

Lemma split_on_Forall s :
  Forall P s -> Forall (Forall P) (split_on 10 s).
Proof.
  induction 1 as [|c t Hc Ht IH]; simpl; [now repeat constructor|].
  destruct (c =? 10); [now constructor|].
  destruct (split_on 10 t) as [|h r]; [now repeat constructor|].
  inversion IH; subst. constructor; [now constructor | assumption].
Qed.

Lemma split_from_Forall r q skip cur s :
  Forall P cur -> Forall P s -> Forall (Forall P) (split_from r q skip cur s).
Proof.
  intros Hcur Hs. revert q skip cur Hcur.
  induction Hs as [|c t Hc Ht IH]; intros q skip cur Hcur; simpl;
    [now repeat constructor|].
  destruct skip as [|k]; [|apply IH; constructor].
  destruct (match_at r q (c :: t)) as [m|].
  - destruct (pos m - q)%nat.
    + destruct cur; [|constructor; [assumption|]]; apply IH; now repeat constructor.
    + constructor; [assumption|]. apply IH. constructor.
  - apply IH. apply Forall_app. split; [assumption | now repeat constructor].
Qed.

Lemma split_Forall r s : Forall P s -> Forall (Forall P) (split r s).
Proof.
  intros Hs. unfold split. destruct s as [|c t].
  - destruct (match_at r 0 []); now repeat constructor.
  - apply split_from_Forall; [constructor | exact Hs].
Qed.

Lemma last_Forall (l : list jsstring) :
  Forall (Forall P) l -> Forall P (List.last l []).
Proof.
  induction 1 as [|x l Hx Hl IH]; simpl; [constructor|].
  destruct l; [exact Hx | exact IH].
Qed.

Lemma capture_Forall s m i :
  Forall P s -> Forall P (default [] (capture s m i)).
Proof.
  intros Hs. unfold capture. destruct (List.find _ _) as [[? [b e]]|]; simpl;
    [|constructor].
  now apply Forall_take, Forall_drop.
Qed.

Lemma collapse_line_Forall collapsed line :
  Forall (Forall P) collapsed -> Forall P line ->
  Forall (Forall P) (collapse_line collapsed line).
Proof.
  intros Hc Hl. unfold collapse_line.
  assert (Hsnoc : forall x, Forall P x -> Forall (Forall P) (collapsed ++ [x])).
  { intros x Hx. apply Forall_app. split; [exact Hc | now repeat constructor]. }
  destruct (exec re_promptWithCommand line) as [[i m]|].
  - destruct (nonempty _); [|exact Hc].
    now apply Hsnoc, trim_Forall, capture_Forall.
  - destruct (test re_justPrompt line); [exact Hc|].
    destruct (_ && _).
    + destruct (nonempty _); [|exact Hc].
      now apply Hsnoc, trim_Forall, last_Forall, split_Forall.
    + now apply Hsnoc.
Qed.

Lemma collapse_from_Forall lines collapsed :
  Forall (Forall P) collapsed -> Forall (Forall P) lines ->
  Forall (Forall P) (fold_left collapse_line lines collapsed).
Proof.
  intros Hc Hl. revert collapsed Hc.
  induction Hl as [|l ls Hl Hls IH]; intros collapsed Hc; simpl; [exact Hc|].
  now apply IH, collapse_line_Forall.
Qed.

Lemma filter_from_Forall {A} (Q : A -> Prop) f i l :
  Forall Q l -> Forall Q (filter_from f i l).
Proof.
  intros Hl. revert i. induction Hl as [|x l Hx Hl IH]; intros i; simpl;
    [constructor|].
  destruct (f i x); [constructor|]; auto.
Qed.

Lemma join_Forall sep l :
  Forall P sep -> Forall (Forall P) l -> Forall P (join sep l).
Proof.
  intros Hsep. induction 1 as [|x l Hx Hl IH]; simpl; [constructor|].
  destruct l; [exact Hx|]. apply Forall_app. split; [exact Hx|].
  apply Forall_app. split; [exact Hsep | exact IH].
Qed.

Lemma replace_all_from_Forall r repl i skip s :
  Forall P repl -> Forall P s -> Forall P (replace_all_from r repl i skip s).
Proof.
  intros Hr Hs. revert i skip.
  induction Hs as [|c t Hc Ht IH]; intros i skip.
  - simpl. destruct skip; [|constructor].
    destruct (match_at r i []); [now rewrite app_nil_r | constructor].
  - simpl. destruct skip as [|k]; [|apply IH].
    destruct (match_at r i (c :: t)) as [m|].
    + apply Forall_app. split; [exact Hr|].
      destruct (pos m - i)%nat; [constructor; [exact Hc|]|]; apply IH.
    + constructor; [exact Hc | apply IH].
Qed.

(** From the split into lines on, the stripper only rearranges
    characters it was given and adds newlines. *)
Lemma stripAnsiCodes_Forall text :
  Forall P (strip_glyphs_controls (strip_sequences text)) ->
  Forall P (stripAnsiCodes text).
Proof.
  intros Hclean. unfold stripAnsiCodes, squeeze_blank_lines.
  apply replace_all_from_Forall; [now repeat constructor|].
  apply join_Forall; [now repeat constructor|].
  apply filter_from_Forall, collapse_from_Forall; [constructor|].
  now apply split_on_Forall.
Qed.

End Characters.

(** *** Runs of blank lines *)

Lemma rmatch_chr p st k :
  rmatch (Chr p) st k
  = match rest st with
    | c :: _ => if p c then k (advance 1 st) else None
    | [] => None
    end.
Proof. reflexivity. Qed.

Lemma advance_1 i c t cs :
  advance 1 (MState i (c :: t) cs) = MState (i + 1) t cs.
Proof. unfold advance. simpl. now rewrite drop_0. Qed.

Lemma star_loop_newlines n st :
  (length (rest st) <= n)%nat ->
  star_loop (rmatch (Chr (only 10))) Some n st
  = Some (MState (pos st + nl_run (rest st))
                 (drop (nl_run (rest st)) (rest st)) (caps st)).
Proof.
  revert st. induction n as [|n IH]; intros [i s cs] Hn;
    cbn [star_loop rest pos caps] in *.
  - destruct s; [|simpl in Hn; lia]. cbn [nl_run drop]. now rewrite Nat.add_0_r.
  - rewrite rmatch_chr. cbn [rest]. destruct s as [|c t].
    + cbn [nl_run drop]. now rewrite Nat.add_0_r.
    + cbn [nl_run]. unfold only. rewrite (N.eqb_sym 10 c). destruct (c =? 10).
      * rewrite advance_1. cbn [pos rest caps].
        replace (i <? i + 1)%nat with true by (symmetry; apply Nat.ltb_lt; lia).
        rewrite IH by (cbn [rest]; simpl in Hn; lia). cbn [pos rest caps].
        do 2 f_equal. lia.
      * cbn [drop]. now rewrite Nat.add_0_r.
Qed.

Lemma match_blank_run i s :
  match_at re_blank_run i s
  = if (3 <=? nl_run s)%nat
    then Some (MState (i + nl_run s) (drop (nl_run s) s) []) else None.
Proof.
  unfold match_at, re_blank_run, RepMin. cbn [Rep rmatch rest].
  destruct s as [|c1 s1]; [reflexivity|]. cbn [nl_run].
  unfold only at 1. rewrite (N.eqb_sym 10 c1). destruct (c1 =? 10); [|reflexivity].
  rewrite advance_1. cbn [rest].
  destruct s1 as [|c2 s2]; [reflexivity|]. cbn [nl_run].
  unfold only at 1. rewrite (N.eqb_sym 10 c2). destruct (c2 =? 10); [|reflexivity].
  rewrite advance_1. cbn [rest].
  destruct s2 as [|c3 s3]; [reflexivity|]. cbn [nl_run].
  unfold only at 1. rewrite (N.eqb_sym 10 c3). destruct (c3 =? 10); [|reflexivity].
  rewrite advance_1. cbn [rest].
  change (star_loop (rmatch (Chr (only 10))) Some (length s3)
            (MState (i + 1 + 1 + 1) s3 [])
          = Some (MState (i + S (S (S (nl_run s3))))
                         (drop (S (S (S (nl_run s3)))) (c1 :: c2 :: c3 :: s3)) [])).
  rewrite star_loop_newlines by (cbn [rest]; lia). cbn [pos rest caps drop].
  do 2 f_equal. lia.
Qed.

Lemma replace_all_skip r repl k i s :
  (k <= length s)%nat ->
  replace_all_from r repl i k s = replace_all_from r repl (i + k) 0 (drop k s).
Proof.
  revert i s. induction k as [|k IH]; intros i s Hk.
  - now rewrite Nat.add_0_r, drop_0.
  - destruct s as [|c t]; simpl in *; [lia|].
    rewrite IH by lia. f_equal. lia.
Qed.

Lemma nl_run_length s : (nl_run s <= length s)%nat.
Proof.
  induction s as [|c t IH]; simpl; [lia|]. destruct (c =? 10); simpl; lia.
Qed.

Lemma nl_run_drop s : nl_run (drop (nl_run s) s) = O.
Proof.
  induction s as [|c t IH]; simpl; [reflexivity|].
  destruct (c =? 10) eqn:Hc; simpl; [exact IH | now rewrite Hc].
Qed.

(** One step of the replacement, by what stands at the current place. *)
Lemma squeeze_step i s :
  replace_all_from re_blank_run (js "\n\n") i 0 s
  = if (3 <=? nl_run s)%nat
    then js "\n\n"
         ++ replace_all_from re_blank_run (js "\n\n") (i + nl_run s) 0
              (drop (nl_run s) s)
    else match s with
         | [] => []
         | c :: t => c :: replace_all_from re_blank_run (js "\n\n") (S i) 0 t
         end.
Proof.
  destruct s as [|c t]; [reflexivity|].
  cbn [replace_all_from]. rewrite match_blank_run.
  destruct (3 <=? nl_run (c :: t))%nat eqn:Hrun; [|reflexivity].
  apply Nat.leb_le in Hrun. cbn [pos]. f_equal.
  replace (i + nl_run (c :: t) - i)%nat with (nl_run (c :: t)) by lia.
  pose proof (nl_run_length (c :: t)) as Hlen.
  destruct (nl_run (c :: t)) as [|k] eqn:Hk; [lia|].
  rewrite replace_all_skip by (simpl in Hlen; lia).
  simpl. f_equal. lia.
Qed.

Lemma squeeze_fixed s i :
  no_blank_run s = true ->
  replace_all_from re_blank_run (js "\n\n") i 0 s = s.
Proof.
  revert i. induction s as [|c t IH]; intros i Hs; [reflexivity|].
  cbn [no_blank_run] in Hs. apply andb_true_iff in Hs as [Hrun Hs].
  rewrite squeeze_step. apply Nat.ltb_lt in Hrun.
  replace (3 <=? nl_run (c :: t))%nat with false
    by (symmetry; apply Nat.leb_gt; lia).
  now rewrite IH.
Qed.

Lemma squeeze_short_run s i :
  (nl_run s < 3)%nat ->
  nl_run (replace_all_from re_blank_run (js "\n\n") i 0 s) = nl_run s.
Proof.
  revert i. induction s as [|c t IH]; intros i Hs; [reflexivity|].
  rewrite squeeze_step.
  replace (3 <=? nl_run (c :: t))%nat with false
    by (symmetry; apply Nat.leb_gt; lia).
  cbn [nl_run] in *. destruct (c =? 10); [|reflexivity].
  rewrite IH by lia. reflexivity.
Qed.

Lemma squeeze_no_blank_run n : forall s i,
  (length s <= n)%nat ->
  no_blank_run (replace_all_from re_blank_run (js "\n\n") i 0 s) = true.
Proof.
  induction n as [|n IH]; intros s i Hn.
  - destruct s; [reflexivity | simpl in Hn; lia].
  - rewrite squeeze_step. destruct (3 <=? nl_run s)%nat eqn:Hrun.
    + apply Nat.leb_le in Hrun. pose proof (nl_run_length s) as Hlen.
      assert (Hrest : no_blank_run
                (replace_all_from re_blank_run (js "\n\n") (i + nl_run s) 0
                   (drop (nl_run s) s)) = true)
        by (apply IH; rewrite length_drop; lia).
      pose proof (squeeze_short_run (drop (nl_run s) s) (i + nl_run s)) as Hhead.
      rewrite nl_run_drop in Hhead. specialize (Hhead ltac:(lia)).
      change (js "\n\n") with [10; 10] in *.
      cbn [app no_blank_run nl_run]. rewrite N.eqb_refl, Hhead, Hrest.
      reflexivity.
    + apply Nat.leb_gt in Hrun. destruct s as [|c t]; [reflexivity|].
      assert (Hrest : no_blank_run
                (replace_all_from re_blank_run (js "\n\n") (S i) 0 t) = true)
        by (apply IH; simpl in Hn; lia).
      cbn [no_blank_run]. rewrite Hrest, andb_true_r. apply Nat.ltb_lt.
      cbn [nl_run] in *. destruct (c =? 10); [|lia].
      rewrite squeeze_short_run by lia. lia.
Qed.

(** The pass of line 710 leaves no run for a second application. *)
Lemma squeeze_blank_lines_idempotent s :
  squeeze_blank_lines (squeeze_blank_lines s) = squeeze_blank_lines s.
Proof.
  unfold squeeze_blank_lines, replace_all.
  apply squeeze_fixed, (squeeze_no_blank_run (length s)). lia.
Qed.

(** C8 (amended).  The output of the stripper holds none of the
    characters that lines 602 to 611 remove (spinner glyphs, control
    characters other than newline and tab, carriage returns) and no
    run of three newlines, so running those passes, or the pass of
    line 710, again on the output changes nothing. *)
Theorem strip_output_stable_passes (text : jsstring) :
  Forall (fun c => kept c = true) (stripAnsiCodes text)
  /\ no_blank_run (stripAnsiCodes text) = true
  /\ strip_glyphs_controls (stripAnsiCodes text) = stripAnsiCodes text
  /\ squeeze_blank_lines (stripAnsiCodes text) = stripAnsiCodes text.
Proof.
  assert (Hk : Forall (fun c => kept c = true) (stripAnsiCodes text)).
  { apply stripAnsiCodes_Forall; [reflexivity|].
    apply strip_glyphs_controls_kept. }
  split; [exact Hk|]. split; [|split].
  - unfold stripAnsiCodes, squeeze_blank_lines, replace_all.
    eapply squeeze_no_blank_run. reflexivity.
  - now apply strip_glyphs_controls_id.
  - unfold stripAnsiCodes. apply squeeze_blank_lines_idempotent.
Qed.

(** ** Patterns anchored at the start *)

Lemma search_from_bol r i s :
  (0 < i)%nat -> search_from (Seq Bol r) i s = None.
Proof.
  revert i. induction s as [|c t IH]; intros i Hi; simpl;
    unfold match_at; simpl; destruct i; try lia; simpl; [reflexivity|].
  apply IH. lia.
Qed.

Lemma test_bol r s :
  test (Seq Bol r) s = bool_decide (is_Some (match_at r 0 s)).
Proof.
  unfold test, exec. destruct s as [|c t]; simpl; unfold match_at; simpl.
  - destruct (rmatch r _ Some); symmetry;
      [apply bool_decide_eq_true; eauto | apply bool_decide_eq_false; intros []; discriminate].
  - destruct (rmatch r _ Some).
    + symmetry. apply bool_decide_eq_true. eauto.
    + rewrite search_from_bol by lia. symmetry.
      apply bool_decide_eq_false. intros []; discriminate.
Qed.

(** A match of [^[class]...] shows the first character in the class. *)
Lemma test_bol_chr_seq p r s :
  test (Seq Bol (Seq (Chr p) r)) s = true ->
  exists c t, s = c :: t /\ p c = true.
Proof.
  rewrite test_bol. intros Hm. apply bool_decide_eq_true in Hm as [m Hm].
  unfold match_at in Hm. simpl in Hm. destruct s as [|c t]; [discriminate|].
  exists c, t. split; [reflexivity|]. destruct (p c); [reflexivity | discriminate].
Qed.

Lemma test_bol_chr p s :
  test (Seq Bol (Chr p)) s = match s with c :: _ => p c | [] => false end.
Proof.
  rewrite test_bol. unfold match_at. simpl. destruct s as [|c t].
  - apply bool_decide_eq_false. intros []; discriminate.
  - destruct (p c).
    + apply bool_decide_eq_true. eauto.
    + apply bool_decide_eq_false. intros []; discriminate.
Qed.

Lemma test_bol_chr_seq_false p r s :
  match s with c :: _ => p c = false | [] => True end ->
  test (Seq Bol (Seq (Chr p) r)) s = false.
Proof.
  intros Hs. destruct (test _ s) eqn:Ht; [|reflexivity].
  apply test_bol_chr_seq in Ht as (c & t & -> & Hp). congruence.
Qed.

(** ** The classifier *)

(** A line that starts with a capital letter fails every rule below
    the capitalized-word-then-colon rule except the user-and-host one. *)
Lemma later_rules_capital c t :
  upper c = true ->
  later_rules (c :: t) = test re_user_host (c :: t).
Proof.
  intros Hc. unfold later_rules.
  assert (Hnot : forall l, Forall (fun x => (x < 65) \/ (90 < x)) l -> oneof l c = false).
  { intros l Hl. unfold oneof. apply not_true_iff_false. intros Hex.
    apply existsb_exists in Hex as (x & Hin & Heq).
    apply N.eqb_eq in Heq. subst x.
    rewrite Forall_forall in Hl. apply list_elem_of_In in Hin.
    specialize (Hl _ Hin). unfold upper, range in Hc.
    apply andb_true_iff in Hc as [H1 H2].
    apply N.leb_le in H1, H2. lia. }
  assert (H1 : test re_shell_prompt (c :: t) = false).
  { apply test_bol_chr_seq_false. apply Hnot. vm_compute.
    repeat constructor; lia. }
  assert (H2 : test re_zsh_prompt (c :: t) = false).
  { apply test_bol_chr_seq_false. apply Hnot. vm_compute.
    repeat constructor; lia. }
  assert (H3 : test re_upper_start (c :: t) = true).
  { unfold re_upper_start. rewrite test_bol_chr. exact Hc. }
  assert (H4 : test re_path_start (c :: t) = false).
  { unfold re_path_start. rewrite test_bol_chr. apply Hnot.
    vm_compute. repeat constructor; lia. }
  rewrite H1, H2, H3, H4. simpl. rewrite andb_false_r.
  now destruct (test re_user_host (c :: t)).
Qed.

(** C5 (amended).  A line that matches the capitalized-word-then-colon
    pattern, has neither [$] nor [#], is not the image-version line and
    does not match the user-and-host prompt pattern is not a command:
    no other rule of lower priority can accept it. *)
Theorem capital_colon_line_not_command (line : jsstring) :
  test re_capital_colon (trim line) = true ->
  includes (trim line) (js "$") = false ->
  includes (trim line) (js "#") = false ->
  includes (trim line) (js "cilium image") = false ->
  test re_user_host (trim line) = false ->
  isCommandLine line = false.
Proof.
  intros Hcap _ _ _ Huser. unfold isCommandLine.
  destruct (test_bol_chr_seq _ _ _ Hcap) as (c & t & Heq & Hc).
  rewrite Heq in *. simpl.
  rewrite (later_rules_capital c t Hc), Huser.
  repeat match goal with |- context [if ?b then _ else _] => destruct b end;
    reflexivity.
Qed.

(** ** The event loop and the aggregation *)

Lemma parse_event_line_decode events line :
  parse_event_line events line = events ++ option_list (decode_line line).
Proof.
  unfold parse_event_line, decode_line.
  destruct (nonempty (trim line)); [|now rewrite app_nil_r].
  destruct (JSON_parse line) as [[]|]; simpl; now rewrite ?app_nil_r.
Qed.

Lemma parse_events_from lines acc :
  fold_left parse_event_line lines acc = acc ++ omap decode_line lines.
Proof.
  revert acc. induction lines as [|l ls IH]; intros acc; simpl.
  - now rewrite app_nil_r.
  - rewrite IH, parse_event_line_decode.
    destruct (decode_line l); simpl; now rewrite <- ?app_assoc, ?app_nil_r.
Qed.

(** C2 (amended).  The events are exactly the decodings, in input
    order, of the lines after the header: a line that is blank, is not
    valid JSON or is the JSON [null] is dropped and parsing goes on with
    the next line; every other line, whatever its shape, yields the
    event holding its elements 0, 1 and 2. *)
Theorem parse_events_decodes_each_line (lines : list jsstring) :
  parse_events lines = omap decode_line (tail lines).
Proof. unfold parse_events. now rewrite parse_events_from. Qed.

(** An undecodable line anywhere after the header changes nothing. *)
Lemma parse_events_skips_invalid header before bad after :
  JSON_parse bad = None ->
  parse_events (header :: before ++ bad :: after)
  = parse_events (header :: before ++ after).
Proof.
  intros Hbad. unfold parse_events. rewrite !parse_events_from. simpl.
  rewrite !omap_app. simpl. unfold decode_line at 2. rewrite Hbad.
  now destruct (nonempty (trim bad)).
Qed.

Section ConversionProperties.

Context {runtime : Runtime}.

Lemma aggregate_from events acc :
  fold_left (fun terminalOutput event =>
               if is_output event then
                 match terminalOutput, ToString (CastEvent.data event) with
                 | Some out, Some text => Some (out ++ text)
                 | _, _ => None
                 end
               else terminalOutput) events acc
  = match acc, mapM (fun e => ToString (CastEvent.data e))
                    (List.filter is_output events) with
    | Some out, Some texts => Some (out ++ concat texts)
    | _, _ => None
    end.
Proof.
  revert acc. induction events as [|e es IH]; intros acc; simpl.
  - destruct acc; [now rewrite app_nil_r | reflexivity].
  - rewrite IH. destruct (is_output e); [|reflexivity]. simpl.
    destruct acc as [out|], (ToString (CastEvent.data e)) as [text|]; simpl;
      try (now destruct (mapM _ _)).
    destruct (mapM _ _); simpl; [now rewrite <- app_assoc | reflexivity].
Qed.

(** C3 (amended).  The aggregation converts the data of the events
    whose type is the string [o], and of no other event, each to a
    string, in sequence order; when every one of these conversions
    succeeds the aggregated text is the concatenation of their
    results, a data field that is a string being taken as it is; when
    one of them throws there is no aggregated text. *)
Theorem aggregate_concat_outputs (events : list CastEvent) :
  aggregate events
  = (fun texts => concat texts)
      <$> mapM (fun e => ToString (CastEvent.data e))
               (List.filter is_output events).
Proof.
  unfold aggregate. rewrite aggregate_from. now destruct (mapM _ _).
Qed.

Lemma ToString_string s : ToString (Some (JStr s)) = Some s.
Proof. reflexivity. Qed.

(** ** The header *)

Lemma convert_invalid_header castContent fileName :
  JSON_parse (header_line castContent) = None ->
  convertCastToMarkdown castContent fileName = diag_header.
Proof.
  unfold header_line, convertCastToMarkdown. intros H.
  pose proof (split_on_nonempty 10 (trim castContent)) as Hne.
  destruct (split_on 10 (trim castContent)) as [|line0 rest]; [congruence|].
  simpl in H. now rewrite H.
Qed.

(** C1 at the failing input: the empty recording gets the header
    diagnostic, not the one for an empty cast file; splitting the empty
    string yields one empty line, so the length test never holds. *)
Theorem empty_input_gets_header_diagnostic (fileName : jsstring) :
  split_on 10 (trim (js "")) = [[]]
  /\ convertCastToMarkdown (js "") fileName = diag_header
  /\ diag_header <> diag_empty.
Proof.
  split; [reflexivity|]. split; [|vm_compute; discriminate].
  apply convert_invalid_header. reflexivity.
Qed.


(** ** The timeline *)

Lemma obj_get_put_eq k v o : obj_get k (obj_put k v o) = Some v.
Proof.
  unfold obj_get. induction o as [|[k' v'] r IH]; simpl.
  - now rewrite bool_decide_eq_true_2.
  - destruct (decide (k = k')) as [->|Hne]; simpl.
    + now rewrite bool_decide_eq_true_2.
    + rewrite bool_decide_eq_false_2 by congruence. exact IH.
Qed.

Lemma obj_get_put_ne k k' v o :
  k' <> k -> obj_get k' (obj_put k v o) = obj_get k' o.
Proof.
  intros Hne. unfold obj_get. induction o as [|[k0 v0] r IH]; simpl.
  - now rewrite bool_decide_eq_false_2 by congruence.
  - destruct (decide (k = k0)) as [->|Hk]; simpl.
    + now rewrite !bool_decide_eq_false_2 by congruence.
    + destruct (bool_decide (k0 = k')); [reflexivity | exact IH].
Qed.

Lemma obj_get_None k o : obj_get k o = None <-> k ∉ map fst o.
Proof.
  unfold obj_get. induction o as [|[k0 v0] r IH]; simpl.
  - split; [intros _; apply not_elem_of_nil | reflexivity].
  - rewrite not_elem_of_cons. destruct (decide (k0 = k)) as [->|Hk].
    + rewrite bool_decide_eq_true_2 by reflexivity. simpl.
      split; [discriminate | intros [Hne _]; congruence].
    + rewrite bool_decide_eq_false_2 by exact Hk. rewrite IH.
      split; [intros Hr; split; [congruence | exact Hr] | now intros [_ Hr]].
Qed.

Lemma obj_put_keys k v o :
  map fst (obj_put k v o)
  = if decide (k ∈ map fst o) then map fst o else map fst o ++ [k].
Proof.
  induction o as [|[k0 v0] r IH]; simpl.
  - destruct (decide (k ∈ [])) as [Hin|]; [inversion Hin | reflexivity].
  - destruct (decide (k = k0)) as [->|Hk]; simpl.
    + rewrite decide_True by left. reflexivity.
    + rewrite IH. destruct (decide (k ∈ map fst r)) as [Hin|Hnin].
      * rewrite decide_True by now right. reflexivity.
      * rewrite decide_False; [reflexivity|].
        intros Hin. apply elem_of_cons in Hin as [|]; tauto.
Qed.

Lemma obj_put_NoDup k v o : NoDup (map fst o) -> NoDup (map fst (obj_put k v o)).
Proof.
  intros Hnd. rewrite obj_put_keys. destruct (decide _) as [|Hnin]; [exact Hnd|].
  apply NoDup_app. split; [exact Hnd|]. split; [|apply NoDup_singleton].
  intros x Hx Hxk. apply list_elem_of_singleton in Hxk. now subst.
Qed.

Lemma count_second_snoc s events e :
  count_second s (events ++ [e])
  = (count_second s events + if decide (second_of e = Some s) then 1 else 0)%nat.
Proof.
  unfold count_second. rewrite filter_app, length_app. f_equal.
  rewrite filter_cons, filter_nil. now destruct (decide (second_of e = Some s)).
Qed.

Lemma count_second_cons s events e :
  count_second s (e :: events)
  = ((if decide (second_of e = Some s) then 1 else 0) + count_second s events)%nat.
Proof.
  unfold count_second. rewrite filter_cons.
  now destruct (decide (second_of e = Some s)).
Qed.

Lemma count_second_pos s events :
  (0 < count_second s events)%nat <-> exists e, e ∈ events /\ second_of e = Some s.
Proof.
  unfold count_second. split.
  - intros Hpos. destruct (filter _ events) as [|e l] eqn:Hf; [simpl in Hpos; lia|].
    assert (He : e ∈ filter (fun e => second_of e = Some s) events)
      by (rewrite Hf; left).
    apply list_elem_of_filter in He as [He Hin]. eauto.
  - intros (e & Hin & He).
    assert (Hf : e ∈ filter (fun e => second_of e = Some s) events)
      by (apply list_elem_of_filter; auto).
    destruct (filter _ events); [inversion Hf | simpl; lia].
Qed.

Lemma eventsBySecond_snoc events e :
  eventsBySecond (events ++ [e]) = count_event (eventsBySecond events) e.
Proof. unfold eventsBySecond. now rewrite fold_left_app. Qed.

(** The object exists unless flooring the time of some event throws;
    it then holds, under each key, without repetition, the number of
    events counted there, and has no key without an event. *)
Lemma eventsBySecond_spec events :
  match eventsBySecond events with
  | Some o =>
    Forall (fun e => is_Some (second_of e)) events
    /\ NoDup (map fst o)
    /\ forall s, obj_get s o
                 = if decide (count_second s events = 0%nat) then None
                   else Some (count_second s events)
  | None => exists e, e ∈ events /\ second_of e = None
  end.
Proof.
  induction events as [|e events IH] using rev_ind.
  - simpl. split; [constructor|]. split; [constructor | reflexivity].
  - rewrite eventsBySecond_snoc. unfold count_event. fold (second_of e).
    destruct (eventsBySecond events) as [o|].
    + destruct IH as (Hall & Hnd & Hget).
      destruct (second_of e) as [k|] eqn:Hk.
      * split; [apply Forall_app; split; [exact Hall | repeat constructor; eauto]|].
        split; [now apply obj_put_NoDup|].
        intros s. rewrite count_second_snoc, Hk.
        destruct (decide (Some k = Some s)) as [[= ->]|Hne].
        -- rewrite obj_get_put_eq, Hget.
           destruct (decide (count_second s events = 0%nat)) as [->|Hc]; simpl.
           ++ reflexivity.
           ++ destruct (decide _); [lia | reflexivity].
        -- rewrite obj_get_put_ne by congruence. rewrite Hget, Nat.add_0_r.
           reflexivity.
      * exists e. split; [apply elem_of_app; right; left | exact Hk].
    + destruct IH as (e' & Hin & He'). exists e'.
      split; [apply elem_of_app; now left | exact He'].
Qed.

Lemma filter_split {A} (f : A -> bool) l :
  List.filter f l ++ List.filter (fun x => negb (f x)) l ≡ₚ l.
Proof.
  induction l as [|x l IH]; [reflexivity|]. simpl. destruct (f x); simpl.
  - now rewrite IH.
  - rewrite <- Permutation_middle. now rewrite IH.
Qed.

Lemma Object_keys_perm o : Object_keys o ≡ₚ map fst o.
Proof.
  unfold Object_keys. rewrite merge_sort_Permutation. apply filter_split.
Qed.

Lemma timeSlots_perm o : timeSlots o ≡ₚ map fst o.
Proof.
  unfold timeSlots. destruct (existsb is_NaN (Object_keys o)).
  - rewrite sort_inconsistent_perm. apply Object_keys_perm.
  - rewrite merge_sort_Permutation. apply Object_keys_perm.
Qed.

Lemma elem_of_keys events o s :
  eventsBySecond events = Some o ->
  s ∈ map fst o <-> (0 < count_second s events)%nat.
Proof.
  intros Ho. pose proof (eventsBySecond_spec events) as Hspec.
  rewrite Ho in Hspec. destruct Hspec as (_ & _ & Hget). specialize (Hget s).
  destruct (decide (s ∈ map fst o)) as [Hin|Hnin].
  - split; [intros _|auto]. destruct (decide _) as [Hz|]; [|lia].
    apply obj_get_None in Hget. tauto.
  - split; [tauto|]. intros Hpos. destruct (decide _); [lia|].
    apply obj_get_None in Hnin. congruence.
Qed.

Lemma timeline_counts events o :
  eventsBySecond events = Some o ->
  timeline events = Some (map (fun s => (s, count_second s events)) (timeSlots o)).
Proof.
  intros Ho. unfold timeline. rewrite Ho. f_equal.
  apply map_ext_in. intros s Hin.
  apply list_elem_of_In in Hin. rewrite timeSlots_perm in Hin.
  apply (elem_of_keys events o s Ho) in Hin.
  pose proof (eventsBySecond_spec events) as Hspec.
  rewrite Ho in Hspec. destruct Hspec as (_ & _ & Hget). rewrite Hget.
  destruct (decide _); [lia | reflexivity].
Qed.

Lemma sum_indicator (x : second) keys :
  NoDup keys ->
  sum_list (map (fun k : second => if decide (Some x = Some k) then 1%nat else 0%nat) keys)
  = if decide (x ∈ keys) then 1%nat else 0%nat.
Proof.
  induction 1 as [|k keys Hk Hnd IH]; simpl.
  - destruct (decide (x ∈ [])) as [Hin|]; [inversion Hin | reflexivity].
  - rewrite IH.
    destruct (decide (x ∈ keys)) as [Hin|Hnin], (decide (Some x = Some k)) as [Heq|Hne].
    + injection Heq as ->. tauto.
    + rewrite decide_True by now right. reflexivity.
    + injection Heq as ->. rewrite decide_True by left. reflexivity.
    + rewrite decide_False; [reflexivity|].
      intros Hin. apply elem_of_cons in Hin as [->|]; tauto.
Qed.

Lemma sum_list_add (f g : second -> nat) keys :
  sum_list (map (fun k => f k + g k)%nat keys)
  = (sum_list (map f keys) + sum_list (map g keys))%nat.
Proof. induction keys as [|k keys IH]; simpl; [reflexivity | rewrite IH; lia]. Qed.

(** Counting per key over keys that are distinct and cover the events
    counts every event once. *)
Lemma sum_counts events keys :
  NoDup keys ->
  (forall e, e ∈ events -> exists s, second_of e = Some s /\ s ∈ keys) ->
  sum_list (map (fun k => count_second k events) keys) = length events.
Proof.
  intros Hnd. induction events as [|e events IH]; intros Hcov.
  - induction keys as [|k keys IHk]; [reflexivity|]. simpl.
    apply NoDup_cons in Hnd as [_ Hnd]. now rewrite IHk.
  - rewrite (map_ext _ (fun k => (if decide (second_of e = Some k) then 1 else 0)
                                  + count_second k events)%nat)
      by (intros k; apply count_second_cons).
    destruct (Hcov e) as (s & Hs & Hin); [left|]. rewrite Hs.
    rewrite sum_list_add, sum_indicator by exact Hnd.
    rewrite IH by (intros e' He'; apply Hcov; now right).
    now rewrite decide_True.
Qed.


#[local] Instance second_leb_total : Total (fun a b : second => Is_true (second_leb a b)).
Proof.
  intros [x|[]|] [y|[]|]; unfold second_leb; simpl; auto.
  destruct (Z.compare_spec x y); simpl; auto. right.
  destruct (Z.compare_spec y x); simpl; auto; lia.
Qed.

#[local] Instance numeric_le_trans : Transitive numeric_le.
Proof.
  intros a b c (Hab & Ha & _) (Hbc & Hb & Hc). split; [|auto].
  destruct a as [x|[]|], b as [y|[]|], c as [z|[]|]; try congruence;
    unfold second_leb in *; simpl in *; auto; try contradiction.
  destruct (Z.compare_spec x y), (Z.compare_spec y z), (Z.compare_spec x z);
    simpl in *; auto; lia.
Qed.

Lemma numeric_le_lt a b :
  numeric_le a b -> a <> b -> second_compare a b = Lt.
Proof.
  intros (Hab & Ha & Hb) Hne.
  destruct a as [x|[]|], b as [y|[]|]; try congruence;
    unfold second_leb in *; simpl in *; auto; try contradiction.
  destruct (Z.compare_spec x y); simpl in *; auto; [congruence | contradiction].
Qed.

Lemma Sorted_numeric l :
  SecNaN ∉ l ->
  Sorted (fun a b : second => Is_true (second_leb a b)) l -> Sorted numeric_le l.
Proof.
  intros Hno Hs. induction Hs as [|a l Hs IH Hhd]; [constructor|].
  apply not_elem_of_cons in Hno as [Ha Hl]. constructor; [auto|].
  destruct Hhd as [|b l Hab]; constructor.
  apply not_elem_of_cons in Hl as [Hb _]. split; auto.
Qed.

Lemma StronglySorted_strict l :
  NoDup l -> StronglySorted numeric_le l ->
  StronglySorted (fun a b => second_compare a b = Lt) l.
Proof.
  induction l as [|a l IH]; intros Hnd Hs; [constructor|].
  apply NoDup_cons in Hnd as [Ha Hnd].
  apply StronglySorted_inv in Hs as [Hs Hall]. constructor; [auto|].
  rewrite Forall_forall in *. intros y Hy. apply numeric_le_lt; [auto|].
  intros ->. apply Ha. now apply list_elem_of_In.
Qed.

(** C7 (amended).  The table exists unless flooring the time of some
    event throws.  It then has one row for each key under which an
    event is counted and no other row; a row holds the number of
    events whose floored time is its key, never zero; the counts add up
    to the number of parsed events, of whatever type; and when no
    event is counted under [NaN] the rows ascend strictly by
    second. *)
Theorem timeline_rows (events : list CastEvent) :
  match timeline events with
  | None => exists e, e ∈ events /\ second_of e = None
  | Some rows =>
    Forall (fun e => is_Some (second_of e)) events
    /\ NoDup (map fst rows)
    /\ (forall s, s ∈ map fst rows
                  <-> exists e, e ∈ events /\ second_of e = Some s)
    /\ (forall s c, (s, c) ∈ rows ->
                    c = count_second s events /\ (0 < c)%nat)
    /\ sum_list (map snd rows) = length events
    /\ (Forall (fun e => second_of e <> Some SecNaN) events ->
        StronglySorted (fun a b => second_compare a b = Lt) (map fst rows))
  end.
Proof.
  pose proof (eventsBySecond_spec events) as Hspec.
  destruct (eventsBySecond events) as [o|] eqn:Ho;
    [|unfold timeline; now rewrite Ho].
  rewrite (timeline_counts events o Ho).
  destruct Hspec as (Hall & Hnd & Hget).
  assert (Hfst : map fst (map (fun s => (s, count_second s events)) (timeSlots o))
                 = timeSlots o).
  { rewrite map_map. simpl. apply map_id. }
  assert (Hslots : NoDup (timeSlots o)) by now rewrite timeSlots_perm.
  assert (Hin : forall s, s ∈ timeSlots o <-> (0 < count_second s events)%nat).
  { intros s. rewrite timeSlots_perm. now apply elem_of_keys. }
  rewrite Hfst. split; [exact Hall|]. split; [exact Hslots|].
  split; [|split; [|split]].
  - intros s. rewrite Hin. apply count_second_pos.
  - intros s c Hc. apply list_elem_of_fmap in Hc as (k & [= -> ->] & Hk).
    split; [reflexivity|]. now apply Hin.
  - rewrite map_map. simpl. apply sum_counts; [exact Hslots|].
    intros e He. rewrite Forall_forall in Hall. destruct (Hall e He) as [s Hs].
    exists s. split; [exact Hs|]. apply Hin, count_second_pos. eauto.
  - intros Hnum.
    assert (Hno : SecNaN ∉ map fst o).
    { intros Hnan. apply (elem_of_keys events o _ Ho), count_second_pos in Hnan
        as (e & He & Hs).
      rewrite Forall_forall in Hnum. now apply (Hnum e He). }
    assert (Hkeys : existsb is_NaN (Object_keys o) = false).
    { apply not_true_iff_false. intros Hex.
      apply existsb_exists in Hex as (k & Hk & Hnan).
      destruct k; try discriminate. apply Hno.
      rewrite <- Object_keys_perm. now apply list_elem_of_In. }
    apply StronglySorted_strict; [exact Hslots|].
    apply Sorted_StronglySorted; [apply numeric_le_trans|].
    apply Sorted_numeric; [now rewrite timeSlots_perm|].
    unfold timeSlots. rewrite Hkeys. apply (Sorted_merge_sort _).
Qed.

(** ** The batch endpoint *)


Lemma convert_files_from fs castFiles acc markdownData :
  fold_left (convert_file fs) castFiles (Some acc) = Some markdownData ->
  markdownData = acc ++ omap (entry_of fs) castFiles.
Proof.
  revert acc. induction castFiles as [|f fl IH]; intros acc; simpl.
  - intros [= <-]. now rewrite app_nil_r.
  - unfold entry_of at 1. destruct (logging fs f) as [[content|]|]; simpl.
    + intros Hf. apply IH in Hf. now rewrite Hf, <- app_assoc.
    + clear IH. intros Hf. exfalso. induction fl as [|g gl IHg]; simpl in Hf;
        [discriminate | auto].
    + apply IH.
Qed.

(** C9.  Whenever the handler answers with a list, a name that does
    not end in [.cast] is absent from it even if the file exists, just
    as a name without a file is; every entry pairs a listed name with
    the conversion of its content; and a count, when the answer carries
    one, is the number of entries. *)
Theorem POST_omits_and_counts (fs : filesystem) (files : option (list jsstring))
  (markdowns : list markdown_entry) (count : option nat) (message : option jsstring) :
  POST fs files = Json markdowns count message ->
  (forall file, endsWith file (js ".cast") = false ->
                file ∉ map fileName markdowns)
  /\ (forall file, logging fs file = None -> file ∉ map fileName markdowns)
  /\ (forall entry, entry ∈ markdowns ->
        exists content,
          fileName entry ∈ default [] files
          /\ logging fs (fileName entry) = Some (File content)
          /\ markdown entry = convertCastToMarkdown content (fileName entry))
  /\ (forall c, count = Some c -> c = length markdowns)
  /\ (logging_exists fs = true -> default [] files <> [] ->
      count = Some (length markdowns)).
Proof.
  unfold POST. intros HP.
  assert (Hall : forall entry, entry ∈ markdowns ->
            endsWith (fileName entry) (js ".cast") = true
            /\ exists content,
                fileName entry ∈ default [] files
                /\ logging fs (fileName entry) = Some (File content)
                /\ markdown entry
                   = convertCastToMarkdown content (fileName entry)).
  { destruct (logging_exists fs); simpl in HP;
      [|injection HP as <- _ _; intros e He; inversion He].
    destruct files as [[|f fl]|];
      try (injection HP as <- _ _; intros e He; inversion He).
    destruct (fold_left _ _ _) as [md|] eqn:Hfold; [|discriminate].
    injection HP as <- _ _. apply convert_files_from in Hfold. simpl in Hfold.
    subst md. intros e He. apply list_elem_of_omap in He as (file & Hin & He).
    apply list_elem_of_filter in Hin as [Hcast Hin].
    unfold entry_of in He. destruct (logging fs file) as [[content|]|] eqn:Hl;
      try discriminate.
    injection He as <-. simpl. split; [exact Hcast|]. exists content. auto. }
  split; [|split; [|split; [|split]]].
  - intros file Hno Hin. apply list_elem_of_fmap in Hin as (e & -> & He).
    apply Hall in He as [Hc _]. congruence.
  - intros file Hno Hin. apply list_elem_of_fmap in Hin as (e & -> & He).
    apply Hall in He as [_ (content & _ & Hl & _)]. congruence.
  - intros e He. apply Hall in He as [_ Hc]. exact Hc.
  - intros c ->. destruct (logging_exists fs); simpl in HP; [|discriminate].
    destruct files as [[|f fl]|]; try discriminate.
    destruct (fold_left _ _ _); [|discriminate]. inversion HP; subst. reflexivity.
  - intros Hex Hne. rewrite Hex in HP. simpl in HP.
    destruct files as [[|f fl]|]; try (simpl in Hne; congruence).
    destruct (fold_left _ _ _); [|discriminate]. inversion HP; subst. reflexivity.
Qed.

(** The handler fails only when a listed [.cast] name leads to
    something that cannot be read as a file. *)
Lemma POST_fails_only_on_directory (fs : filesystem) (files : option (list jsstring)) :
  POST fs files = ServerError ->
  exists file,
    file ∈ default [] files /\ endsWith file (js ".cast") = true
    /\ logging fs file = Some Directory.
Proof.
  unfold POST. destruct (logging_exists fs); simpl; [|discriminate].
  destruct files as [[|f fl]|]; try discriminate.
  set (l := f :: fl). clearbody l. simpl.
  destruct (fold_left _ _ _) as [md|] eqn:Hfold; [discriminate|]. intros _.
  assert (Hgen : forall castFiles acc,
            fold_left (convert_file fs) castFiles (Some acc) = None ->
            exists file, file ∈ castFiles /\ logging fs file = Some Directory).
  { clear. induction castFiles as [|g gl IH]; intros acc; simpl; [discriminate|].
    destruct (logging fs g) as [[content|]|] eqn:Hg.
    - intros Hf. apply IH in Hf as (file & Hin & Hd). exists file. split; [now right | exact Hd].
    - intros _. exists g. split; [left | exact Hg].
    - intros Hf. apply IH in Hf as (file & Hin & Hd). exists file. split; [now right | exact Hd]. }
  apply Hgen in Hfold as (file & Hin & Hd).
  apply list_elem_of_filter in Hin as [Hc Hin]. exists file. auto.
Qed.

End ConversionProperties.

(** ** Evaluations at concrete inputs *)

(** C2 (as stated) fails: a two-element array is valid JSON and not a
    three-element structure, yet it is not skipped: it is kept as an
    event without data. *)
Lemma short_event_line_is_kept :
  JSON_parse (js "[1,\x22o\x22]") = Some (JArr [JNum 1; JStr (js "o")])
  /\ parse_events
       (split_on 10 (js "{\x22version\x22:2,\x22width\x22:80,\x22height\x22:24}\n[1,\x22o\x22]"))
     = [CastEvent.Make (Some (JNum 1)) (Some (JStr (js "o"))) undefined].
Proof. vm_compute. split; reflexivity. Qed.

(** C3 (as stated) fails: an output event whose data is an object
    with a member named [toString] is a parsed event, its data cannot
    be converted to text, and there is no aggregated text: the
    conversion ends in the diagnostic of its outer handler. *)
Lemma unprintable_data_has_no_text :
  parse_events
    (split_on 10 (js "{}\n[0,\x22o\x22,{\x22toString\x22:1}]"))
  = [CastEvent.Make (Some (JNum 0)) (Some (JStr (js "o")))
                    (Some (JObj [(js "toString", JNum 1)]))]
  /\ (forall runtime : Runtime,
        aggregate (runtime := runtime)
          (parse_events
             (split_on 10 (js "{}\n[0,\x22o\x22,{\x22toString\x22:1}]"))) = None)
  /\ convertCastToMarkdown (runtime := example_runtime)
       (js "{}\n[0,\x22o\x22,{\x22toString\x22:1}]") (js "a.cast") = diag_error.
Proof.
  split; [vm_compute; reflexivity|]. split; [|vm_compute; reflexivity].
  intros runtime. vm_compute. reflexivity.
Qed.

(** The minimal recording of the specification, with an input event
    added: one command block, one output block, and two rows. *)
Lemma example_recording_converted :
  (fun out => parseTerminalOutput (stripAnsiCodes out))
    <$> aggregate (runtime := example_runtime)
                  (parse_events (split_on 10 example_recording))
  = Some [Block command (js "$ ls\n"); Block output (js "file.txt\n\n")]
  /\ timeline (runtime := example_runtime)
              (parse_events (split_on 10 example_recording))
     = Some [(Sec 0, 2%nat); (Sec 2, 1%nat)].
Proof. vm_compute. split; reflexivity. Qed.

Lemma timeline_rows_witness :
  Forall (fun e => second_of (runtime := example_runtime) e <> Some SecNaN)
         (parse_events (split_on 10 example_recording))
  /\ timeline (runtime := example_runtime)
              (parse_events (split_on 10 example_recording))
     = Some [(Sec 0, 2%nat); (Sec 2, 1%nat)]
  /\ StronglySorted (fun a b => second_compare a b = Lt)
                    (map fst [(Sec 0, 2%nat); (Sec 2, 1%nat)]).
Proof.
  assert (Hb : forallb (fun e => negb (bool_decide
                          (second_of (runtime := example_runtime) e = Some SecNaN)))
                       (parse_events (split_on 10 example_recording)) = true)
    by (vm_compute; reflexivity).
  assert (Hnum : Forall (fun e => second_of (runtime := example_runtime) e
                                  <> Some SecNaN)
                        (parse_events (split_on 10 example_recording))).
  { apply Forall_forall. intros e He. rewrite forallb_forall in Hb.
    apply list_elem_of_In in He. specialize (Hb e He).
    now apply negb_true_iff, bool_decide_eq_false in Hb. }
  assert (Ht : timeline (runtime := example_runtime)
                        (parse_events (split_on 10 example_recording))
               = Some [(Sec 0, 2%nat); (Sec 2, 1%nat)])
    by (vm_compute; reflexivity).
  split; [exact Hnum|]. split; [exact Ht|].
  pose proof (timeline_rows (runtime := example_runtime)
                (parse_events (split_on 10 example_recording))) as Hrows.
  rewrite Ht in Hrows. apply Hrows. exact Hnum.
Defined.

Lemma StronglySorted_related {A} (R : A -> A -> Prop) l x y :
  StronglySorted R l -> x ∈ l -> y ∈ l -> x <> y -> R x y \/ R y x.
Proof.
  induction 1 as [|a l Hs IH Hall]; intros Hx Hy Hne; [inversion Hx|].
  rewrite Forall_forall in Hall.
  apply elem_of_cons in Hx as [->|Hx], Hy as [->|Hy].
  - congruence.
  - left. now apply Hall.
  - right. now apply Hall.
  - auto.
Qed.

(** C7 (as stated) fails: an event line that decodes to a value
    without a first element, [{}] here, is a parsed event whose floored
    time is [NaN]; it is counted under that key, and the rows are then
    in no ascending order: with the sort of the examples they read
    [5.0], [NaN], [-1.0], and whatever the sort does with them, a row
    [NaN] is among them and stands in no order to the others. *)
Lemma event_without_time_breaks_order :
  timeline (runtime := example_runtime)
    (parse_events
       (split_on 10 (js "{}\n[5,\x22o\x22,\x22a\x22]\n{}\n[-1,\x22o\x22,\x22b\x22]")))
  = Some [(Sec 5, 1%nat); (SecNaN, 1%nat); (Sec (-1), 1%nat)]
  /\ map (render_row (runtime := example_runtime))
         [(Sec 5, 1%nat); (SecNaN, 1%nat); (Sec (-1), 1%nat)]
     = [js "| 5.0 | 1 |\n"; js "| NaN | 1 |\n"; js "| -1.0 | 1 |\n"]
  /\ forall (runtime : Runtime) rows,
       timeline (runtime := runtime)
         (parse_events
            (split_on 10 (js "{}\n[5,\x22o\x22,\x22a\x22]\n{}\n[-1,\x22o\x22,\x22b\x22]")))
       = Some rows ->
       SecNaN ∈ map fst rows
       /\ ~ StronglySorted (fun a b => second_compare a b = Lt) (map fst rows).
Proof.
  split; [vm_compute; reflexivity|]. split; [vm_compute; reflexivity|].
  intros runtime rows Ht.
  assert (Ho : eventsBySecond (runtime := runtime)
                 (parse_events
                    (split_on 10 (js "{}\n[5,\x22o\x22,\x22a\x22]\n{}\n[-1,\x22o\x22,\x22b\x22]")))
               = Some [(Sec 5, 1%nat); (SecNaN, 1%nat); (Sec (-1), 1%nat)])
    by (vm_compute; reflexivity).
  unfold timeline in Ht. rewrite Ho in Ht. injection Ht as <-.
  rewrite map_map. cbn [fst]. rewrite map_id.
  assert (Hin : forall s, s ∈ [Sec 5; SecNaN; Sec (-1)] ->
                          s ∈ timeSlots [(Sec 5, 1%nat); (SecNaN, 1%nat); (Sec (-1), 1%nat)]).
  { intros s Hs. now rewrite timeSlots_perm. }
  assert (Hnan : SecNaN ∈ timeSlots [(Sec 5, 1%nat); (SecNaN, 1%nat); (Sec (-1), 1%nat)])
    by (apply Hin; right; left).
  split; [exact Hnan|]. intros Hs.
  destruct (StronglySorted_related _ _ SecNaN (Sec 5) Hs Hnan) as [H|H];
    [apply Hin; left | discriminate | discriminate | discriminate].
Qed.

Lemma POST_omits_and_counts_witness :
  POST (runtime := example_runtime) example_fs
       (Some [js "a.cast"; js "notes.txt"; js "missing.cast"])
  = Json [Entry (js "a.cast") diag_header] (Some 1%nat) None
  /\ (js "notes.txt" ∉ map fileName [Entry (js "a.cast") diag_header])
  /\ (js "missing.cast" ∉ map fileName [Entry (js "a.cast") diag_header]).
Proof.
  assert (HP : POST (runtime := example_runtime) example_fs
                 (Some [js "a.cast"; js "notes.txt"; js "missing.cast"])
               = Json [Entry (js "a.cast") diag_header] (Some 1%nat) None)
    by (vm_compute; reflexivity).
  split; [exact HP|].
  destruct (POST_omits_and_counts (runtime := example_runtime) _ _ _ _ _ HP)
    as (Hcast & Hmissing & _).
  split; [apply Hcast | apply Hmissing]; vm_compute; reflexivity.
Defined.

(** C5 (as stated) fails: a prompt with a capitalized user name matches
    the capitalized-word-then-colon pattern, has neither [$] nor [#],
    is not the image-version line, and is classified as a command by
    the user-and-host rule. *)
Lemma capitalized_user_prompt_is_command :
  test re_capital_colon (trim (js "Admin@server:~ ls")) = true
  /\ includes (trim (js "Admin@server:~ ls")) (js "$") = false
  /\ includes (trim (js "Admin@server:~ ls")) (js "#") = false
  /\ includes (trim (js "Admin@server:~ ls")) (js "cilium image") = false
  /\ isCommandLine (js "Admin@server:~ ls") = true.
Proof. vm_compute. repeat split. Qed.

Lemma capital_colon_line_not_command_witness :
  isCommandLine (js "Note: image pulled") = false.
Proof.
  apply capital_colon_line_not_command; vm_compute; reflexivity.
Defined.

(** C4 at the failing input: the line of the scenario splits into three
    parts, the collapsing rule asks for more than three, and the line
    reaches the cleaned text as it is.  The example in the comment of
    the source (with a leading space) fares the same. *)
Theorem three_repetitions_not_collapsed :
  split re_spaces2 (js "Preparing nodes   Preparing nodes   Preparing nodes ")
  = [js "Preparing nodes"; js "Preparing nodes"; js "Preparing nodes "]
  /\ collapse_line [] (js "Preparing nodes   Preparing nodes   Preparing nodes ")
     = [js "Preparing nodes   Preparing nodes   Preparing nodes "]
  /\ collapse_line [] (js " Preparing nodes   Preparing nodes   Preparing nodes ")
     = [js " Preparing nodes   Preparing nodes   Preparing nodes "]
  /\ stripAnsiCodes (js "Preparing nodes   Preparing nodes   Preparing nodes \r\n")
     = js "Preparing nodes   Preparing nodes   Preparing nodes \n".
Proof. vm_compute. repeat split. Qed.

(** With one more repetition the rule applies. *)
Lemma four_repetitions_collapsed :
  stripAnsiCodes
    (js "Preparing nodes   Preparing nodes   Preparing nodes   Preparing nodes\r\n")
  = js "Preparing nodes\n".
Proof. vm_compute. reflexivity. Qed.

(** C8 (as stated) fails: the first run drops the marker line between
    two equal lines, and the second run then drops the duplicate that
    the first run had no reason to drop. *)
Lemma strip_twice_differs :
  stripAnsiCodes (js "kubectl get pods\n[GLOBAL]\nkubectl get pods")
  = js "kubectl get pods\nkubectl get pods"
  /\ stripAnsiCodes (stripAnsiCodes (js "kubectl get pods\n[GLOBAL]\nkubectl get pods"))
     = js "kubectl get pods"
  /\ stripAnsiCodes (stripAnsiCodes (js "kubectl get pods\n[GLOBAL]\nkubectl get pods"))
     <> stripAnsiCodes (js "kubectl get pods\n[GLOBAL]\nkubectl get pods").
Proof. vm_compute. repeat split; discriminate. Qed.

(** A control character inside a sequence has the same effect: it
    hides the sequence from the first run and is gone for the second. *)
Lemma strip_twice_differs_control :
  stripAnsiCodes (js "[\x00?25h") = js "[?25h"
  /\ stripAnsiCodes (stripAnsiCodes (js "[\x00?25h")) = js "".
Proof. vm_compute. split; reflexivity. Qed.

(** So has a prompt inside a prompt line: the first run keeps what
    follows the outer prompt, the second run strips the inner one. *)
Lemma strip_twice_differs_prompt :
  stripAnsiCodes (js "%  ➜  d  %  ➜  d x") = js "%  ➜  d x"
  /\ stripAnsiCodes (stripAnsiCodes (js "%  ➜  d  %  ➜  d x")) = js "x".
Proof. vm_compute. split; reflexivity. Qed.

(** * Further properties *)

Section ConversionFurther.

Context {runtime : Runtime}.

(** ** The shape of the converted document *)

Lemma fold_left_append {A} (g : A -> jsstring) (l : list A) (init : jsstring) :
  fold_left (fun acc x => acc ++ g x) l init = init ++ concat (map g l).
Proof.
  revert init. induction l as [|x l IH]; intros init; simpl.
  - now rewrite app_nil_r.
  - now rewrite IH, app_assoc.
Qed.

Lemma frame_intro (title tail A B M : jsstring) :
  A ++ B = tail ->
  (exists T, M = title ++ T) ->
  exists body, (M ++ A) ++ B = title ++ body ++ tail.
Proof.
  intros <- [T ->]. exists T. now rewrite <- !app_assoc.
Qed.

#[local] Opaque js.

Lemma env_rows_extend (l : list (jsstring * json)) (init : option jsstring) r :
  fold_left (fun markdown kv =>
               markdown ← markdown;
               value ← ToString (Some (snd kv));
               Some (markdown ++ js "  - " ++ fst kv ++ js ": "
                     ++ value ++ js "\n")) l init = Some r ->
  exists i t, init = Some i /\ r = i ++ t.
Proof.
  revert init. induction l as [|kv l IH]; intros init; cbn [fold_left].
  - intros ->. exists r, []. now rewrite app_nil_r.
  - intros Hf. apply IH in Hf as (i & t & Hi & ->). revert Hi.
    destruct init as [i0|]; cbn [mbind option_bind]; [|intros Hi; inversion Hi].
    destruct (ToString _) as [value|]; cbn [mbind option_bind];
      [|intros Hi; inversion Hi].
    intros [= <-]. exists i0. eexists. split; [reflexivity|].
    rewrite <- !app_assoc. reflexivity.
Qed.

(** The document built for a header other than [null] opens with the
    title line and closes with the rule and the attribution. *)
Lemma build_markdown_frame header events file markdown :
  build_markdown header events file = Some markdown ->
  exists body,
    markdown
    = js "# Terminal Recording: " ++ body
      ++ js "\n---\n\n*Generated from asciinema cast file*\n".
Proof.
  unfold build_markdown.
  destruct (ToString (if truthy _ then _ else _)) as [title|];
    cbn [mbind option_bind]; [|intros Hb; inversion Hb].
  destruct (ToString (get_prop header (js "version"))) as [version|];
    cbn [mbind option_bind]; [|intros Hb; inversion Hb].
  destruct (ToString (get_prop header (js "width"))) as [width|];
    cbn [mbind option_bind]; [|intros Hb; inversion Hb].
  destruct (ToString (get_prop header (js "height"))) as [height|];
    cbn [mbind option_bind]; [|intros Hb; inversion Hb].
  cbv zeta.
  match goal with
  | |- mbind _ ?X = _ -> _ => destruct X as [m1|] eqn:H1
  end; cbn [mbind option_bind]; [|intros Hb; inversion Hb].
  assert (Hm1 : exists T, m1 = js "# Terminal Recording: " ++ T).
  { destruct (truthy (get_prop header (js "timestamp"))).
    - destruct (ToNumber _); cbn [mbind option_bind] in H1; [|inversion H1].
      injection H1 as <-. rewrite <- !app_assoc. eexists; reflexivity.
    - injection H1 as <-. rewrite <- !app_assoc. eexists; reflexivity. }
  clear H1.
  match goal with
  | |- mbind _ ?X = _ -> _ => destruct X as [m2|] eqn:H2
  end; cbn [mbind option_bind]; [|intros Hb; inversion Hb].
  assert (Hm2 : exists T, m2 = js "# Terminal Recording: " ++ T).
  { destruct Hm1 as [T ->]. destruct (truthy (get_prop header (js "env"))).
    - apply env_rows_extend in H2 as (i & t & [= <-] & ->).
      rewrite <- !app_assoc. eexists; reflexivity.
    - injection H2 as <-. eexists; reflexivity. }
  clear H2 Hm1.
  destruct (aggregate events) as [terminalOutput|];
    cbn [mbind option_bind]; [|intros Hb; inversion Hb].
  destruct (timeline events) as [rows|];
    cbn [mbind option_bind]; [|intros Hb; inversion Hb].
  intros Hb. apply (inj Some) in Hb. rewrite <- Hb. clear Hb.
  rewrite !(fold_left_append render_block), !(fold_left_append render_row).
  apply frame_intro; [vm_compute; reflexivity|].
  destruct Hm2 as [T ->]. rewrite <- !app_assoc. eexists; reflexivity.
Qed.

#[local] Transparent js.

(** For every recording, whatever its header line: the conversion
    never answers with the diagnostic for an empty cast file. *)
Theorem convert_never_reports_empty (castContent fileName : jsstring) :
  convertCastToMarkdown castContent fileName <> diag_empty.
Proof.
  unfold convertCastToMarkdown.
  pose proof (split_on_nonempty 10 (trim castContent)) as Hne.
  destruct (split_on 10 (trim castContent)) as [|line0 more]; [congruence|].
  destruct (JSON_parse line0) as [header|]; [|vm_compute; discriminate].
  assert (Hdoc : forall h,
             default diag_error
                     (build_markdown h (parse_events (line0 :: more)) fileName)
             <> diag_empty).
  { intros h.
    destruct (build_markdown h (parse_events (line0 :: more)) fileName)
      as [markdown|] eqn:Hb; [|vm_compute; discriminate].
    destruct (build_markdown_frame _ _ _ _ Hb) as [body ->].
    intros Heq. apply (f_equal (fun s => List.hd 0 s)) in Heq.
    vm_compute in Heq. discriminate. }
  destruct header; try apply Hdoc. vm_compute. discriminate.
Qed.

(** ** Values whose conversions cannot throw *)

Lemma json_to_string_plain :
  forall v, has_toString v = false -> is_Some (json_to_string v).
Proof.
  fix IH 1. intros [|[]|q|[]|s|l|m]; cbn [has_toString json_to_string];
    intros Hp; try (eexists; reflexivity).
  - assert (Hl : is_Some
             ((fix elements (l : list json) : option (list jsstring) :=
                 match l with
                 | [] => Some []
                 | x :: more =>
                   match match x with JNull => Some [] | _ => json_to_string x end,
                         elements more with
                   | Some s, Some ss => Some (s :: ss)
                   | _, _ => None
                   end
                 end) l)).
    { induction l as [|x l IHl]; [eexists; reflexivity|]. cbn [existsb] in Hp.
      apply orb_false_elim in Hp as [Hx Hl]. destruct (IHl Hl) as [ss ->].
      destruct (IH x Hx) as [sx Hsx]. clear IH.
      destruct x; rewrite ?Hsx; eexists; reflexivity. }
    clear IH. destruct Hl as [ss ->]. eexists; reflexivity.
  - clear IH. apply orb_false_elim in Hp as [-> _]. eexists; reflexivity.
Qed.

Lemma ToString_plain v : plain v = true -> is_Some (ToString v).
Proof.
  destruct v as [x|]; [|eauto]. cbn [plain ToString]. intros Hp.
  apply json_to_string_plain. now apply negb_true_iff.
Qed.

Lemma ToNumber_plain v : plain v = true -> is_Some (ToNumber v).
Proof.
  destruct v as [x|]; [|eauto]. cbn [plain]. intros Hp. apply negb_true_iff in Hp.
  destruct x as [|b|q|n|s|l|m]; cbn [ToNumber]; eauto.
  - destruct (json_to_string_plain (JArr l) Hp) as [s ->]. eauto.
  - cbn [has_toString] in Hp. apply orb_false_elim in Hp as [-> _]. eauto.
Qed.

Lemma member_plain (m : list (jsstring * json)) k x :
  has_toString (JObj m) = false -> (k, x) ∈ m -> has_toString x = false.
Proof.
  cbn [has_toString]. intros Hp Hin. apply orb_false_elim in Hp as [_ Hp].
  apply not_true_iff_false. intros Hx. apply not_true_iff_false in Hp. apply Hp.
  apply existsb_exists. exists (k, x). split; [now apply list_elem_of_In | exact Hx].
Qed.

Lemma find_member {A} (f : jsstring * A -> bool) (m : list (jsstring * A)) kv :
  List.find f m = Some kv -> kv ∈ m.
Proof. intros Hf. apply List.find_some in Hf as [Hin _]. now apply list_elem_of_In. Qed.

Lemma get_prop_plain v name :
  has_toString v = false -> plain (get_prop v name) = true.
Proof.
  intros Hp. destruct v; try reflexivity. cbn [get_prop].
  destruct (List.find _ m) as [[k x]|] eqn:Hf; [|reflexivity]. cbn [fmap option_fmap option_map snd plain].
  apply negb_true_iff. apply find_member in Hf. eapply member_plain; eauto.
Qed.

Lemma get_index_plain v i :
  has_toString v = false -> plain (get_index v i) = true.
Proof.
  intros Hp. destruct v; try reflexivity; cbn [get_index].
  - destruct (s !! i); reflexivity.
  - destruct (l !! i) as [x|] eqn:Hx; [|reflexivity]. cbn [plain].
    apply negb_true_iff. cbn [has_toString] in Hp.
    apply not_true_iff_false. intros Hx'. apply not_true_iff_false in Hp. apply Hp.
    apply existsb_exists. exists x. split; [|exact Hx'].
    apply list_elem_of_In. eapply list_elem_of_lookup_2; eauto.
  - destruct (List.find _ m) as [[k x]|] eqn:Hf; [|reflexivity].
    cbn [fmap option_fmap option_map snd plain].
    apply negb_true_iff. apply find_member in Hf. eapply member_plain; eauto.
Qed.

Lemma Object_entries_plain v kv :
  has_toString v = false -> kv ∈ Object_entries v -> has_toString (snd kv) = false.
Proof.
  intros Hp Hin. destruct v; cbn [Object_entries] in Hin; try (now inversion Hin).
  - apply elem_of_lookup_imap in Hin as (i & c & -> & _). reflexivity.
  - apply elem_of_lookup_imap in Hin as (i & x & -> & Hx). cbn [snd].
    cbn [has_toString] in Hp.
    apply not_true_iff_false. intros Hx'. apply not_true_iff_false in Hp. apply Hp.
    apply existsb_exists. exists x. split; [|exact Hx'].
    apply list_elem_of_In. eapply list_elem_of_lookup_2; eauto.
  - apply elem_of_app in Hin as [Hin|Hin].
    + apply list_elem_of_fmap in Hin as ([i x] & -> & Hin). cbn [snd].
      rewrite merge_sort_Permutation in Hin.
      apply list_elem_of_omap in Hin as ([k y] & Hky & Hix). cbn [fst snd] in Hix.
      destruct (array_index k); [|discriminate]. injection Hix as _ <-.
      eapply member_plain; eauto.
    + apply list_elem_of_filter in Hin as [_ Hin]. destruct kv as [k x].
      eapply member_plain; eauto.
Qed.

Lemma env_rows_plain (l : list (jsstring * json)) init :
  Forall (fun kv => has_toString (snd kv) = false) l ->
  is_Some (fold_left (fun markdown kv =>
               markdown ← markdown;
               value ← ToString (Some (snd kv));
               Some (markdown ++ js "  - " ++ fst kv ++ js ": "
                     ++ value ++ js "\n")) l (Some init)).
Proof.
  intros Hl. revert init. induction Hl as [|kv l Hkv Hl IH]; intros init;
    cbn [fold_left]; [eauto|]. cbn [mbind option_bind].
  destruct (json_to_string_plain _ Hkv) as [value Hv].
  cbn [ToString]. unfold jsstring in *. rewrite Hv. cbn [mbind option_bind].
  apply IH.
Qed.

Lemma aggregate_plain events :
  Forall (fun e => plain (CastEvent.data e) = true) events ->
  is_Some (aggregate events).
Proof.
  intros Hall. unfold aggregate. rewrite aggregate_from.
  destruct (mapM _ _) as [texts|] eqn:Hm; [eauto|].
  apply mapM_None_1, Exists_exists in Hm as (e & He & Hnone).
  apply list_elem_of_In, filter_In in He as [He _]. apply list_elem_of_In in He.
  rewrite Forall_forall in Hall. destruct (ToString_plain _ (Hall e He)). congruence.
Qed.

Lemma timeline_plain events :
  Forall (fun e => plain (CastEvent.time e) = true) events ->
  is_Some (timeline events).
Proof.
  intros Hall. unfold timeline.
  pose proof (eventsBySecond_spec events) as Hspec.
  destruct (eventsBySecond events); [eauto|].
  destruct Hspec as (e & He & Hnone). rewrite Forall_forall in Hall.
  destruct (ToNumber_plain _ (Hall e He)) as [x Hx].
  unfold second_of, Math_floor in Hnone. rewrite Hx in Hnone. discriminate.
Qed.

Lemma build_markdown_plain header events file :
  has_toString header = false ->
  Forall (fun e => plain (CastEvent.time e) = true
                   /\ plain (CastEvent.data e) = true) events ->
  is_Some (build_markdown header events file).
Proof.
  intros Hh Hev. unfold build_markdown.
  assert (Htitle : is_Some (ToString
            (if truthy (get_prop header (js "title"))
             then get_prop header (js "title") else Some (JStr file)))).
  { apply ToString_plain. destruct (truthy _); [now apply get_prop_plain | reflexivity]. }
  destruct Htitle as [title ->]. cbn [mbind option_bind].
  destruct (ToString_plain _ (get_prop_plain header (js "version") Hh)) as [version ->].
  cbn [mbind option_bind].
  destruct (ToString_plain _ (get_prop_plain header (js "width") Hh)) as [width ->].
  cbn [mbind option_bind].
  destruct (ToString_plain _ (get_prop_plain header (js "height") Hh)) as [height ->].
  cbn [mbind option_bind]. cbv zeta.
  destruct (ToNumber_plain _ (get_prop_plain header (js "timestamp") Hh))
    as [seconds ->]. cbn [mbind option_bind].
  match goal with
  | |- is_Some (mbind _ ?X) =>
    assert (H1 : exists m1, X = Some m1) by (destruct (truthy _); eauto)
  end.
  destruct H1 as [m1 ->]. cbn [mbind option_bind].
  match goal with
  | |- is_Some (mbind _ ?X) => assert (H2 : is_Some X)
  end.
  { destruct (truthy (get_prop header (js "env"))) eqn:Henv; [|eauto].
    apply env_rows_plain, Forall_forall. intros kv Hkv.
    apply (Object_entries_plain (default JNull (get_prop header (js "env")))); [|exact Hkv].
    pose proof (get_prop_plain header (js "env") Hh) as Hp.
    destruct (get_prop header (js "env")); [now apply negb_true_iff | reflexivity]. }
  destruct H2 as [m2 ->]. cbn [mbind option_bind].
  destruct (aggregate_plain events) as [out ->].
  { eapply Forall_impl; [exact Hev|]. now intros e [_ He]. }
  cbn [mbind option_bind].
  destruct (timeline_plain events) as [rows ->].
  { eapply Forall_impl; [exact Hev|]. now intros e [He _]. }
  cbn [mbind option_bind]. eauto.
Qed.


Lemma parse_events_plain lines :
  forallb (fun line => plain (JSON_parse line)) lines = true ->
  Forall (fun e => plain (CastEvent.time e) = true
                   /\ plain (CastEvent.data e) = true) (parse_events lines).
Proof.
  intros Hl. unfold parse_events. rewrite parse_events_from. cbn [app].
  apply Forall_forall. intros e He.
  apply list_elem_of_omap in He as (line & Hline & Hd).
  assert (Hp : plain (JSON_parse line) = true).
  { rewrite forallb_forall in Hl. apply Hl, list_elem_of_In.
    destruct lines; [inversion Hline | now right]. }
  unfold decode_line in Hd. destruct (nonempty (trim line)); [|discriminate].
  destruct (JSON_parse line) as [v|]; [|discriminate].
  cbn [plain] in Hp. apply negb_true_iff in Hp.
  assert (He : e = CastEvent.Make (get_index v 0) (get_index v 1) (get_index v 2))
    by (destruct v; congruence).
  subst e. cbn [CastEvent.time CastEvent.data]. split; now apply get_index_plain.
Qed.

(** ** The outcome for each kind of header *)

(** A header line that does not parse gives the header diagnostic and
    nothing else: no title, no section. *)
Theorem invalid_header_gets_diagnostic (castContent fileName : jsstring) :
  JSON_parse (header_line castContent) = None ->
  convertCastToMarkdown castContent fileName = diag_header
  /\ includes (convertCastToMarkdown castContent fileName) (js "#") = false.
Proof.
  intros Hbad. rewrite (convert_invalid_header _ _ Hbad).
  split; [reflexivity | vm_compute; reflexivity].
Qed.

(** A header line that is the JSON [null] parses, and the read of its
    title then fails: the conversion answers with the diagnostic of
    its outer handler. *)
Theorem null_header_gets_error_diagnostic (castContent fileName : jsstring) :
  JSON_parse (header_line castContent) = Some JNull ->
  convertCastToMarkdown castContent fileName = diag_error.
Proof.
  unfold header_line, convertCastToMarkdown. intros Hnull.
  destruct (split_on 10 (trim castContent)) as [|line0 more]; [discriminate|].
  simpl in Hnull. now rewrite Hnull.
Qed.

(** Any other header, object or not, gets either the diagnostic of
    the outer handler or a full document, the title line first, the
    rule and the attribution last; and it gets the document when no
    line of the file decodes to a value that holds, at any depth, an
    object with a member named [toString]: no conversion can then
    throw. *)
Theorem parsed_header_gets_document (castContent fileName : jsstring) (header : json) :
  JSON_parse (header_line castContent) = Some header ->
  header <> JNull ->
  (convertCastToMarkdown castContent fileName = diag_error
   \/ exists body,
        convertCastToMarkdown castContent fileName
        = js "# Terminal Recording: " ++ body
          ++ js "\n---\n\n*Generated from asciinema cast file*\n")
  /\ (forallb (fun line => plain (JSON_parse line))
              (split_on 10 (trim castContent)) = true ->
      exists body,
        convertCastToMarkdown castContent fileName
        = js "# Terminal Recording: " ++ body
          ++ js "\n---\n\n*Generated from asciinema cast file*\n").
Proof.
  unfold header_line, convertCastToMarkdown. intros Hh Hnn.
  destruct (split_on 10 (trim castContent)) as [|line0 more]; [discriminate|].
  simpl in Hh. rewrite Hh.
  assert (Hconv : match header with
                  | JNull => diag_error
                  | _ => default diag_error
                           (build_markdown header (parse_events (line0 :: more))
                                           fileName)
                  end
                  = default diag_error
                      (build_markdown header (parse_events (line0 :: more)) fileName))
    by (destruct header; congruence).
  cbv zeta. rewrite Hconv. clear Hconv. split.
  - destruct (build_markdown _ _ _) as [markdown|] eqn:Hb; [right | now left].
    apply (build_markdown_frame _ _ _ _ Hb).
  - intros Hplain.
    destruct (build_markdown_plain header (parse_events (line0 :: more)) fileName)
      as [markdown Hb].
    + cbn [forallb] in Hplain. apply andb_true_iff in Hplain as [Hp _].
      rewrite Hh in Hp. now apply negb_true_iff in Hp.
    + now apply parse_events_plain.
    + rewrite Hb. apply (build_markdown_frame _ _ _ _ Hb).
Qed.

End ConversionFurther.

(** ** Lines that yield no event *)

(** A line that is blank, does not parse or is the JSON [null] can be
    put anywhere after the header without changing the events. *)
Theorem undecodable_line_changes_no_event
  (header bad : jsstring) (before after : list jsstring) :
  nonempty (trim bad) = false \/ JSON_parse bad = None
  \/ JSON_parse bad = Some JNull ->
  parse_events (header :: before ++ bad :: after)
  = parse_events (header :: before ++ after).
Proof.
  intros Hbad. unfold parse_events. rewrite !parse_events_from. simpl.
  rewrite !omap_app. simpl.
  assert (Hd : decode_line bad = None).
  { unfold decode_line. destruct Hbad as [-> | [-> | ->]]; [reflexivity| |];
      now destruct (nonempty (trim bad)). }
  now rewrite Hd.
Qed.

(** ** The two endpoints over the [.cast] files *)

Section EndpointsFurther.

Context {runtime : Runtime}.

Lemma convert_files_failed fs castFiles :
  fold_left (convert_file fs) castFiles None = None.
Proof. induction castFiles as [|f fl IH]; simpl; auto. Qed.

Lemma convert_files_total fs castFiles acc :
  (forall file, file ∈ castFiles -> logging fs file <> Some Directory) ->
  fold_left (convert_file fs) castFiles (Some acc)
  = Some (acc ++ omap (entry_of fs) castFiles).
Proof.
  revert acc. induction castFiles as [|f fl IH]; intros acc Hok.
  - simpl. now rewrite app_nil_r.
  - assert (Hf : logging fs f <> Some Directory) by (apply Hok; left).
    assert (Hfl : forall file, file ∈ fl -> logging fs file <> Some Directory)
      by (intros file Hin; apply Hok; now right).
    change (omap (entry_of fs) (f :: fl))
      with (match entry_of fs f with
            | Some e => e :: omap (entry_of fs) fl
            | None => omap (entry_of fs) fl
            end).
    cbn [fold_left convert_file]. unfold entry_of at 1.
    destruct (logging fs f) as [[content|]|].
    + rewrite IH by exact Hfl. now rewrite <- app_assoc.
    + congruence.
    + now apply IH.
Qed.

Lemma convert_files_directory fs castFiles acc file :
  file ∈ castFiles -> logging fs file = Some Directory ->
  fold_left (convert_file fs) castFiles (Some acc) = None.
Proof.
  revert acc. induction castFiles as [|f fl IH]; intros acc Hin Hdir;
    [inversion Hin|]. simpl.
  apply elem_of_cons in Hin as [<- | Hin].
  - rewrite Hdir. apply convert_files_failed.
  - destruct (logging fs f) as [[content|]|]; eauto using convert_files_failed.
Qed.

(** When the directory exists and no listed [.cast] name leads to a
    directory, the answer holds, in the order of the request and once
    for each time a name is listed, the conversions of the [.cast]
    names that have a file, and counts them. *)
Theorem POST_converts_in_request_order (fs : filesystem) (files : list jsstring) :
  logging_exists fs = true ->
  files <> [] ->
  (forall file, file ∈ files -> endsWith file (js ".cast") = true ->
                logging fs file <> Some Directory) ->
  POST fs (Some files)
  = Json (omap (entry_of fs)
               (filter (fun file => endsWith file (js ".cast") = true) files))
         (Some (length (omap (entry_of fs)
                  (filter (fun file => endsWith file (js ".cast") = true) files))))
         None.
Proof.
  intros Hex Hne Hok. unfold POST. rewrite Hex. simpl.
  destruct files as [|f fl]; [congruence|].
  rewrite convert_files_total; [reflexivity|].
  intros file Hin. apply list_elem_of_filter in Hin as [Hc Hin]. auto.
Qed.

(** On a request that lists names, one [.cast] name that leads to a
    directory fails the whole request, whatever the other names lead
    to, and nothing else does. *)
Lemma POST_listed_fails_iff_directory (fs : filesystem) (files : list jsstring) :
  logging_exists fs = true ->
  (POST fs (Some files) = ServerError
   <-> exists file, file ∈ files /\ endsWith file (js ".cast") = true
                    /\ logging fs file = Some Directory).
Proof.
  intros Hex. split.
  - intros HP. apply POST_fails_only_on_directory in HP. exact HP.
  - intros (file & Hin & Hc & Hdir). unfold POST. rewrite Hex. simpl.
    destruct files as [|f fl]; [inversion Hin|].
    rewrite (convert_files_directory fs _ [] file); auto.
    apply list_elem_of_filter. auto.
Qed.

(** *** The handler on any request *)

Lemma mapM_string_of names : mapM string_of (JStr <$> names) = Some names.
Proof.
  apply mapM_Some_2. induction names as [|n names IH]; constructor; auto.
Qed.

Lemma mapM_string_of_inv l names :
  mapM string_of l = Some names -> l = JStr <$> names.
Proof.
  intros Hm. apply mapM_Some_1 in Hm.
  induction Hm as [|x n l names Hx Hl IH]; [reflexivity|].
  destruct x; try discriminate. injection Hx as ->. cbn [fmap list_fmap].
  now rewrite IH.
Qed.

Lemma cast_names_inv files castFiles :
  cast_names files = Some castFiles ->
  exists names, files = Some (JArr (JStr <$> names)).
Proof.
  destruct files as [[]|]; try discriminate. cbn [cast_names].
  destruct (mapM string_of l) as [names|] eqn:Hm; [|discriminate].
  intros _. exists names. now rewrite (mapM_string_of_inv _ _ Hm).
Qed.

Lemma cast_names_listed names :
  cast_names (Some (JArr (JStr <$> names)))
  = Some (filter (fun file => endsWith file (js ".cast") = true) names).
Proof. cbn [cast_names]. now rewrite mapM_string_of. Qed.

(** On a body that lists names the handler is [POST] at these names,
    and on a body without [files] it is [POST] without a list. *)
Lemma POST_request_listed fs body names :
  body <> JNull ->
  get_prop body (js "files") = Some (JArr (JStr <$> names)) ->
  POST_request fs (Some body) = POST fs (Some names).
Proof.
  intros Hnn Hfiles.
  assert (Hr : POST_request fs (Some body)
               = if negb (logging_exists fs) then
                   Json [] None (Some (js "No logging directory found"))
                 else if negb (truthy (get_prop body (js "files")))
                         || length_is_zero (get_prop body (js "files")) then
                   Json [] None (Some (js "No files selected"))
                 else
                   match cast_names (get_prop body (js "files")) with
                   | None => ServerError
                   | Some castFiles =>
                     match fold_left (convert_file fs) castFiles (Some []) with
                     | Some markdownData =>
                       Json markdownData (Some (length markdownData)) None
                     | None => ServerError
                     end
                   end)
    by (destruct body; try congruence; reflexivity).
  rewrite Hr, Hfiles, cast_names_listed. unfold POST.
  destruct (logging_exists fs); [|reflexivity]. cbn [negb truthy length_is_zero].
  rewrite length_fmap. destruct names; reflexivity.
Qed.

Lemma POST_request_body fs names :
  POST_request fs (Some (request_body names)) = POST fs (Some names).
Proof.
  apply POST_request_listed; [discriminate|].
  unfold request_body, get_prop, str_eqb. cbn [List.find fst].
  now rewrite bool_decide_eq_true_2.
Qed.

Lemma POST_request_unlisted fs body :
  body <> JNull -> get_prop body (js "files") = None ->
  POST_request fs (Some body) = POST fs None.
Proof.
  intros Hnn Hfiles. unfold POST.
  destruct body; try congruence; cbn [POST_request]; rewrite ?Hfiles;
    destruct (logging_exists fs); reflexivity.
Qed.

(** The handler answers with the error exactly when the body is not
    JSON, or is [null], or, with the directory in place and a [files]
    that passes for a selection, when [files] is not an array of
    strings or lists a [.cast] name that leads to a directory.  So a
    selection that is a string, or holds a number, fails the request
    as a directory does. *)
Theorem POST_request_fails_iff (fs : filesystem) (body : option json) :
  POST_request fs body = ServerError
  <-> body = None \/ body = Some JNull
      \/ exists b,
           body = Some b /\ b <> JNull /\ logging_exists fs = true
           /\ truthy (get_prop b (js "files")) = true
           /\ length_is_zero (get_prop b (js "files")) = false
           /\ ((forall names,
                  get_prop b (js "files") <> Some (JArr (JStr <$> names)))
               \/ exists names file,
                    get_prop b (js "files") = Some (JArr (JStr <$> names))
                    /\ file ∈ names /\ endsWith file (js ".cast") = true
                    /\ logging fs file = Some Directory).
Proof.
  destruct body as [b|]; [|split; auto].
  assert (Hr : b <> JNull ->
               POST_request fs (Some b)
               = if negb (logging_exists fs) then
                   Json [] None (Some (js "No logging directory found"))
                 else if negb (truthy (get_prop b (js "files")))
                         || length_is_zero (get_prop b (js "files")) then
                   Json [] None (Some (js "No files selected"))
                 else
                   match cast_names (get_prop b (js "files")) with
                   | None => ServerError
                   | Some castFiles =>
                     match fold_left (convert_file fs) castFiles (Some []) with
                     | Some markdownData =>
                       Json markdownData (Some (length markdownData)) None
                     | None => ServerError
                     end
                   end)
    by (destruct b; try congruence; reflexivity).
  assert (Hnull : b = JNull \/ b <> JNull)
    by (destruct b; auto; right; discriminate).
  destruct Hnull as [->|Hnn]; [split; auto|]. rewrite (Hr Hnn). clear Hr.
  split.
  - intros HP. right. right. exists b. split; [reflexivity|]. split; [exact Hnn|].
    destruct (logging_exists fs) eqn:Hex; [|discriminate]. cbn [negb] in HP.
    destruct (truthy _) eqn:Ht; [|discriminate]. cbn [negb orb] in HP.
    destruct (length_is_zero _) eqn:Hz; [discriminate|].
    repeat (split; [reflexivity|]).
    destruct (cast_names _) as [castFiles|] eqn:Hc.
    + right. destruct (cast_names_inv _ _ Hc) as [names Hfiles]. exists names.
      rewrite Hfiles, cast_names_listed in Hc. injection Hc as <-.
      destruct (fold_left _ _ _) as [md|] eqn:Hf; [discriminate|].
      assert (Hlisted : POST fs (Some names) = ServerError).
      { unfold POST. rewrite Hex. cbn [negb].
        rewrite Hfiles in Hz. cbn [length_is_zero] in Hz. rewrite length_fmap in Hz.
        destruct names; [discriminate|]. cbv zeta. now rewrite Hf. }
      apply POST_fails_only_on_directory in Hlisted as (file & Hin & Hcast & Hdir).
      exists file. auto.
    + left. intros names Hfiles. rewrite Hfiles, cast_names_listed in Hc. discriminate.
  - intros [Hb | [Hb | (b' & [= <-] & _ & Hex & Ht & Hz & Hfiles)]];
      [discriminate | congruence |].
    rewrite Hex, Ht, Hz. cbn [negb orb].
    destruct Hfiles as [Hnot | (names & file & Hfiles & Hin & Hcast & Hdir)].
    + destruct (cast_names _) as [castFiles|] eqn:Hc; [|reflexivity].
      destruct (cast_names_inv _ _ Hc) as [names Hfiles]. now destruct (Hnot names).
    + rewrite Hfiles, cast_names_listed.
      rewrite (convert_files_directory fs _ [] file); auto.
      apply list_elem_of_filter. auto.
Qed.

Lemma read_and_convert fs castFiles casts entries :
  entries = map (fun c => Entry (CastData.fileName c)
                            (convertCastToMarkdown (CastData.content c)
                                                   (CastData.fileName c))) casts ->
  fold_left (convert_file fs) castFiles (Some entries)
  = option_map
      (map (fun c => Entry (CastData.fileName c)
                       (convertCastToMarkdown (CastData.content c)
                                              (CastData.fileName c))))
      (fold_left (read_cast fs) castFiles (Some casts)).
Proof.
  revert casts entries. induction castFiles as [|f fl IH]; intros casts entries ->;
    [reflexivity|]. simpl.
  destruct (logging fs f) as [[content|]|].
  - apply IH. now rewrite map_app.
  - clear. induction fl as [|g gl IHg]; simpl; auto.
  - now apply IH.
Qed.

(** The markdown endpoint answers as the casts endpoint does, with
    each returned content replaced by its conversion: the same names
    in the same order, the same count and message, and an error
    exactly when the casts endpoint fails. *)
Theorem POST_is_POST_cast_converted (fs : filesystem) (files : option (list jsstring)) :
  POST fs files
  = match POST_cast fs files with
    | CastJson casts count message =>
      Json (map (fun c => Entry (CastData.fileName c)
                            (convertCastToMarkdown (CastData.content c)
                                                   (CastData.fileName c))) casts)
           count message
    | CastServerError => ServerError
    end.
Proof.
  unfold POST, POST_cast. destruct (logging_exists fs); simpl; [|reflexivity].
  destruct files as [[|f fl]|]; try reflexivity.
  rewrite (read_and_convert fs _ [] []) by reflexivity.
  destruct (fold_left (read_cast fs) _ _) as [casts|]; simpl; [|reflexivity].
  now rewrite length_map.
Qed.

(** ** The page *)

Lemma handleFileSelect_elem prev f g :
  g ∈ handleFileSelect prev f
  <-> (g = f /\ f ∉ prev) \/ (g <> f /\ g ∈ prev).
Proof.
  unfold handleFileSelect. destruct (existsb (str_eqb f) prev) eqn:Hin.
  - apply existsb_exists in Hin as (x & Hx & Heq).
    apply bool_decide_eq_true in Heq. subst x. apply list_elem_of_In in Hx.
    rewrite list_elem_of_In, filter_In, <- list_elem_of_In.
    unfold str_eqb. rewrite negb_true_iff, bool_decide_eq_false. tauto.
  - assert (Hnot : f ∉ prev).
    { intros Hf. apply not_true_iff_false in Hin. apply Hin, existsb_exists.
      exists f. split; [now apply list_elem_of_In | now apply bool_decide_eq_true]. }
    rewrite elem_of_app, list_elem_of_singleton.
    destruct (decide (g = f)) as [->|Hne]; tauto.
Qed.

Lemma handleFileSelect_NoDup prev f :
  NoDup prev -> NoDup (handleFileSelect prev f).
Proof.
  intros Hnd. unfold handleFileSelect. destruct (existsb (str_eqb f) prev) eqn:Hin.
  - apply NoDup_ListNoDup, List.NoDup_filter, NoDup_ListNoDup, Hnd.
  - apply NoDup_app. split; [exact Hnd|]. split; [|apply NoDup_singleton].
    intros x Hx Hxf. apply list_elem_of_singleton in Hxf. subst x.
    apply not_true_iff_false in Hin. apply Hin, existsb_exists.
    exists f. split; [now apply list_elem_of_In | now apply bool_decide_eq_true].
Qed.

(** A click on a file name flips whether the name is selected and
    leaves every other name as it was; and whatever names are clicked,
    in whatever order, starting from the empty selection, no name is
    ever selected twice. *)
Theorem handleFileSelect_toggles (prev clicks : list jsstring) (fileName0 : jsstring) :
  (fileName0 ∈ handleFileSelect prev fileName0 <-> fileName0 ∉ prev)
  /\ (forall other, other <> fileName0 ->
        (other ∈ handleFileSelect prev fileName0 <-> other ∈ prev))
  /\ NoDup (fold_left handleFileSelect clicks []).
Proof.
  split; [|split].
  - rewrite handleFileSelect_elem. tauto.
  - intros other Hne. rewrite handleFileSelect_elem. tauto.
  - assert (Hgen : forall sel, NoDup sel -> NoDup (fold_left handleFileSelect clicks sel)).
    { induction clicks as [|c cl IH]; intros sel Hsel; simpl; [exact Hsel|].
      apply IH, handleFileSelect_NoDup, Hsel. }
    apply Hgen, NoDup_nil_2.
Qed.

(** Selecting a name that was not selected and clicking it again gives
    the selection back as it was. *)
Theorem handleFileSelect_twice (prev : list jsstring) (fileName0 : jsstring) :
  fileName0 ∉ prev ->
  handleFileSelect (handleFileSelect prev fileName0) fileName0 = prev.
Proof.
  intros Hnot. unfold handleFileSelect at 2.
  assert (Hex : existsb (str_eqb fileName0) prev = false).
  { apply not_true_iff_false. intros Hin. apply existsb_exists in Hin as (x & Hx & Heq).
    apply bool_decide_eq_true in Heq. subst x. now apply Hnot, list_elem_of_In. }
  rewrite Hex. unfold handleFileSelect.
  assert (Hin : existsb (str_eqb fileName0) (prev ++ [fileName0]) = true).
  { rewrite existsb_app. simpl. unfold str_eqb at 2.
    rewrite bool_decide_eq_true_2 by reflexivity. now rewrite orb_true_r. }
  rewrite Hin, List.filter_app. simpl. unfold str_eqb at 2.
  rewrite bool_decide_eq_true_2 by reflexivity. simpl. rewrite app_nil_r.
  clear Hex Hin. induction prev as [|x l IH]; [reflexivity|]. simpl.
  assert (Hx : x <> fileName0) by (intros ->; apply Hnot; left).
  unfold str_eqb at 1. rewrite bool_decide_eq_false_2 by exact Hx. simpl.
  f_equal. apply IH. intros Hin. apply Hnot. now right.
Qed.

(** The conversion handler either succeeds, and then shows the
    markdown view, without error, with entries that are conversions of
    selected [.cast] names that have a file; or it sets an error and
    leaves the entries and the view as they were.  The selection is
    never touched. *)
Theorem handleConvertToMarkdown_outcome (fs : filesystem) (net : transport) (st : page) :
  selectedFiles (handleConvertToMarkdown fs net st) = selectedFiles st
  /\ ((error (handleConvertToMarkdown fs net st) = None
       /\ viewMode (handleConvertToMarkdown fs net st) = view_markdown
       /\ loading (handleConvertToMarkdown fs net st) = false
       /\ Forall (fun entry =>
            fileName entry ∈ selectedFiles st
            /\ endsWith (fileName entry) (js ".cast") = true
            /\ exists content,
                 logging fs (fileName entry) = Some (File content)
                 /\ markdown entry
                    = convertCastToMarkdown content (fileName entry))
            (markdowns (handleConvertToMarkdown fs net st)))
      \/ (error (handleConvertToMarkdown fs net st) <> None
          /\ markdowns (handleConvertToMarkdown fs net st) = markdowns st
          /\ viewMode (handleConvertToMarkdown fs net st) = viewMode st)).
Proof.
  unfold handleConvertToMarkdown.
  destruct (length (selectedFiles st) =? 0)%nat; [simpl; split; [|right]; auto|].
  destruct (length (List.filter _ (selectedFiles st)) =? 0)%nat eqn:Hlen;
    [simpl; split; [|right]; auto|].
  destruct net as [|message]; [|simpl; split; [|right]; auto].
  destruct (POST fs _) as [md count msg|] eqn:HP; simpl;
    [|split; [|right]; auto; repeat split; discriminate].
  split; [reflexivity|]. left. repeat split.
  unfold POST in HP. apply Forall_forall. intros entry Hin.
  assert (Hsel : forall f, f ∈ List.filter (fun f => endsWith f (js ".cast"))
                                  (selectedFiles st) ->
                           f ∈ selectedFiles st /\ endsWith f (js ".cast") = true).
  { intros f Hf. apply list_elem_of_In, filter_In in Hf as [Hf Hc].
    split; [now apply list_elem_of_In | exact Hc]. }
  destruct (logging_exists fs); simpl in HP;
    [|injection HP as <- _ _; inversion Hin].
  destruct (List.filter _ (selectedFiles st)) as [|f fl] eqn:Hcf;
    [injection HP as <- _ _; inversion Hin|].
  destruct (fold_left _ _ _) as [entries|] eqn:Hfold; [|discriminate].
  injection HP as <- _ _. apply convert_files_from in Hfold. simpl in Hfold.
  subst entries. apply list_elem_of_omap in Hin as (file & Hfile & Hentry).
  apply list_elem_of_filter in Hfile as [Hc Hfile]. apply Hsel in Hfile as [Hfile _].
  unfold entry_of in Hentry.
  destruct (logging fs file) as [[content|]|] eqn:Hl; try discriminate.
  injection Hentry as <-. simpl. eauto.
Qed.

(** With the request delivered, the directory in place, a [.cast]
    name selected and no directory among the selected [.cast] names,
    the page ends in the markdown view holding, in the order of the
    selection, the conversions of the selected [.cast] names that have
    a file. *)
Theorem handleConvertToMarkdown_shows_conversions (fs : filesystem) (st : page) :
  logging_exists fs = true ->
  List.filter (fun f => endsWith f (js ".cast")) (selectedFiles st) <> [] ->
  (forall file, file ∈ selectedFiles st -> endsWith file (js ".cast") = true ->
                logging fs file <> Some Directory) ->
  handleConvertToMarkdown fs Delivered st
  = Page (selectedFiles st)
         (omap (entry_of fs)
               (List.filter (fun f => endsWith f (js ".cast")) (selectedFiles st)))
         false None view_markdown.
Proof.
  intros Hex Hne Hok. unfold handleConvertToMarkdown.
  set (castFiles := List.filter (fun f => endsWith f (js ".cast")) (selectedFiles st)) in *.
  assert (Hsel : selectedFiles st <> []).
  { intros Hnil. apply Hne. unfold castFiles. now rewrite Hnil. }
  destruct (selectedFiles st) as [|s0 sl] eqn:Hs; [congruence|]. simpl length. simpl Nat.eqb.
  destruct castFiles as [|c0 cl] eqn:Hcf; [congruence|]. simpl length. simpl Nat.eqb.
  cbv iota. rewrite <- Hcf.
  assert (Hidem : filter (fun file => endsWith file (js ".cast") = true) castFiles
                  = castFiles).
  { unfold castFiles. clear. induction (s0 :: sl) as [|x l IH]; [reflexivity|].
    simpl. destruct (endsWith x (js ".cast")) eqn:Hx; [|exact IH].
    rewrite filter_cons. rewrite decide_True by exact Hx. now rewrite IH. }
  unfold POST. rewrite Hex. cbn [negb]. cbv iota.
  rewrite Hidem, convert_files_total; [now rewrite Hcf|].
  intros file Hin. unfold castFiles in Hin.
  apply list_elem_of_In, filter_In in Hin as [Hin Hc].
  apply Hok; [now apply list_elem_of_In | exact Hc].
Qed.

End EndpointsFurther.

(** ** The segmenter and its lines *)

Lemma split_on_app_sep sep (a b : jsstring) :
  split_on sep (a ++ sep :: b) = split_on sep a ++ split_on sep b.
Proof.
  induction a as [|c t IH]; simpl.
  - now rewrite N.eqb_refl.
  - destruct (c =? sep); [now rewrite IH|]. rewrite IH.
    pose proof (split_on_nonempty sep t) as Hne.
    destruct (split_on sep t) as [|h r]; [congruence | reflexivity].
Qed.

Lemma command_blocks_step st line :
  map content (List.filter (is_type command) (push_current (segment_line st line)))
  = map content (List.filter (is_type command) (push_current st))
    ++ (if is_command_source line
        then [js "$ " ++ extractCommand line ++ js "\n"] else []).
Proof.
  unfold segment_line, is_command_source.
  destruct (nonempty (trim line)) eqn:Hblank; cbn [negb].
  - destruct (isCommandLine line); cbn [andb].
    + destruct (nonempty (extractCommand line)); unfold push_current at 1;
        cbn [currentBlock blocks]; [|now rewrite app_nil_r].
      rewrite List.filter_app, map_app. reflexivity.
    + rewrite app_nil_r.
      destruct st as [bl [[[] c]|]]; unfold push_current; cbn [currentBlock blocks];
        rewrite ?List.filter_app, ?map_app; cbn [List.filter is_type type map];
        rewrite ?app_nil_r; reflexivity.
  - rewrite (isCommandLine_blank line Hblank). cbn [andb]. rewrite app_nil_r.
    destruct st as [bl [[[] c]|]]; unfold push_current; cbn [currentBlock blocks];
      rewrite ?List.filter_app, ?map_app; cbn [List.filter is_type type map];
      reflexivity.
Qed.

Lemma command_blocks_fold lines st :
  map content (List.filter (is_type command)
                 (push_current (fold_left segment_line lines st)))
  = map content (List.filter (is_type command) (push_current st))
    ++ map (fun line => js "$ " ++ extractCommand line ++ js "\n")
           (List.filter is_command_source lines).
Proof.
  revert st. induction lines as [|l ls IH]; intros st; simpl.
  - now rewrite app_nil_r.
  - rewrite IH, command_blocks_step, <- app_assoc.
    now destruct (is_command_source l).
Qed.

Lemma block_lines_first (l : jsstring) :
  10 ∉ l ->
  block_lines (Block output (l ++ js "\n"))
  = if nonempty (trim l) then [l] else [].
Proof.
  intros Hl. unfold block_lines. cbn [content].
  replace (split_on 10 (l ++ js "\n")) with [l; []]
    by (symmetry; apply split_on_single, Hl).
  cbn [List.filter]. change (nonempty (trim [])) with false.
  now destruct (nonempty (trim l)).
Qed.

Lemma block_lines_extend (c' l : jsstring) :
  10 ∉ l ->
  block_lines (Block output ((c' ++ js "\n") ++ l ++ js "\n"))
  = block_lines (Block output (c' ++ js "\n"))
    ++ (if nonempty (trim l) then [l] else []).
Proof.
  intros Hl. unfold block_lines. cbn [content].
  replace (split_on 10 ((c' ++ js "\n") ++ l ++ js "\n"))
    with (split_on 10 c' ++ [l; []]).
  - replace (split_on 10 (c' ++ js "\n")) with (split_on 10 c' ++ [[]])
      by (symmetry; apply (split_on_app_sep 10 c' [])).
    rewrite !List.filter_app, <- app_assoc. reflexivity.
  - symmetry. rewrite <- app_assoc.
    etransitivity; [apply (split_on_app_sep 10 c' (l ++ js "\n"))|].
    f_equal. apply split_on_single, Hl.
Qed.

Lemma output_blocks_new bl b (line : jsstring) :
  10 ∉ line -> nonempty (trim line) = true ->
  flat_map block_lines
    (List.filter (is_type output) (bl ++ [b; Block output (line ++ js "\n")]))
  = flat_map block_lines (List.filter (is_type output) (bl ++ [b])) ++ [line].
Proof.
  intros Hl Hblank. rewrite !List.filter_app, !flat_map_app, <- app_assoc. f_equal.
  cbn [List.filter]. destruct (is_type output b); cbn [is_type type flat_map];
    rewrite block_lines_first, Hblank, ?app_nil_r by exact Hl; reflexivity.
Qed.

Lemma output_blocks_first bl (line : jsstring) :
  10 ∉ line -> nonempty (trim line) = true ->
  flat_map block_lines
    (List.filter (is_type output) (bl ++ [Block output (line ++ js "\n")]))
  = flat_map block_lines (List.filter (is_type output) bl) ++ [line].
Proof.
  intros Hl Hblank. rewrite !List.filter_app, !flat_map_app. f_equal.
  cbn [List.filter is_type type flat_map].
  rewrite block_lines_first, Hblank, ?app_nil_r by exact Hl; reflexivity.
Qed.

Lemma output_blocks_extend bl (c' l : jsstring) :
  10 ∉ l ->
  flat_map block_lines
    (List.filter (is_type output)
       (bl ++ [Block output ((c' ++ js "\n") ++ l ++ js "\n")]))
  = flat_map block_lines
      (List.filter (is_type output) (bl ++ [Block output (c' ++ js "\n")]))
    ++ (if nonempty (trim l) then [l] else []).
Proof.
  intros Hl. rewrite !List.filter_app, !flat_map_app.
  cbn [List.filter is_type type flat_map].
  rewrite block_lines_extend, !app_nil_r by exact Hl. now rewrite app_assoc.
Qed.

Lemma output_blocks_step st line :
  10 ∉ line -> open_output_closed st ->
  open_output_closed (segment_line st line)
  /\ flat_map block_lines
       (List.filter (is_type output) (push_current (segment_line st line)))
     = flat_map block_lines (List.filter (is_type output) (push_current st))
       ++ (if is_output_source line then [line] else []).
Proof.
  intros Hl Hst. unfold segment_line, is_output_source.
  destruct (nonempty (trim line)) eqn:Hblank; cbn [negb andb].
  - destruct (isCommandLine line); cbn [negb].
    + rewrite app_nil_r.
      destruct (nonempty (extractCommand line));
        (split; [exact I|]); unfold push_current at 1; cbn [currentBlock blocks];
        [|reflexivity].
      rewrite List.filter_app, flat_map_app. cbn [List.filter is_type type flat_map].
      now rewrite app_nil_r.
    + destruct st as [bl [[[] c]|]]; unfold open_output_closed in *;
        unfold push_current; cbn [currentBlock blocks] in *.
      * split; [now exists line|].
        rewrite <- app_assoc. now apply output_blocks_new.
      * destruct Hst as [c' ->]. split.
        { exists ((c' ++ js "\n") ++ line). now rewrite <- !app_assoc. }
        rewrite (output_blocks_extend bl c' line Hl), Hblank. reflexivity.
      * split; [now exists line|]. now apply output_blocks_first.
  - rewrite app_nil_r.
    destruct st as [bl [[[] c]|]]; unfold open_output_closed in *;
      unfold push_current; cbn [currentBlock blocks] in *; auto.
    destruct Hst as [c' ->]. split; [now exists (c' ++ js "\n")|].
    etransitivity;
      [apply (output_blocks_extend bl c' [] (not_elem_of_nil 10))|].
    change (nonempty (trim [])) with false. now rewrite app_nil_r.
Qed.

Lemma output_blocks_fold lines st :
  Forall (fun line => 10 ∉ line) lines -> open_output_closed st ->
  flat_map block_lines
    (List.filter (is_type output) (push_current (fold_left segment_line lines st)))
  = flat_map block_lines (List.filter (is_type output) (push_current st))
    ++ List.filter is_output_source lines.
Proof.
  intros Hlines. revert st. induction Hlines as [|l ls Hl Hls IH]; intros st Hst; simpl.
  - now rewrite app_nil_r.
  - destruct (output_blocks_step st l Hl Hst) as [Hst' Hstep].
    rewrite IH, Hstep, <- app_assoc by exact Hst'.
    now destruct (is_output_source l).
Qed.

(** The blocks account for the lines of the text, in order: the
    command blocks are, one for one, the prompt sign and the extracted
    command of the command lines that have something to extract; and
    the non-blank lines of the output blocks are, one for one and
    unchanged, the non-blank lines that are not commands.  So the only
    non-blank lines that leave no trace are command lines with nothing
    to extract. *)
Theorem parseTerminalOutput_accounts_for_lines (out : jsstring) :
  map content (List.filter (is_type command) (parseTerminalOutput out))
  = map (fun line => js "$ " ++ extractCommand line ++ js "\n")
        (List.filter is_command_source (split_on 10 out))
  /\ flat_map block_lines (List.filter (is_type output) (parseTerminalOutput out))
     = List.filter is_output_source (split_on 10 out).
Proof.
  unfold parseTerminalOutput. split.
  - now rewrite command_blocks_fold.
  - rewrite output_blocks_fold; [reflexivity | apply split_on_no_sep | exact I].
Qed.

Lemma segment_blank_lines lines :
  Forall (fun line => nonempty (trim line) = false) lines ->
  fold_left segment_line lines (Segmenter [] None) = Segmenter [] None.
Proof.
  induction 1 as [|l ls Hl Hls IH]; [reflexivity|]. simpl.
  unfold segment_line at 2. rewrite Hl. exact IH.
Qed.

(** A text of white space only gives no block at all. *)
Theorem blank_text_gives_no_block (out : jsstring) :
  nonempty (trim out) = false -> parseTerminalOutput out = [].
Proof.
  intros Hblank. unfold parseTerminalOutput.
  rewrite segment_blank_lines; [reflexivity|].
  assert (Hsp : Forall (fun c => is_space c = true) out).
  { apply trim_nil. destruct (trim out); [reflexivity | discriminate]. }
  pose proof (split_on_Forall (fun c => is_space c = true) out Hsp) as Hall.
  eapply Forall_impl; [exact Hall|]. intros line Hline. cbv beta in Hline.
  apply trim_nil in Hline. now rewrite Hline.
Qed.

(** ** The classifier and white space *)

Lemma trimStart_pad pad s :
  Forall (fun c => is_space c = true) pad -> trimStart (pad ++ s) = trimStart s.
Proof. induction 1 as [|c t Hc Ht IH]; simpl; [reflexivity | now rewrite Hc]. Qed.

Lemma trimStart_app s pad :
  Exists (fun c => is_space c = false) s -> trimStart (s ++ pad) = trimStart s ++ pad.
Proof.
  induction s as [|c t IH]; intros Hex; [inversion Hex|]. simpl.
  destruct (is_space c) eqn:Hc; [|reflexivity].
  apply IH. inversion Hex; [congruence | assumption].
Qed.

Lemma trimEnd_pad s pad :
  Forall (fun c => is_space c = true) pad -> trimEnd (s ++ pad) = trimEnd s.
Proof.
  intros Hpad. unfold trimEnd. rewrite rev_app_distr, trimStart_pad; [reflexivity|].
  now apply Forall_rev.
Qed.

Lemma trim_pad pad s pad' :
  Forall (fun c => is_space c = true) pad ->
  Forall (fun c => is_space c = true) pad' ->
  trim (pad ++ s ++ pad') = trim s.
Proof.
  intros Hpad Hpad'. unfold trim. rewrite trimStart_pad by exact Hpad.
  destruct (space_or_not s) as [Hs|Hs].
  - assert (Hall : Forall (fun c => is_space c = true) (s ++ pad'))
      by (apply Forall_app; auto).
    apply trimStart_nil in Hs, Hall. now rewrite Hs, Hall.
  - rewrite trimStart_app by exact Hs. now apply trimEnd_pad.
Qed.

(** White space around a line changes neither whether it is a command
    nor the command taken from it. *)
Theorem surrounding_space_is_ignored (pad line pad' : jsstring) :
  Forall (fun c => is_space c = true) pad ->
  Forall (fun c => is_space c = true) pad' ->
  isCommandLine (pad ++ line ++ pad') = isCommandLine line
  /\ extractCommand (pad ++ line ++ pad') = extractCommand line.
Proof.
  intros Hpad Hpad'. unfold isCommandLine, extractCommand.
  now rewrite (trim_pad pad line pad' Hpad Hpad').
Qed.

Lemma exec_bol r s i m :
  exec (Seq Bol r) s = Some (i, m) -> i = O.
Proof.
  unfold exec. destruct s as [|c t]; cbn [search_from].
  - destruct (match_at _ _ _); congruence.
  - destruct (match_at _ _ _); [congruence|].
    rewrite search_from_bol by lia. discriminate.
Qed.

Lemma replace_first_bol r s :
  exists n, replace_first (Seq Bol r) [] s = drop n s.
Proof.
  unfold replace_first. destruct (exec (Seq Bol r) s) as [[i m]|] eqn:Hex.
  - apply exec_bol in Hex. subst i. now exists (pos m).
  - exists O. now rewrite drop_0.
Qed.

(** The extracted command is the trimmed line without some characters
    at its start: nothing is changed in it or taken off its end. *)
Theorem extractCommand_drops_a_prefix (line : jsstring) :
  exists n, extractCommand line = drop n (trim line).
Proof.
  unfold extractCommand.
  destruct (replace_first_bol
              (Seqs [Chr (oneof (js "➜→✗")); Plus (Chr is_space);
                     Plus (Chr (cnot is_space)); Plus (Chr is_space)])
              (trim line)) as [n1 H1].
  change (Seq Bol _) with re_strip_zsh in H1. rewrite H1.
  destruct (replace_first_bol
              (Seqs [Chr word_start; Star (Chr word_char); Chr (only (chr "@"));
                     Plus (Chr word_char); Chr (only (chr ":"));
                     Star (Chr (cnot (oneof (js "$#")))); Chr (oneof (js "$#"));
                     Star (Chr is_space)])
              (drop n1 (trim line))) as [n2 H2].
  change (Seq Bol _) with re_strip_user_host in H2. rewrite H2.
  destruct (replace_first_bol
              (Seqs [Chr (oneof (js "$#")); Star (Chr is_space)])
              (drop n2 (drop n1 (trim line)))) as [n3 H3].
  change (Seq Bol _) with re_strip_prompt in H3. rewrite H3.
  destruct (replace_first_bol
              (Seqs [Chr (only (chr "m")); Plus (Chr is_space)])
              (drop n3 (drop n2 (drop n1 (trim line))))) as [n4 H4].
  change (Seq Bol _) with re_strip_m in H4. rewrite H4.
  exists (n1 + n2 + n3 + n4)%nat. rewrite !drop_drop. f_equal. lia.
Qed.

(** ** The stripper and the characters of its input *)

Lemma split_on_none sep (s : jsstring) :
  sep ∉ s -> split_on sep s = [s].
Proof.
  induction s as [|c t IH]; intros Hs; [reflexivity|]. simpl.
  destruct (N.eqb_spec c sep) as [->|Hne]; [exfalso; apply Hs; left|].
  rewrite IH; [reflexivity|]. intros Hin. apply Hs. now right.
Qed.

Lemma no_newline_no_blank_run (s : jsstring) :
  10 ∉ s -> no_blank_run s = true.
Proof.
  induction s as [|c t IH]; intros Hs; [reflexivity|].
  cbn [no_blank_run nl_run].
  destruct (N.eqb_spec c 10) as [->|Hne]; [exfalso; apply Hs; left|].
  apply IH. intros Hin. apply Hs. now right.
Qed.

Lemma collapse_line_first line :
  collapse_line [] line = [] \/ exists x, collapse_line [] line = [x].
Proof.
  unfold collapse_line.
  repeat match goal with
         | |- context [match ?b with _ => _ end] => destruct b
         end; cbn [app]; eauto.
Qed.

Lemma strip_passes_Forall (P : char -> Prop) text :
  Forall P text -> Forall P (strip_glyphs_controls (strip_sequences text)).
Proof.
  intros Ht. unfold strip_glyphs_controls, strip_sequences, replace_all.
  repeat (apply replace_all_from_Forall; [constructor|]). exact Ht.
Qed.

(** What holds of every character of a text, and of the newline if the
    text has one, holds of every character of the stripped text. *)
Lemma stripAnsiCodes_preserves (P : char -> Prop) (text : jsstring) :
  (10 ∈ text -> P 10) -> Forall P text -> Forall P (stripAnsiCodes text).
Proof.
  intros Hnewline Htext.
  pose proof (strip_passes_Forall P text Htext) as Hclean.
  destruct (decide (10 ∈ text)) as [Hnl|Hnl].
  - now apply stripAnsiCodes_Forall; [apply Hnewline|].
  - assert (Hno : forall s, Forall (fun c => c ∈ text) s -> 10 ∉ s).
    { intros s Hs Hin. rewrite Forall_forall in Hs. now apply Hnl, Hs. }
    assert (Hin : Forall (fun c => c ∈ text /\ P c)
                         (strip_glyphs_controls (strip_sequences text))).
    { apply strip_passes_Forall, Forall_forall. intros c Hc.
      rewrite Forall_forall in Htext. auto. }
    unfold stripAnsiCodes.
    rewrite (split_on_none 10 (strip_glyphs_controls (strip_sequences text)))
      by (apply Hno; eapply Forall_impl; [exact Hin|]; now intros c [Hc _]).
    unfold collapse. cbn [fold_left].
    pose proof (collapse_line_Forall (fun c => c ∈ text /\ P c) (@nil jsstring) _
                  (Forall_nil_2 _) Hin) as Hall.
    destruct (collapse_line_first (strip_glyphs_controls (strip_sequences text)))
      as [Hc | [x Hc]]; rewrite Hc in *.
    + cbn. constructor.
    + pose proof (List.Forall_inv Hall) as Hx. cbn [filter_from].
      destruct (keep_line [x] 0 x); cbn [join]; [|constructor].
      unfold squeeze_blank_lines, replace_all. rewrite squeeze_fixed.
      * eapply Forall_impl; [exact Hx|]. now intros c [_ Hc'].
      * apply no_newline_no_blank_run, Hno.
        eapply Forall_impl; [exact Hx|]. now intros c [Hc' _].
Qed.

(** The stripper invents nothing: every character of its result is a
    character of the text it was given. *)
Theorem stripAnsiCodes_only_input_characters (text : jsstring) :
  Forall (fun c => c ∈ text) (stripAnsiCodes text).
Proof.
  apply stripAnsiCodes_preserves; [intros Hnl; exact Hnl|].
  apply Forall_forall. intros c Hc. exact Hc.
Qed.

Section BlockCharacters.

(** A property of characters that the prompt sign, the space and the
    newline have. *)
Variable P : char -> Prop.
Hypothesis P_prompt : Forall P (js "$ ").
Hypothesis P_newline : Forall P (js "\n").

Lemma segment_line_Forall st line :
  Forall P line ->
  Forall (fun b => Forall P (content b)) (push_current st) ->
  Forall (fun b => Forall P (content b)) (push_current (segment_line st line)).
Proof.
  intros Hl Hst. unfold segment_line.
  assert (Hline : Forall P (line ++ js "\n")) by (apply Forall_app; auto).
  assert (Hcmd : Forall P (js "$ " ++ extractCommand line ++ js "\n")).
  { repeat (apply Forall_app; split); auto. now apply extractCommand_Forall. }
  assert (Hsnoc : forall bl c,
             Forall (fun b => Forall P (content b)) bl -> Forall P c ->
             forall t, Forall (fun b => Forall P (content b)) (bl ++ [Block t c])).
  { intros bl c Hbl Hc t. apply Forall_app. split; [exact Hbl|].
    apply Forall_cons_2; [exact Hc | apply Forall_nil_2]. }
  destruct (nonempty (trim line)); cbn [negb].
  - destruct (isCommandLine line).
    + destruct (nonempty (extractCommand line)); unfold push_current at 1;
        cbn [currentBlock blocks]; [|exact Hst].
      now apply Hsnoc.
    + destruct st as [bl [[[] c]|]]; unfold push_current in *;
        cbn [currentBlock blocks] in *.
      * now apply Hsnoc.
      * apply Forall_app in Hst as [Hbl Hb]. apply Hsnoc; [exact Hbl|].
        apply Forall_app. split; [|exact Hline].
        apply (Forall_cons_1 _ _ _ Hb).
      * now apply Hsnoc.
  - destruct st as [bl [[[] c]|]]; unfold push_current in *;
      cbn [currentBlock blocks] in *; try exact Hst.
    apply Forall_app in Hst as [Hbl Hb]. apply Hsnoc; [exact Hbl|].
    apply Forall_app. split; [|exact P_newline].
    apply (Forall_cons_1 _ _ _ Hb).
Qed.

Lemma parseTerminalOutput_Forall out :
  Forall P out ->
  Forall (fun b => Forall P (content b)) (parseTerminalOutput out).
Proof.
  intros Hout. unfold parseTerminalOutput.
  pose proof (split_on_Forall P out Hout) as Hlines.
  assert (Hgen : forall lines st,
             Forall (Forall P) lines ->
             Forall (fun b => Forall P (content b)) (push_current st) ->
             Forall (fun b => Forall P (content b))
                    (push_current (fold_left segment_line lines st))).
  { intros lines st Hall. revert st.
    induction Hall as [|l ls Hl Hls IH]; intros st Hst; simpl; [exact Hst|].
    now apply IH, segment_line_Forall. }
  apply Hgen; [exact Hlines | constructor].
Qed.

End BlockCharacters.

(** The blocks cut from a stripped text hold only characters of the
    text that was stripped, the prompt sign, the space and the
    newline. *)
Theorem blocks_hold_only_output_characters (text : jsstring) :
  Forall (fun b => Forall (fun c => c ∈ text \/ c ∈ js "$ \n") (content b))
         (parseTerminalOutput (stripAnsiCodes text)).
Proof.
  apply parseTerminalOutput_Forall.
  - apply Forall_forall. intros c Hc. right.
    apply list_elem_of_In in Hc. apply list_elem_of_In. vm_compute in Hc |- *. tauto.
  - apply Forall_forall. intros c Hc. right.
    apply list_elem_of_In in Hc. apply list_elem_of_In. vm_compute in Hc |- *. tauto.
  - apply stripAnsiCodes_preserves; [intros Hnl; now left|].
    apply Forall_forall. intros c Hc. now left.
Qed.

(** ** The stripper and the length of its input *)

Lemma replace_all_from_shorter r i skip s :
  (length (replace_all_from r [] i skip s) <= length s)%nat.
Proof.
  revert i skip. induction s as [|c t IH]; intros i skip.
  - simpl. destruct skip; [|simpl; lia]. destruct (match_at r i []); simpl; lia.
  - simpl. destruct skip as [|k]; [|specialize (IH (S i) k); lia].
    destruct (match_at r i (c :: t)) as [m|]; cbn [app].
    + destruct (pos m - i)%nat as [|k]; cbn [length].
      * specialize (IH (S i) O). lia.
      * specialize (IH (S i) k). lia.
    + cbn [length]. specialize (IH (S i) O). lia.
Qed.

Lemma strip_passes_shorter text :
  (length (strip_glyphs_controls (strip_sequences text)) <= length text)%nat.
Proof.
  unfold strip_glyphs_controls, strip_sequences, replace_all.
  repeat (etransitivity; [apply replace_all_from_shorter|]). reflexivity.
Qed.

Lemma lines_size_cons x l :
  lines_size (x :: l) = S (length x + lines_size l).
Proof. reflexivity. Qed.

Lemma lines_size_split (s : jsstring) :
  lines_size (split_on 10 s) = S (length s).
Proof.
  induction s as [|c t IH]; [reflexivity|]. cbn [split_on].
  destruct (c =? 10); [rewrite lines_size_cons, IH; simpl; lia|].
  pose proof (split_on_nonempty 10 t) as Hne.
  destruct (split_on 10 t) as [|h r]; [congruence|].
  rewrite lines_size_cons in *. cbn [length]. lia.
Qed.

Lemma lines_size_app l k :
  lines_size (l ++ k) = (lines_size l + lines_size k)%nat.
Proof.
  induction l as [|x l IH]; [reflexivity|].
  cbn [app]. rewrite !lines_size_cons, IH. lia.
Qed.

Lemma join_newline_length l :
  (length (join (js "\n") l) <= pred (lines_size l))%nat.
Proof.
  induction l as [|x l IH]; [simpl; lia|]. cbn [join].
  destruct l as [|y l]; [rewrite lines_size_cons; simpl; lia|].
  rewrite !length_app. change (length (js "\n")) with 1%nat.
  rewrite (lines_size_cons x). rewrite lines_size_cons in IH.
  rewrite lines_size_cons. lia.
Qed.

Lemma filter_from_lines_size f i l :
  (lines_size (filter_from f i l) <= lines_size l)%nat.
Proof.
  revert i. induction l as [|x l IH]; intros i; [reflexivity|]. cbn [filter_from].
  specialize (IH (S i)). destruct (f i x); rewrite !lines_size_cons; lia.
Qed.

Lemma trimStart_shorter s : (length (trimStart s) <= length s)%nat.
Proof.
  induction s as [|c t IH]; [reflexivity|]. cbn [trimStart].
  destruct (is_space c); cbn [length]; lia.
Qed.

Lemma trim_shorter s : (length (trim s) <= length s)%nat.
Proof.
  unfold trim, trimEnd. rewrite length_rev.
  etransitivity; [apply trimStart_shorter|]. rewrite length_rev.
  apply trimStart_shorter.
Qed.

Lemma capture_shorter s m i :
  (length (default [] (capture s m i)) <= length s)%nat.
Proof.
  unfold capture. destruct (List.find _ (caps m)) as [[g [b e]]|]; simpl; [|lia].
  rewrite length_take, length_drop. lia.
Qed.

Lemma split_from_shorter r q skip cur s :
  Forall (fun p => length p <= length cur + length s)%nat (split_from r q skip cur s).
Proof.
  revert q skip cur. induction s as [|c t IH]; intros q skip cur; cbn [split_from].
  - repeat constructor. lia.
  - assert (Hweak : forall q skip cur',
               (length cur' + length t <= length cur + length (c :: t))%nat ->
               Forall (fun p => length p <= length cur + length (c :: t))%nat
                      (split_from r q skip cur' t)).
    { intros q' skip' cur' Hle. eapply Forall_impl; [apply IH|].
      intros p Hp. cbv beta in Hp. lia. }
    destruct skip as [|k]; [|apply Hweak; cbn [length]; lia].
    destruct (match_at r q (c :: t)) as [m|].
    + destruct (pos m - q)%nat.
      * destruct cur as [|c0 cur0].
        -- apply Hweak. cbn [length]. lia.
        -- apply Forall_cons_2; [cbn [length]; lia|].
           apply Hweak. cbn [length]. lia.
      * apply Forall_cons_2; [cbn [length]; lia|].
        apply Hweak. cbn [length]. lia.
    + apply Hweak. rewrite length_app. cbn [length]. lia.
Qed.

Lemma last_part_shorter r s :
  (length (List.last (split r s) []) <= length s)%nat.
Proof.
  assert (Hall : Forall (fun p => length p <= length s)%nat (split r s)).
  { unfold split. destruct s as [|c t].
    - destruct (match_at r 0 []); repeat constructor.
    - apply (split_from_shorter r 0 0 [] (c :: t)). }
  induction Hall as [|p ps Hp Hps IH]; [simpl; lia|].
  destruct ps as [|p' ps']; [exact Hp | exact IH].
Qed.

Lemma collapse_line_lines_size collapsed line :
  (lines_size (collapse_line collapsed line)
   <= lines_size collapsed + S (length line))%nat.
Proof.
  assert (Hsnoc : forall x, (length x <= length line)%nat ->
             (lines_size (collapsed ++ [x]) <= lines_size collapsed + S (length line))%nat).
  { intros x Hx. rewrite lines_size_app, lines_size_cons. simpl. lia. }
  unfold collapse_line.
  destruct (exec re_promptWithCommand line) as [[i m]|].
  - cbv zeta. destruct (nonempty _); [|lia].
    apply Hsnoc. etransitivity; [apply trim_shorter | apply capture_shorter].
  - destruct (test re_justPrompt line); [lia|]. cbv zeta.
    destruct (_ && _); [|apply Hsnoc; lia].
    destruct (nonempty _); [|lia].
    apply Hsnoc. etransitivity; [apply trim_shorter | apply last_part_shorter].
Qed.

Lemma collapse_lines_size lines collapsed :
  (lines_size (fold_left collapse_line lines collapsed)
   <= lines_size collapsed + lines_size lines)%nat.
Proof.
  revert collapsed. induction lines as [|l ls IH]; intros collapsed;
    cbn [fold_left]; [simpl; lia|].
  etransitivity; [apply IH|].
  pose proof (collapse_line_lines_size collapsed l).
  rewrite lines_size_cons. lia.
Qed.

Lemma squeeze_shorter n : forall s i,
  (length s <= n)%nat ->
  (length (replace_all_from re_blank_run (js "\n\n") i 0 s) <= length s)%nat.
Proof.
  induction n as [|n IH]; intros s i Hn.
  - destruct s; [simpl; lia | simpl in Hn; lia].
  - rewrite squeeze_step. destruct (3 <=? nl_run s)%nat eqn:Hrun.
    + apply Nat.leb_le in Hrun. pose proof (nl_run_length s) as Hlen.
      rewrite length_app. change (length (js "\n\n")) with 2%nat.
      specialize (IH (drop (nl_run s) s) (i + nl_run s)%nat).
      rewrite length_drop in IH. lia.
    + destruct s as [|c t]; [simpl; lia|]. cbn [length] in *.
      specialize (IH t (S i)). lia.
Qed.

(** The stripper never makes a text longer. *)
Theorem stripAnsiCodes_never_longer (text : jsstring) :
  (length (stripAnsiCodes text) <= length text)%nat.
Proof.
  unfold stripAnsiCodes, squeeze_blank_lines, replace_all.
  etransitivity; [eapply squeeze_shorter; reflexivity|].
  etransitivity; [apply join_newline_length|].
  pose proof (filter_from_lines_size
                (keep_line (collapse (split_on 10
                   (strip_glyphs_controls (strip_sequences text))))) 0
                (collapse (split_on 10
                   (strip_glyphs_controls (strip_sequences text))))) as Hf.
  pose proof (collapse_lines_size
                (split_on 10 (strip_glyphs_controls (strip_sequences text))) [])
    as Hc.
  fold (collapse (split_on 10 (strip_glyphs_controls (strip_sequences text)))) in Hc.
  rewrite lines_size_split in Hc. change (lines_size []) with O in Hc.
  pose proof (strip_passes_shorter text). lia.
Qed.

Section ConversionSpace.

Context {runtime : Runtime}.

(** White space around the content of a file, a final newline among
    it, changes nothing in the conversion. *)
Theorem convert_ignores_surrounding_space (pad castContent pad' fileName0 : jsstring) :
  Forall (fun c => is_space c = true) pad ->
  Forall (fun c => is_space c = true) pad' ->
  convertCastToMarkdown (pad ++ castContent ++ pad') fileName0
  = convertCastToMarkdown castContent fileName0.
Proof.
  intros Hpad Hpad'. unfold convertCastToMarkdown.
  now rewrite (trim_pad pad castContent pad' Hpad Hpad').
Qed.

End ConversionSpace.

(** * Further evaluations *)

Lemma invalid_header_gets_diagnostic_witness :
  JSON_parse (header_line (js "not a recording")) = None
  /\ convertCastToMarkdown (runtime := example_runtime)
       (js "not a recording") (js "a.cast") = diag_header
  /\ includes (convertCastToMarkdown (runtime := example_runtime)
                 (js "not a recording") (js "a.cast")) (js "#") = false.
Proof.
  assert (Hp : JSON_parse (header_line (js "not a recording")) = None)
    by (vm_compute; reflexivity).
  split; [exact Hp|].
  apply (invalid_header_gets_diagnostic (runtime := example_runtime)). exact Hp.
Defined.

Lemma null_header_gets_error_diagnostic_witness :
  JSON_parse (header_line (js "null\n[0.1,\x22o\x22,\x22a\x22]")) = Some JNull
  /\ convertCastToMarkdown (runtime := example_runtime)
       (js "null\n[0.1,\x22o\x22,\x22a\x22]") (js "a.cast") = diag_error.
Proof.
  assert (Hp : JSON_parse (header_line (js "null\n[0.1,\x22o\x22,\x22a\x22]"))
               = Some JNull) by (vm_compute; reflexivity).
  split; [exact Hp|].
  apply (null_header_gets_error_diagnostic (runtime := example_runtime)). exact Hp.
Defined.

Lemma parsed_header_gets_document_witness :
  JSON_parse (header_line (js "[]\n[0.1,\x22o\x22,\x22a\x22]")) = Some (JArr [])
  /\ JArr [] <> JNull
  /\ forallb (fun line => plain (JSON_parse line))
             (split_on 10 (trim (js "[]\n[0.1,\x22o\x22,\x22a\x22]"))) = true
  /\ exists body,
       convertCastToMarkdown (runtime := example_runtime)
         (js "[]\n[0.1,\x22o\x22,\x22a\x22]") (js "a.cast")
       = js "# Terminal Recording: " ++ body
         ++ js "\n---\n\n*Generated from asciinema cast file*\n".
Proof.
  assert (Hp : JSON_parse (header_line (js "[]\n[0.1,\x22o\x22,\x22a\x22]"))
               = Some (JArr [])) by (vm_compute; reflexivity).
  assert (Hn : JArr [] <> JNull) by discriminate.
  assert (Hl : forallb (fun line => plain (JSON_parse line))
                 (split_on 10 (trim (js "[]\n[0.1,\x22o\x22,\x22a\x22]"))) = true)
    by (vm_compute; reflexivity).
  split; [exact Hp|]. split; [exact Hn|]. split; [exact Hl|].
  apply (parsed_header_gets_document (runtime := example_runtime) _ _ (JArr []) Hp Hn).
  exact Hl.
Defined.

(** A header that parses and is not [null] can still end in the
    diagnostic of the outer handler: a title that is an object with a
    member named [toString] cannot be put into the title line. *)
Lemma unprintable_title_gets_error_diagnostic :
  JSON_parse (js "{\x22title\x22:{\x22toString\x22:1}}")
  = Some (JObj [(js "title", JObj [(js "toString", JNum 1)])])
  /\ convertCastToMarkdown (runtime := example_runtime)
       (js "{\x22title\x22:{\x22toString\x22:1}}") (js "a.cast") = diag_error.
Proof. vm_compute. split; reflexivity. Qed.

Lemma undecodable_line_changes_no_event_witness :
  (nonempty (trim (js "oops")) = false
   \/ JSON_parse (js "oops") = None \/ JSON_parse (js "oops") = Some JNull)
  /\ parse_events (js "{}" :: [js "[0.1,\x22o\x22,\x22a\x22]"] ++ js "oops"
                     :: [js "[0.2,\x22o\x22,\x22b\x22]"])
     = parse_events (js "{}" :: [js "[0.1,\x22o\x22,\x22a\x22]"]
                       ++ [js "[0.2,\x22o\x22,\x22b\x22]"]).
Proof.
  assert (Hb : nonempty (trim (js "oops")) = false
               \/ JSON_parse (js "oops") = None \/ JSON_parse (js "oops") = Some JNull)
    by (right; left; vm_compute; reflexivity).
  split; [exact Hb|].
  apply (undecodable_line_changes_no_event (js "{}") (js "oops")). exact Hb.
Defined.

Lemma example_fs_no_directory file :
  logging example_fs file <> Some Directory.
Proof.
  unfold example_fs. cbn [logging].
  destruct (str_eqb file (js "a.cast")); [discriminate|].
  destruct (str_eqb file (js "notes.txt")); discriminate.
Defined.

Lemma POST_converts_in_request_order_witness :
  logging_exists example_fs = true
  /\ [js "a.cast"; js "notes.txt"; js "missing.cast"; js "a.cast"] <> []
  /\ POST (runtime := example_runtime) example_fs
       (Some [js "a.cast"; js "notes.txt"; js "missing.cast"; js "a.cast"])
     = Json (omap (entry_of (runtime := example_runtime) example_fs)
               (filter (fun file => endsWith file (js ".cast") = true)
                  [js "a.cast"; js "notes.txt"; js "missing.cast"; js "a.cast"]))
            (Some (length
               (omap (entry_of (runtime := example_runtime) example_fs)
                  (filter (fun file => endsWith file (js ".cast") = true)
                     [js "a.cast"; js "notes.txt"; js "missing.cast"; js "a.cast"]))))
            None.
Proof.
  assert (He : logging_exists example_fs = true) by reflexivity.
  assert (Hn : [js "a.cast"; js "notes.txt"; js "missing.cast"; js "a.cast"] <> [])
    by discriminate.
  split; [exact He|]. split; [exact Hn|].
  apply (POST_converts_in_request_order (runtime := example_runtime) _ _ He Hn).
  intros file _ _. apply example_fs_no_directory.
Defined.

(** A selection that is a string, not an array, fails the request
    with no directory in sight. *)
Lemma POST_request_fails_iff_witness :
  POST_request (runtime := example_runtime) example_fs
    (Some (JObj [(js "files", JStr (js "a.cast"))])) = ServerError.
Proof.
  apply (POST_request_fails_iff (runtime := example_runtime)). right. right.
  exists (JObj [(js "files", JStr (js "a.cast"))]).
  split; [reflexivity|]. split; [discriminate|].
  split; [reflexivity|]. split; [vm_compute; reflexivity|].
  split; [vm_compute; reflexivity|]. left. intros names.
  vm_compute. discriminate.
Defined.

(** The answers to requests of every kind: a body that is not JSON, a
    body that is [null], a selection that holds a number, a selection
    with a directory under a [.cast] name, a body that is a number, an
    object for a selection with a zero [length], and a proper
    selection. *)
Lemma POST_request_answers :
  POST_request (runtime := example_runtime) example_fs None = ServerError
  /\ POST_request (runtime := example_runtime) example_fs (Some JNull) = ServerError
  /\ POST_request (runtime := example_runtime) example_fs
       (JSON_parse (js "{\x22files\x22:[\x22a.cast\x22,1]}")) = ServerError
  /\ POST_request (runtime := example_runtime) example_fs_dir
       (JSON_parse (js "{\x22files\x22:[\x22a.cast\x22,\x22dir.cast\x22]}"))
     = ServerError
  /\ POST_request (runtime := example_runtime) example_fs (JSON_parse (js "5"))
     = Json [] None (Some (js "No files selected"))
  /\ POST_request (runtime := example_runtime) example_fs
       (JSON_parse (js "{\x22files\x22:{\x22length\x22:0}}"))
     = Json [] None (Some (js "No files selected"))
  /\ POST_request (runtime := example_runtime) example_fs
       (JSON_parse (js "{\x22files\x22:[\x22a.cast\x22,\x22notes.txt\x22]}"))
     = Json [Entry (js "a.cast") diag_header] (Some 1%nat) None.
Proof. vm_compute. repeat split. Qed.

Lemma handleFileSelect_toggles_witness :
  (js "b.cast" ∈ handleFileSelect [js "a.cast"] (js "b.cast"))
  /\ (js "a.cast" ∈ handleFileSelect [js "a.cast"] (js "b.cast"))
  /\ NoDup (fold_left handleFileSelect [js "a.cast"; js "b.cast"; js "a.cast"] []).
Proof.
  destruct (handleFileSelect_toggles [js "a.cast"]
              [js "a.cast"; js "b.cast"; js "a.cast"] (js "b.cast"))
    as (Hsel & Hother & Hnd).
  split; [|split; [|exact Hnd]].
  - apply Hsel. intros Hin. apply list_elem_of_In in Hin.
    vm_compute in Hin. destruct Hin as [Heq|[]]. discriminate.
  - apply Hother; [vm_compute; discriminate | left].
Defined.

Lemma handleFileSelect_twice_witness :
  (js "b.cast" ∉ [js "a.cast"])
  /\ handleFileSelect (handleFileSelect [js "a.cast"] (js "b.cast")) (js "b.cast")
     = [js "a.cast"].
Proof.
  assert (Hn : js "b.cast" ∉ [js "a.cast"]).
  { intros Hin. apply list_elem_of_In in Hin.
    vm_compute in Hin. destruct Hin as [Heq|[]]. discriminate. }
  split; [exact Hn|]. apply handleFileSelect_twice. exact Hn.
Defined.

Lemma handleConvertToMarkdown_shows_conversions_witness :
  logging_exists example_fs = true
  /\ List.filter (fun f => endsWith f (js ".cast"))
       (selectedFiles (Page [js "notes.txt"; js "a.cast"] [] false None view_files))
     <> []
  /\ handleConvertToMarkdown (runtime := example_runtime) example_fs Delivered
       (Page [js "notes.txt"; js "a.cast"] [] false None view_files)
     = Page [js "notes.txt"; js "a.cast"]
            (omap (entry_of (runtime := example_runtime) example_fs)
               (List.filter (fun f => endsWith f (js ".cast"))
                  [js "notes.txt"; js "a.cast"]))
            false None view_markdown.
Proof.
  assert (He : logging_exists example_fs = true) by reflexivity.
  assert (Hn : List.filter (fun f => endsWith f (js ".cast"))
                 (selectedFiles
                    (Page [js "notes.txt"; js "a.cast"] [] false None view_files))
               <> []) by (vm_compute; discriminate).
  split; [exact He|]. split; [exact Hn|].
  apply (handleConvertToMarkdown_shows_conversions (runtime := example_runtime)
           example_fs
           (Page [js "notes.txt"; js "a.cast"] [] false None view_files) He Hn).
  intros file _ _. apply example_fs_no_directory.
Defined.

Lemma blank_text_gives_no_block_witness :
  nonempty (trim (js "  \n\t\n ")) = false
  /\ parseTerminalOutput (js "  \n\t\n ") = [].
Proof.
  assert (Hb : nonempty (trim (js "  \n\t\n ")) = false) by (vm_compute; reflexivity).
  split; [exact Hb|]. apply blank_text_gives_no_block. exact Hb.
Defined.

Lemma surrounding_space_is_ignored_witness :
  Forall (fun c => is_space c = true) (js "\t  ")
  /\ Forall (fun c => is_space c = true) (js " \r")
  /\ isCommandLine (js "\t  " ++ js "$ ls -la" ++ js " \r") = isCommandLine (js "$ ls -la")
  /\ extractCommand (js "\t  " ++ js "$ ls -la" ++ js " \r")
     = extractCommand (js "$ ls -la").
Proof.
  assert (H1 : Forall (fun c => is_space c = true) (js "\t  "))
    by (vm_compute; repeat constructor).
  assert (H2 : Forall (fun c => is_space c = true) (js " \r"))
    by (vm_compute; repeat constructor).
  split; [exact H1|]. split; [exact H2|].
  apply (surrounding_space_is_ignored _ (js "$ ls -la") _ H1 H2).
Defined.

Lemma convert_ignores_surrounding_space_witness :
  Forall (fun c => is_space c = true) (js " ")
  /\ Forall (fun c => is_space c = true) (js "\n\n")
  /\ convertCastToMarkdown (runtime := example_runtime)
       (js " " ++ example_recording ++ js "\n\n") (js "a.cast")
     = convertCastToMarkdown (runtime := example_runtime)
         example_recording (js "a.cast").
Proof.
  assert (H1 : Forall (fun c => is_space c = true) (js " "))
    by (vm_compute; repeat constructor).
  assert (H2 : Forall (fun c => is_space c = true) (js "\n\n"))
    by (vm_compute; repeat constructor).
  split; [exact H1|]. split; [exact H2|].
  apply (convert_ignores_surrounding_space (runtime := example_runtime) _ _ _ _ H1 H2).
Defined.
